(** * pyvdrm: the mutation algebra (vcf.py) and the HCV rule evaluator (hcvr2.py)

    A shallow embedding of the Python sources.  Python [str] values are
    [string]s of code points below 256, Python [int]s are [Z], a [frozenset]
    or [set] of [Mutation] is the list of its entries, which have pairwise
    different hash keys, exceptions are results of an error monad, and the
    dictionaries and lists that the evaluator shares between [Score] objects
    live in an explicit heap.

    The evaluator is the one of hcvr2.py, which defines its own [Score].
    [EqualityExpr] and [AsiMutations] are the same code in hcvr.py; the other
    nodes of hcvr.py compute on the scores of pyvdrm/drm.py, which is not
    among the sources. *)

From Stdlib Require Import ZArith List Bool Ascii String Lia.
From Stdlib Require Import DecimalString DecimalZ Permutation.
Import ListNotations.

Local Open Scope string_scope.
Local Open Scope Z_scope.

(** ** Exceptions *)

(** Modelled from the spec: [MissingPositionError], which the sources import
    from pyvdrm/drm.py, a module that is not among them: the error of an atom
    whose position is absent from the whole environment, raised with the
    message built in [AsiMutations.__call__].  The other exceptions are
    Python's own; they carry the message where the source builds one, and
    the empty message when the interpreter raises them ([int] of a malformed
    literal, a failed unpacking). *)
Inductive exn : Type :=
| ValueError (msg : string)
| TypeError
| AttributeError
| IndexError
| NotImplementedError
| MissingPositionError (msg : string).

Inductive exc (A : Type) : Type :=
| Return (a : A)
| Raise (e : exn).
Arguments Return {A} a.
Arguments Raise {A} e.

Definition exc_bind {A B : Type} (m : exc A) (k : A -> exc B) : exc B :=
  match m with
  | Return a => k a
  | Raise e => Raise e
  end.

Declare Scope exc_scope.
Delimit Scope exc_scope with exc.
Notation "x <- m ;; k" := (exc_bind m (fun x => k))
  (at level 61, m at next level, right associativity) : exc_scope.

(** ** Python built-ins on [str] and [int] *)

Module Py.

(** [str(z)] for an [int]. *)
Definition str (z : Z) : string := NilZero.string_of_int (Z.to_int z).

(** [int(s)] for a [str]: decimal digits with an optional leading minus sign.
    (Python also accepts surrounding white space, a plus sign and
    underscores; the regular expressions and the grammar of this program
    never produce such a literal.) *)
Definition int (s : string) : exc Z :=
  match NilZero.int_of_string s with
  | Some d => Return (Z.of_int d)
  | None => Raise (ValueError "")
  end.

Definition code (c : ascii) : nat := nat_of_ascii c.

(** The character classes of the regular expressions. *)
Definition is_upper (c : ascii) : bool :=
  (Nat.leb 65 (code c) && Nat.leb (code c) 90)%bool.

Definition is_digit (c : ascii) : bool :=
  (Nat.leb 48 (code c) && Nat.leb (code c) 57)%bool.

(** [[idA-Z]] *)
Definition is_call (c : ascii) : bool :=
  (Ascii.eqb c "i" || Ascii.eqb c "d" || is_upper c)%bool.

(** [str.isspace] on one code point below 256. *)
Definition is_space (c : ascii) : bool :=
  let n := code c in
  ((Nat.leb 9 n && Nat.leb n 13) || (Nat.leb 28 n && Nat.leb n 32)
   || Nat.eqb n 133 || Nat.eqb n 160)%bool.

(** [c in s] for a one-character [c]. *)
Fixpoint contains (s : string) (c : ascii) : bool :=
  match s with
  | EmptyString => false
  | String a s' => (Ascii.eqb a c || contains s' c)%bool
  end.

(** [''.join(c for c in s if p(c))] *)
Fixpoint filter (p : ascii -> bool) (s : string) : string :=
  match s with
  | EmptyString => EmptyString
  | String a s' => if p a then String a (filter p s') else filter p s'
  end.

(** A greedy [p*]: the longest prefix of characters in the class, and the
    rest. *)
Fixpoint span (p : ascii -> bool) (s : string) : string * string :=
  match s with
  | EmptyString => (EmptyString, EmptyString)
  | String a s' =>
      if p a then let (u, v) := span p s' in (String a u, v)
      else (EmptyString, s)
  end.

(** A greedy [p?] that captures: the captured character, and the rest. *)
Definition optional (p : ascii -> bool) (s : string) : option ascii * string :=
  match s with
  | String a s' => if p a then (Some a, s') else (None, s)
  | EmptyString => (None, s)
  end.

(** [$] without [re.MULTILINE]: the end of the text, or just before a newline
    that ends the text. *)
Definition at_end (s : string) : bool :=
  match s with
  | EmptyString => true
  | String a EmptyString => Ascii.eqb a "010"
  | _ => false
  end.

(** [sorted(l)] as an insertion sort (stable, as Python's). *)
Fixpoint insert {A : Type} (leb : A -> A -> bool) (x : A) (l : list A) : list A :=
  match l with
  | [] => [x]
  | y :: l' => if leb y x then y :: insert leb x l' else x :: l
  end.

Definition sorted {A : Type} (leb : A -> A -> bool) (l : list A) : list A :=
  fold_left (fun acc x => insert leb x acc) l [].

(** [sep.join(l)] *)
Fixpoint join (sep : string) (l : list string) : string :=
  match l with
  | [] => ""
  | [x] => x
  | x :: l' => x ++ sep ++ join sep l'
  end.

(** [s.split()]: the maximal runs of characters that are not white space. *)
Fixpoint split_aux (cur : string) (s : string) : list string :=
  match s with
  | EmptyString => match cur with EmptyString => [] | _ => [cur] end
  | String a s' =>
      if is_space a
      then match cur with
           | EmptyString => split_aux EmptyString s'
           | _ => cur :: split_aux EmptyString s'
           end
      else split_aux (cur ++ String a EmptyString) s'
  end.

Definition split (s : string) : list string := split_aux EmptyString s.

(** [seq[i]] with Python's negative indices. *)
Definition index {A : Type} (l : list A) (i : Z) : exc A :=
  let n := Z.of_nat (List.length l) in
  let j := if i <? 0 then i + n else i in
  if (j <? 0) || (n <=? j) then Raise IndexError
  else match nth_error l (Z.to_nat j) with
       | Some x => Return x
       | None => Raise IndexError
       end.

End Py.

(** [AMINO_ALPHABET] *)
Definition AMINO_ALPHABET : string := "ACDEFGHIKLMNPQRSTVWY".

(** ** [class Mutation] *)

Module Mutation.

(** [namedtuple('Mutation', 'pos variant wildtype')].  A variant is one
    character; a wild type is one character or [None]. *)
Record t : Type := mk {
  pos : Z;
  variant : ascii;
  wildtype : option ascii
}.

(** [re.match(r"([A-Z]?)(\d+)([idA-Z])", text)]: the three groups and what
    follows the match. *)
Definition re_match (text : string)
  : option (option ascii * string * ascii * string) :=
  let (wt, s1) := Py.optional Py.is_upper text in
  let (digits, s2) := Py.span Py.is_digit s1 in
  match digits, s2 with
  | String _ _, String v rest =>
      if Py.is_call v then Some (wt, digits, v, rest) else None
  | _, _ => None
  end.

(** [Mutation.__new__(cls, text=None, wildtype=None, pos=None, variant=None)].
    Without [text] the callers give a position and a variant; a call without
    a position is the [TypeError] of [int(None)], and a call without a
    variant (a mutation whose variant is [None], which nothing in the sources
    builds) is left out of the model as a [TypeError] too. *)
Definition __new__ (text : option string) (wildtype : option ascii)
    (pos : option Z) (variant : option ascii) : exc t :=
  match text with
  | Some text =>
      match re_match text with
      | None =>
          Raise (ValueError ("Mutation text expects wild type (optional), "
                             ++ "position, and one variant."))
      | Some (wt, digits, v, rest) =>
          match rest with
          | String _ _ => Raise (ValueError "Mutation text only allows one variant.")
          | EmptyString =>
              (p <- Py.int digits ;; Return (mk p v wt))%exc
          end
      end
  | None =>
      match pos, variant with
      | Some p, Some v => Return (mk p v wildtype)
      | _, _ => Raise TypeError
      end
  end.

(** [Mutation.__str__] *)
Definition __str__ (self : t) : string :=
  (match wildtype self with Some w => String w "" | None => "" end)
  ++ Py.str (pos self) ++ String (variant self) "".

(** [Mutation.__eq__] *)
Definition __eq__ (self other : t) : exc bool :=
  if negb (pos self =? pos other) then Return false
  else
    match wildtype self, wildtype other with
    | Some w1, Some w2 =>
        if negb (Ascii.eqb w1 w2)
        then Raise (ValueError ("Wild type mismatch between " ++ __str__ self
                                ++ " and " ++ __str__ other ++ "."))
        else Return ((pos self =? pos other) && Ascii.eqb (variant self) (variant other))%bool
    | _, _ =>
        Return ((pos self =? pos other) && Ascii.eqb (variant self) (variant other))%bool
    end.

(** [Mutation.__ne__] *)
Definition __ne__ (self other : t) : exc bool :=
  (b <- __eq__ self other ;; Return (negb b))%exc.

(** [Mutation.__hash__] is [hash((self.pos, self.variant))]: two mutations
    have the same hash exactly when this key is the same (collisions of the
    interpreter's hash function are not modelled). *)
Definition __hash__ (self : t) : Z * ascii := (pos self, variant self).

Definition same_hash (m1 m2 : t) : bool :=
  ((pos m1 =? pos m2) && Ascii.eqb (variant m1) (variant m2))%bool.

End Mutation.

(** ** Sets of mutations *)

(** A Python [set] or [frozenset] of [Mutation] objects, as the list of its
    entries.  The table finds an entry by its hash and settles a hit with
    [Mutation.__eq__], called on the stored entry with the probing key as
    argument; that call raises on two different wild types.  The entries of
    a set have pairwise different hash keys. *)
Module MutSet.

Definition t : Type := list Mutation.t.

Definition find (s : t) (x : Mutation.t) : option Mutation.t :=
  List.find (fun e => Mutation.same_hash e x) s.

(** [x in s] *)
Definition contains (s : t) (x : Mutation.t) : exc bool :=
  match find s x with
  | None => Return false
  | Some e => Mutation.__eq__ e x
  end.

(** [s.add(x)] *)
Definition add (s : t) (x : Mutation.t) : exc t :=
  (b <- contains s x ;; Return (if b then s else (s ++ [x])%list))%exc.

(** [frozenset(iterable)]: the elements are added one after the other. *)
Fixpoint update (s : t) (l : list Mutation.t) : exc t :=
  match l with
  | [] => Return s
  | x :: l' => (s' <- add s x ;; update s' l')%exc
  end.

Definition frozenset (l : list Mutation.t) : exc t := update [] l.

(** The entries of [b] that are not in [a], each looked up in [a]. *)
Fixpoint news (a : t) (b : list Mutation.t) : exc (list Mutation.t) :=
  match b with
  | [] => Return []
  | x :: b' =>
      (c <- contains a x ;;
       r <- news a b' ;;
       Return (if c then r else x :: r))%exc
  end.

(** [a | b] and [a |= b] for two sets: the entries of [b] are added to a copy
    of [a].  The entries of [b] have pairwise different hash keys, so each is
    only ever compared with an entry of [a]. *)
Definition union (a b : t) : exc t :=
  (r <- news a b ;; Return (a ++ r)%list)%exc.

(** The entries of [other] that are in [so]. *)
Fixpoint keep (so : t) (other : list Mutation.t) : exc (list Mutation.t) :=
  match other with
  | [] => Return []
  | x :: o' =>
      (c <- contains so x ;;
       r <- keep so o' ;;
       Return (if c then x :: r else r))%exc
  end.

(** [a & b] for two sets: the interpreter walks the smaller set (the right
    one when the sizes are equal) and keeps its entries found in the other. *)
Definition inter (a b : t) : exc t :=
  if Nat.ltb (List.length a) (List.length b) then keep b a else keep a b.

(** [a <= b], after the sizes are compared. *)
Fixpoint issubset (a : list Mutation.t) (b : t) : exc bool :=
  match a with
  | [] => Return true
  | x :: a' =>
      (c <- contains b x ;;
       if c then issubset a' b else Return false)%exc
  end.

(** [a == b] for two sets: equal sizes, and every entry of [a] in [b].
    (The interpreter answers [False] before that when both sets have their
    hash cached and the hashes differ; that only matters when a comparison
    of mutations would raise.) *)
Definition eq (a b : t) : exc bool :=
  if negb (Nat.eqb (List.length a) (List.length b)) then Return false
  else issubset a b.

(** Two sets have the same hash when their entries have the same hash
    keys. *)
Definition same_hash (a b : t) : bool :=
  (Nat.eqb (List.length a) (List.length b)
   && forallb (fun x => existsb (Mutation.same_hash x) b) a)%bool.

End MutSet.

(** ** [class MutationSet] *)

Module MutationSet.

(** [namedtuple('MutationSet', 'pos mutations wildtype')] *)
Record t : Type := mk {
  pos : Z;
  mutations : MutSet.t;
  wildtype : option ascii
}.

(** [re.match(r"([A-Z]?)(\d+)(!)?([idA-Z]+)$", text)]: the four groups. *)
Definition re_match (text : string)
  : option (option ascii * string * bool * string) :=
  let (wt, s1) := Py.optional Py.is_upper text in
  let (digits, s2) := Py.span Py.is_digit s1 in
  let (bang, s3) := Py.optional (Ascii.eqb "!") s2 in
  let (variants, s4) := Py.span Py.is_call s3 in
  match digits, variants with
  | String _ _, String _ _ =>
      if Py.at_end s4
      then Some (wt, digits, match bang with Some _ => true | None => false end,
                 variants)
      else None
  | _, _ => None
  end.

(** [(c for c in AMINO_ALPHABET if c not in original_variants)] *)
Definition complement (original_variants : string) : string :=
  Py.filter (fun c => negb (Py.contains original_variants c)) AMINO_ALPHABET.

(** The set of the positions, and of the wild types that are not [None]. *)
Definition positions (muts : MutSet.t) (pos : option Z) : list Z :=
  nodup Z.eq_dec (map Mutation.pos muts
                  ++ match pos with Some p => [p] | None => [] end)%list.

Definition wildtypes (muts : MutSet.t) (wildtype : option ascii) : list ascii :=
  nodup ascii_dec
    (flat_map (fun w => match w with Some c => [c] | None => [] end)
       (map Mutation.wildtype muts ++ [wildtype])%list).

(** The branch [if variants:] of [MutationSet.__new__]: the mutations are
    made from the variants, or from the rest of the alphabet when the text
    has the exclamation mark. *)
Definition from_variants (wildtype : option ascii) (pos : option Z)
    (negative : bool) (variants : string) : exc t :=
  let variants := if negative then complement variants else variants in
  match pos with
  | None => Raise TypeError
  | Some p =>
      (muts <- MutSet.frozenset
                 (map (fun v => Mutation.mk p v wildtype)
                    (list_ascii_of_string variants)) ;;
       Return (mk p muts wildtype))%exc
  end.

(** The branch [else:] of [MutationSet.__new__]: the mutations are given,
    and must agree on one position and on at most one wild type. *)
Definition from_mutations (wildtype : option ascii) (pos : option Z)
    (mutations : option (list Mutation.t)) : exc t :=
  (muts <- MutSet.frozenset match mutations with Some l => l | None => [] end ;;
   let ps := positions muts pos in
   let ws := wildtypes muts wildtype in
   if Nat.ltb 1 (List.length ps)
   then Raise (ValueError ("Multiple positions found: "
                           ++ Py.join ", " (map Py.str (Py.sorted Z.leb ps))
                           ++ "."))
   else
     match ws, muts with
     | [], [] => Raise (ValueError "No wildtype and no variants.")
     | _, _ =>
         match ps with
         | [] => Raise (ValueError "No position and no variants.")
         | p :: _ =>
             if Nat.ltb 1 (List.length ws)
             then Raise (ValueError
                           ("Multiple wildtypes found: "
                            ++ Py.join ", "
                                 (map (fun c => String c "")
                                    (Py.sorted Ascii.leb ws))
                            ++ "."))
             else Return (mk p muts (match ws with
                                     | w :: _ => Some w
                                     | [] => wildtype
                                     end))
         end
     end)%exc.

(** [MutationSet.__new__(cls, text=None, wildtype=None, pos=None,
    variants=None, mutations=None, reference=None)] *)
Definition __new__ (text : option string) (wildtype : option ascii)
    (pos : option Z) (variants : option string)
    (mutations : option (list Mutation.t)) (reference : option string)
  : exc t :=
  (* if text: ... wildtype, pos, negative, variants = match.groups() *)
  (parsed <-
     match text with
     | Some (String _ _ as text) =>
         match re_match text with
         | None =>
             Raise (ValueError ("MutationSet text expects wild type (optional), "
                                ++ "position, and one or more variants."))
         | Some (wt, digits, negative, vs) =>
             p <- Py.int digits ;;
             wt' <- match reference with
                    | Some (String _ _ as ref) =>
                        c <- Py.index (list_ascii_of_string ref) (p - 1) ;;
                        Return (Some c)
                    | _ => Return wt
                    end ;;
             Return (wt', Some p, negative, Some vs)
         end
     | _ => Return (wildtype, pos, false, variants)
     end ;;
   let '(wildtype, pos, negative, variants) := parsed in
   match variants with
   | Some (String _ _ as variants) => from_variants wildtype pos negative variants
   | _ => from_mutations wildtype pos mutations
   end)%exc.

(** [MutationSet.__len__] and [MutationSet.__contains__] *)
Definition __len__ (self : t) : nat := List.length (mutations self).

Definition __contains__ (self : t) (call : Mutation.t) : exc bool :=
  MutSet.contains (mutations self) call.

(** [MutationSet.__str__] *)
Definition __str__ (self : t) : string :=
  let text := match wildtype self with Some w => String w "" | None => "" end in
  let text := text ++ Py.str (pos self) in
  let mutations :=
    string_of_list_ascii
      (Py.sorted Ascii.leb (map Mutation.variant (mutations self))) in
  if Nat.ltb 10 (String.length mutations)
  then text ++ "!"
       ++ Py.filter (fun c => negb (Py.contains mutations c)) AMINO_ALPHABET
  else text ++ mutations.

(** [MutationSet.__eq__] *)
Definition __eq__ (self other : t) : exc bool :=
  if negb (pos self =? pos other) then Return false
  else
    match wildtype self, wildtype other with
    | Some w1, Some w2 =>
        if negb (Ascii.eqb w1 w2)
        then Raise (ValueError ("Wild type mismatch between " ++ __str__ self
                                ++ " and " ++ __str__ other ++ "."))
        else MutSet.eq (mutations self) (mutations other)
    | _, _ => MutSet.eq (mutations self) (mutations other)
    end.

Definition __ne__ (self other : t) : exc bool :=
  (b <- __eq__ self other ;; Return (negb b))%exc.

(** [MutationSet.__hash__] is [hash((self.pos, self.mutations))]. *)
Definition same_hash (s1 s2 : t) : bool :=
  ((pos s1 =? pos s2) && MutSet.same_hash (mutations s1) (mutations s2))%bool.

End MutationSet.

(** ** [class VariantCalls] *)

Module VariantCalls.

(** [namedtuple('VariantCalls', 'mutation_sets reference')]; the sets are
    the entries of a [frozenset] (text) or of a [set] (reference and
    sample). *)
Record t : Type := mk {
  mutation_sets : list MutationSet.t;
  reference : option string
}.

(** Adding one [MutationSet] to a set of them: an entry with the same hash
    is compared with [MutationSet.__eq__]. *)
Definition add (s : list MutationSet.t) (x : MutationSet.t)
  : exc (list MutationSet.t) :=
  match List.find (fun e => MutationSet.same_hash e x) s with
  | None => Return (s ++ [x])%list
  | Some e =>
      (b <- MutationSet.__eq__ e x ;; Return (if b then s else (s ++ [x])%list))%exc
  end.

(** A set built from a generator of constructor calls: each call is made,
    and its result added, before the next one. *)
Fixpoint collect (s : list MutationSet.t) (calls : list (exc MutationSet.t))
  : exc (list MutationSet.t) :=
  match calls with
  | [] => Return s
  | c :: calls' => (x <- c ;; s' <- add s x ;; collect s' calls')%exc
  end.

(** [enumerate(zip(sample, reference), 1)] *)
Fixpoint enumerate_zip (i : Z) (sample : list string) (reference : list ascii)
  : list (Z * (string * ascii)) :=
  match sample, reference with
  | alt :: sample', ref :: reference' =>
      (i, (alt, ref)) :: enumerate_zip (i + 1) sample' reference'
  | _, _ => []
  end.

(** The loop that refuses two mutation sets at one position. *)
Fixpoint check_positions (seen : list Z) (l : list MutationSet.t) : exc unit :=
  match l with
  | [] => Return tt
  | ms :: l' =>
      if existsb (Z.eqb (MutationSet.pos ms)) seen
      then Raise (ValueError ("Multiple mutation sets at position "
                              ++ Py.str (MutationSet.pos ms) ++ "."))
      else check_positions (MutationSet.pos ms :: seen) l'
  end.

(** [VariantCalls.__new__(cls, text=None, reference=None, sample=None)].
    A sample is the list of the calls at each position, each a string of
    variants (one character each when the sample is itself a string). *)
Definition __new__ (text : option string) (reference : option string)
    (sample : option (list string)) : exc t :=
  (mutation_sets <-
     match text with
     | Some text =>
         collect []
           (map (fun term => MutationSet.__new__ (Some term) None None None
                               None reference)
              (Py.split text))
     | None =>
         match reference, sample with
         | Some ref, Some sample =>
             if negb (Nat.eqb (String.length ref) (List.length sample))
             then Raise (ValueError
                           ("Reference length was "
                            ++ Py.str (Z.of_nat (String.length ref))
                            ++ " and sample length was "
                            ++ Py.str (Z.of_nat (List.length sample)) ++ "."))
             else
               collect []
                 (flat_map
                    (fun '(i, (alt, ref)) =>
                       match alt with
                       | EmptyString => []
                       | _ => [MutationSet.__new__ None (Some ref) (Some i)
                                 (Some alt) None None]
                       end)
                    (enumerate_zip 1 sample (list_ascii_of_string ref)))
         | _, _ => Raise TypeError
         end
     end ;;
   _ <- check_positions [] mutation_sets ;;
   Return (mk mutation_sets reference))%exc.

(** A sample given as one string: one call per character. *)
Definition sample_of_str (s : string) : list string :=
  map (fun c => String c "") (list_ascii_of_string s).

(** [VariantCalls.__iter__], [__len__] *)
Definition __iter__ (self : t) : list MutationSet.t := mutation_sets self.
Definition __len__ (self : t) : nat := List.length (mutation_sets self).

End VariantCalls.

(** ** The heap of the evaluator *)

(** [Score.flags] is a dictionary from labels to lists; [update_flags] and
    [Score.__add__] pass these objects around by reference and change them
    in place, so they are kept in a heap: an object is named by its address,
    the index at which it was allocated. *)
Module Heap.

Definition addr : Type := nat.

(** An element of a flag list: a supporting mutation, or (after
    [fst[k].append(snd[k])]) another list. *)
Inductive item : Type :=
| IMut (m : Mutation.t)
| IRef (a : addr).

(** A dictionary keeps its keys in insertion order. *)
Inductive pyobj : Type :=
| PyList (elems : list item)
| PyDict (items : list (string * addr)).

Definition heap : Type := list pyobj.

(** Computations that read and write the heap and may raise. *)
Definition M (A : Type) : Type := heap -> exc A * heap.

Definition ret {A : Type} (a : A) : M A := fun h => (Return a, h).

Definition raise {A : Type} (e : exn) : M A := fun h => (Raise e, h).

Definition bind {A B : Type} (m : M A) (k : A -> M B) : M B :=
  fun h => match m h with
           | (Return a, h') => k a h'
           | (Raise e, h') => (Raise e, h')
           end.

Definition lift {A : Type} (m : exc A) : M A := fun h => (m, h).

Definition alloc (o : pyobj) : M addr :=
  fun h => (Return (List.length h), (h ++ [o])%list).

Fixpoint set_nth (h : heap) (a : addr) (o : pyobj) : heap :=
  match h, a with
  | [], _ => []
  | _ :: h', O => o :: h'
  | x :: h', S a' => x :: set_nth h' a' o
  end.

Definition store (a : addr) (o : pyobj) : M unit :=
  fun h => (Return tt, set_nth h a o).

(** Reading through a reference; an object of the other kind has no such
    items. *)
Definition load_dict (a : addr) : M (list (string * addr)) :=
  fun h => match nth_error h a with
           | Some (PyDict kv) => (Return kv, h)
           | _ => (Raise TypeError, h)
           end.

Definition load_list (a : addr) : M (list item) :=
  fun h => match nth_error h a with
           | Some (PyList xs) => (Return xs, h)
           | _ => (Raise AttributeError, h)
           end.

(** [d[k]], [k in d] and [d[k] = v] on the items of a dictionary. *)
Fixpoint dict_get (kv : list (string * addr)) (k : string) : option addr :=
  match kv with
  | [] => None
  | (k', v) :: kv' => if String.eqb k' k then Some v else dict_get kv' k
  end.

Fixpoint dict_set (kv : list (string * addr)) (k : string) (v : addr)
  : list (string * addr) :=
  match kv with
  | [] => [(k, v)]
  | (k', v') :: kv' =>
      if String.eqb k' k then (k', v) :: kv' else (k', v') :: dict_set kv' k v
  end.

(** [for x in l: body(x)] *)
Fixpoint for_each {A : Type} (l : list A) (body : A -> M unit) : M unit :=
  match l with
  | [] => ret tt
  | x :: l' => bind (body x) (fun _ => for_each l' body)
  end.

(** [[f(x) for x in l]] *)
Fixpoint map_M {A B : Type} (f : A -> M B) (l : list A) : M (list B) :=
  match l with
  | [] => ret []
  | x :: l' => bind (f x) (fun y => bind (map_M f l') (fun ys => ret (y :: ys)))
  end.

End Heap.

Import Heap.

Declare Scope heap_scope.
Delimit Scope heap_scope with heap.
Notation "x <- m ;; k" := (Heap.bind m (fun x => k))
  (at level 61, m at next level, right associativity) : heap_scope.
Notation "m ;; k" := (Heap.bind m (fun _ => k))
  (at level 61, right associativity) : heap_scope.

(** ** hcvr2.py *)

(** [update_flags(fst, snd)]: the keys of [snd] in order; [fst] is changed in
    place and returned. *)
Definition update_flags (fst snd : addr) : M addr :=
  (items <- load_dict snd ;;
   for_each (map (@Datatypes.fst string addr) items)
     (fun k =>
        d1 <- load_dict fst ;;
        match dict_get d1 k with
        | Some l =>
            (* fst[k].append(snd[k]) *)
            d2 <- load_dict snd ;;
            match dict_get d2 k with
            | Some v =>
                xs <- load_list l ;;
                store l (PyList (xs ++ [IRef v]))
            | None => raise TypeError
            end
        | None =>
            (* fst[k] = snd[k] *)
            d2 <- load_dict snd ;;
            match dict_get d2 k with
            | Some v => store fst (PyDict (dict_set d1 k v))
            | None => raise TypeError
            end
        end) ;;
   ret fst)%heap.

(** The value of a score: a [bool] or an [int]. *)
Inductive value : Type :=
| VBool (b : bool)
| VInt (z : Z).

Module Value.

(** A [bool] counts as 0 or 1 in arithmetic and comparisons. *)
Definition num (v : value) : Z :=
  match v with
  | VBool true => 1
  | VBool false => 0
  | VInt z => z
  end.

(** [bool(v)], the truth value used by [if v] and [not v]. *)
Definition truthy (v : value) : bool := negb (num v =? 0).

Definition add (a b : value) : value := VInt (num a + num b).
Definition sub (a b : value) : value := VInt (num a - num b).
Definition eqb (a b : value) : bool := num a =? num b.
Definition ltb (a b : value) : bool := num a <? num b.
Definition gtb (a b : value) : bool := num b <? num a.

(** [a or b] *)
Definition or (a b : value) : value := if truthy a then a else b.

(** [v is False] *)
Definition is_False (v : value) : bool :=
  match v with
  | VBool false => true
  | _ => false
  end.

(** [sum(l)], starting from the integer 0. *)
Definition sum (l : list value) : value :=
  fold_left add l (VInt 0).

(** [max(l)] and [min(l)]: the first of the largest (smallest) items; an
    empty list is a [ValueError]. *)
Definition max (l : list value) : exc value :=
  match l with
  | [] => Raise (ValueError "")
  | x :: l' => Return (fold_left (fun m y => if gtb y m then y else m) l' x)
  end.

Definition min (l : list value) : exc value :=
  match l with
  | [] => Raise (ValueError "")
  | x :: l' => Return (fold_left (fun m y => if ltb y m then y else m) l' x)
  end.

End Value.

(** [class Score] *)
Module Score.

Record t : Type := mk {
  score : value;
  residues : MutSet.t;
  flags : addr
}.

(** [Score.__init__(self, score, residues, flags=None)].  Every caller
    passes a set or the empty list as [residues], and [set(s)] of a set [s]
    copies its entries without comparing them. *)
Definition __init__ (score : value) (residues : MutSet.t)
    (flags : option addr) : M t :=
  match flags with
  | None => (a <- alloc (PyDict []) ;; ret (mk score residues a))%heap
  | Some a => ret (mk score residues a)
  end.

(** [Score.__add__] and [Score.__sub__] *)
Definition __add__ (self other : t) : M t :=
  (flags <- update_flags (flags self) (flags other) ;;
   r <- lift (MutSet.union (residues self) (residues other)) ;;
   __init__ (Value.add (score self) (score other)) r (Some flags))%heap.

Definition __sub__ (self other : t) : M t :=
  (flags <- update_flags (flags self) (flags other) ;;
   r <- lift (MutSet.union (residues self) (residues other)) ;;
   __init__ (Value.sub (score self) (score other)) r (Some flags))%heap.

(** [Score.__eq__] and [Score.__lt__] *)
Definition __eq__ (self other : t) : bool :=
  Value.eqb (score self) (score other).

Definition __lt__ (self other : t) : bool :=
  Value.ltb (score self) (score other).

(** The comparisons that [functools.total_ordering] derives from [__lt__]
    and [__eq__], and the default [__ne__]. *)
Definition __ne__ (self other : t) : bool := negb (__eq__ self other).

Definition __gt__ (self other : t) : bool :=
  (negb (__lt__ self other) && __ne__ self other)%bool.

Definition __le__ (self other : t) : bool :=
  (__lt__ self other || __eq__ self other)%bool.

Definition __ge__ (self other : t) : bool := negb (__lt__ self other).

(** [Score.__bool__] returns [self.score]; the interpreter refuses a value
    that is not a [bool]. *)
Definition __bool__ (self : t) : exc bool :=
  match score self with
  | VBool b => Return b
  | VInt _ => Raise TypeError
  end.

(** [max(l)] and [min(l)] on [Score] objects, by [__gt__] and [__lt__]. *)
Definition max (l : list t) : exc t :=
  match l with
  | [] => Raise (ValueError "")
  | x :: l' => Return (fold_left (fun m y => if __gt__ y m then y else m) l' x)
  end.

Definition min (l : list t) : exc t :=
  match l with
  | [] => Raise (ValueError "")
  | x :: l' => Return (fold_left (fun m y => if __lt__ y m then y else m) l' x)
  end.

End Score.

(** The environment of an evaluation, as the nodes iterate over it: the
    mutation sets of a [VariantCalls]. *)
Definition env : Type := list MutationSet.t.

(** A node of the tree is an object that is called on the environment and
    returns a [Score] or [None].  The base class [AsiExpr] of pyvdrm/drm.py
    is not among the sources; the [children] that it stores are the argument
    of each [__call__] below. *)
Definition callable : Type := env -> M (option Score.t).

(** A child of a node: a token of the rule, or a node. *)
Inductive tok : Type :=
| TStr (s : string)
| TCall (f : callable).

(** Calling a child; a string is not callable. *)
Definition call (c : tok) (mutations : env) : M (option Score.t) :=
  match c with
  | TCall f => f mutations
  | TStr _ => raise TypeError
  end.

(** [class BoolTrue], [class BoolFalse] *)
Definition BoolTrue : callable :=
  fun _ => (s <- Score.__init__ (VBool true) [] None ;; ret (Some s))%heap.

Definition BoolFalse : callable :=
  fun _ => (s <- Score.__init__ (VBool false) [] None ;; ret (Some s))%heap.

(** [class AndExpr] *)
Module AndExpr.

(** [[Score(False, []) if s is None else s for s in scores]], where [scores]
    maps the call over the children. *)
Definition scores (children0 : list callable) (mutations : env)
  : M (list Score.t) :=
  map_M (fun f : callable =>
           s <- f mutations ;;
           match s with
           | None => Score.__init__ (VBool false) [] None
           | Some s => ret s
           end)%heap
    children0.

(** The loop over the scores, from the residues gathered so far. *)
Fixpoint loop (residues : MutSet.t) (scores : list Score.t) : M Score.t :=
  match scores with
  | [] => Score.__init__ (VBool true) residues None
  | s :: scores' =>
      (residues <- lift (MutSet.union residues (Score.residues s)) ;;
       if negb (Value.truthy (Score.score s))
       then Score.__init__ (VBool false) [] None
       else loop residues scores')%heap
  end.

(** [AndExpr.__call__]; the children are [self.children[0]]. *)
Definition __call__ (children0 : list callable) : callable :=
  fun mutations =>
    (scores <- scores children0 mutations ;;
     match scores with
     | [] => raise (ValueError "")
     | _ => s <- loop [] scores ;; ret (Some s)
     end)%heap.

End AndExpr.

(** [class OrExpr] *)
Module OrExpr.

Definition __call__ (arg1 arg2 : callable) : callable :=
  fun mutations =>
    (score1 <- arg1 mutations ;;
     score2 <- arg2 mutations ;;
     score1 <- match score1 with
               | None => Score.__init__ (VBool false) [] None
               | Some s => ret s
               end ;;
     score2 <- match score2 with
               | None => Score.__init__ (VBool false) [] None
               | Some s => ret s
               end ;;
     r <- lift (MutSet.union (Score.residues score1) (Score.residues score2)) ;;
     s <- Score.__init__ (Value.or (Score.score score1) (Score.score score2))
            r None ;;
     ret (Some s))%heap.

End OrExpr.

(** [class EqualityExpr] *)
Module EqualityExpr.

Record t : Type := mk {
  operation : string;
  limit : Z
}.

(** [EqualityExpr.__init__]: [self.operation, limit = children]. *)
Definition __init__ (children : list string) : exc t :=
  match children with
  | [operation; limit] => (n <- Py.int limit ;; Return (mk operation n))%exc
  | _ => Raise (ValueError "")
  end.

(** [EqualityExpr.__call__] *)
Definition __call__ (self : t) (x : Z) : exc bool :=
  if String.eqb (operation self) "ATLEAST" then Return (limit self <=? x)
  else if String.eqb (operation self) "EXACTLY" then Return (x =? limit self)
  else if String.eqb (operation self) "NOMORETHAN" then Return (x <=? limit self)
  else Raise NotImplementedError.

End EqualityExpr.

(** [class ScoreExpr] *)
Module ScoreExpr.

Definition __call__ (children : list tok) : callable :=
  fun mutations =>
    (flags <- alloc (PyDict []) ;;
     parsed <-
       match children with
       | [operation; _; flag; _] =>
           match flag with
           | TStr flag =>
               l <- alloc (PyList []) ;;
               store flags (PyDict [(flag, l)]) ;;
               ret (operation, VInt 0)
           | TCall _ => raise TypeError
           end
       | [operation; minus; score] =>
           match minus with
           | TStr "-" =>
               match score with
               | TStr score =>
                   z <- lift (Py.int score) ;; ret (operation, VInt (-1 * z))
               | TCall _ => raise TypeError
               end
           | _ => raise (ValueError "")
           end
       | [operation; score] =>
           match score with
           | TStr score => z <- lift (Py.int score) ;; ret (operation, VInt z)
           | TCall _ => raise TypeError
           end
       | _ => raise (ValueError "")
       end ;;
     let '(operation, score) := parsed in
     result <- call operation mutations ;;
     match result with
     | None => ret None
     | Some result =>
         if Value.is_False (Score.score result)
         then s <- Score.__init__ (VInt 0) [] None ;; ret (Some s)
         else s <- Score.__init__ score (Score.residues result) (Some flags) ;;
              ret (Some s)
     end)%heap.

End ScoreExpr.

(** [class ScoreList] *)
Module ScoreList.

(** The aggregate chosen by the first child. *)
Inductive func : Type := Max | Min | Sum.

Definition select (children : list tok) : exc (func * list tok) :=
  match children with
  | [] => Raise (ValueError "")
  | TStr "MAX" :: rest => Return (Max, rest)
  | TStr "MIN" :: rest => Return (Min, rest)
  | _ => Return (Sum, children)
  end.

Definition apply (f : func) (matched_scores : list value) : exc value :=
  match f with
  | Max => Value.max matched_scores
  | Min => Value.min matched_scores
  | Sum => Return (Value.sum matched_scores)
  end.

(** [reduce(lambda x, y: x | y, sets)] *)
Definition reduce_union (sets : list MutSet.t) : exc MutSet.t :=
  match sets with
  | [] => Raise TypeError
  | x :: sets' =>
      fold_left (fun acc y => (a <- acc ;; MutSet.union a y)%exc) sets' (Return x)
  end.

(** [score.score] and the like on the result of a child. *)
Definition attr {A : Type} (f : Score.t -> A) (s : option Score.t) : exc A :=
  match s with
  | Some s => Return (f s)
  | None => Raise AttributeError
  end.

Fixpoint attrs {A : Type} (f : Score.t -> A) (l : list (option Score.t))
  : exc (list A) :=
  match l with
  | [] => Return []
  | s :: l' => (x <- attr f s ;; xs <- attrs f l' ;; Return (x :: xs))%exc
  end.

(** [flags.update(other)] on the items of two dictionaries. *)
Definition dict_update (kv other : list (string * addr))
  : list (string * addr) :=
  fold_left (fun d '(k, v) => dict_set d k v) other kv.

(** [ScoreList.__call__] *)
Definition __call__ (children : list tok) : callable :=
  fun mutations =>
    (selected <- lift (select children) ;;
     let '(f, terms) := selected in
     scores <- map_M (fun c => call c mutations) terms ;;
     all_scores <- lift (attrs Score.score scores) ;;
     let matched_scores := List.filter Value.truthy all_scores in
     sets <- lift (attrs Score.residues scores) ;;
     residues <- lift (reduce_union sets) ;;
     flags <- alloc (PyDict []) ;;
     dicts <- lift (attrs Score.flags scores) ;;
     for_each dicts
       (fun a =>
          other <- load_dict a ;;
          d <- load_dict flags ;;
          store flags (PyDict (dict_update d other))) ;;
     v <- match matched_scores with
          | [] => ret (VBool false)
          | _ => lift (apply f matched_scores)
          end ;;
     s <- Score.__init__ v residues (Some flags) ;;
     ret (Some s))%heap.

End ScoreList.

(** [class AsiScoreCond] *)
Module AsiScoreCond.

(** [sum(items, start)]: each child is called when the sum reaches it. *)
Fixpoint sum (children : list callable) (args : env) (acc : Score.t)
  : M Score.t :=
  match children with
  | [] => ret acc
  | f :: children' =>
      (item <- f args ;;
       match item with
       | None => raise AttributeError
       | Some item => acc' <- Score.__add__ acc item ;; sum children' args acc'
       end)%heap
  end.

Definition __call__ (children : list callable) : callable :=
  fun args =>
    (start <- Score.__init__ (VBool false) [] None ;;
     s <- sum children args start ;;
     ret (Some s))%heap.

End AsiScoreCond.

(** [class AsiMutations] *)
Module AsiMutations.

(** [AsiMutations.__init__]: [self.mutations = MutationSet(''.join(args))] *)
Definition __init__ (args : list string) : exc MutationSet.t :=
  MutationSet.__new__ (Some (Py.join "" args)) None None None None None.

(** The loop of [__call__] over the environment, with [is_found] so far:
    the intersection when one is not empty, else the final [is_found]. *)
Fixpoint scan (self : MutationSet.t) (is_found : bool) (env : env)
  : exc (MutSet.t + bool) :=
  match env with
  | [] => Return (inr is_found)
  | mutation_set :: env' =>
      let is_found :=
        (is_found || (MutationSet.pos mutation_set =? MutationSet.pos self))%bool in
      (intersection <- MutSet.inter (MutationSet.mutations self)
                         (MutationSet.mutations mutation_set) ;;
       match intersection with
       | _ :: _ => Return (inl intersection)
       | [] => scan self is_found env'
       end)%exc
  end.

(** [AsiMutations.__call__] *)
Definition __call__ (self : MutationSet.t) : callable :=
  fun env =>
    (found <- lift (scan self false env) ;;
     match found with
     | inl intersection =>
         s <- Score.__init__ (VBool true) intersection None ;; ret (Some s)
     | inr false =>
         raise (MissingPositionError
                  ("Missing position " ++ Py.str (MutationSet.pos self) ++ "."))
     | inr true =>
         s <- Score.__init__ (VBool false) [] None ;; ret (Some s)
     end)%heap.

End AsiMutations.

(** [class SelectFrom] of hcvr2.py *)
Module SelectFrom.

(** [sum(bool(score.score) for score in scored)] *)
Definition passing (scores : list value) : Z :=
  fold_left (fun n v => n + (if Value.truthy v then 1 else 0)) scores 0.

(** [SelectFrom.__call__].  [self.children] is the quantifier, an object
    called on the count, followed by the residues. *)
Definition __call__ (operation : Z -> exc bool) (rest : list callable)
  : callable :=
  fun mutations =>
    (scored <- map_M (fun f : callable => f mutations) rest ;;
     scores <- lift (ScoreList.attrs Score.score scored) ;;
     b <- lift (operation (passing scores)) ;;
     sets <- lift (ScoreList.attrs Score.residues scored) ;;
     residues <- lift (ScoreList.reduce_union sets) ;;
     s <- Score.__init__ (VBool b) residues None ;;
     ret (Some s))%heap.

End SelectFrom.

(** ** Vocabulary of the statements *)

(** Two mutations agree on the wild type unless both give one and the two
    differ: then [Mutation.__eq__] raises on them. *)
Definition agree (m1 m2 : Mutation.t) : bool :=
  match Mutation.wildtype m1, Mutation.wildtype m2 with
  | Some a, Some b => Ascii.eqb a b
  | _, _ => true
  end.

(** Membership of a set up to [Mutation.__eq__]: an entry has the position
    and the variant of [x]. *)
Definition key_in (s : MutSet.t) (x : Mutation.t) : bool :=
  existsb (fun e => Mutation.same_hash e x) s.

(** No entry of [s] and entry of [t] with the same position and variant give
    two different wild types. *)
Definition consistent (s t : list Mutation.t) : Prop :=
  forall e x, In e s -> In x t ->
              Mutation.same_hash e x = true -> agree e x = true.

(** The invariant of the mutation sets that [MutationSet.__new__] builds:
    the mutations are at the position of the set, give its wild type or
    none, and have pairwise different variants. *)
Record MutationSet_wf (s : MutationSet.t) : Prop := {
  wf_pos : forall m, In m (MutationSet.mutations s) ->
                     Mutation.pos m = MutationSet.pos s;
  wf_wildtype : forall m, In m (MutationSet.mutations s) ->
                          Mutation.wildtype m = None
                          \/ Mutation.wildtype m = MutationSet.wildtype s;
  wf_nodup : NoDup (map Mutation.variant (MutationSet.mutations s))
}.

(** What [frozenset(l)] holds when no comparison raises: the elements of
    [l] whose position and variant were not met before, after those of [s]. *)
Definition add_all (s : MutSet.t) (l : list Mutation.t) : MutSet.t :=
  fold_left (fun s x => if key_in s x then s else (s ++ [x])%list) l s.

(** The mutation set of the call [alt] at position [i] of a sample, where
    the reference has [ref], and the sets of a whole sample from position
    [i] on. *)
Definition call_set (i : Z) (alt : string) (ref : ascii) : MutationSet.t :=
  MutationSet.mk i
    (add_all [] (map (fun v => Mutation.mk i v (Some ref))
                   (list_ascii_of_string alt)))
    (Some ref).

Fixpoint call_sets (i : Z) (sample : list string) (reference : list ascii)
  : list MutationSet.t :=
  match sample, reference with
  | alt :: sample', ref :: reference' =>
      (match alt with
       | EmptyString => []
       | _ => [call_set i alt ref]
       end ++ call_sets (i + 1) sample' reference')%list
  | _, _ => []
  end.

(** The union that the loop of [AndExpr] and the [reduce] of [ScoreList]
    compute when no comparison raises: the residues so far, then the
    residues of each score that are new by position and variant. *)
Definition union_all (acc : MutSet.t) (scores : list Score.t) : MutSet.t :=
  fold_left
    (fun a s => (a ++ List.filter (fun x => negb (key_in a x)) (Score.residues s))%list)
    scores acc.

(** The residues of any two different scores of the list are consistent. *)
Definition residues_consistent (scores : list Score.t) : Prop :=
  ForallOrdPairs
    (fun s1 s2 => consistent (Score.residues s1) (Score.residues s2)) scores.

(** The invariant as a check on a given mutation set. *)
Fixpoint all_different (l : list ascii) : bool :=
  match l with
  | [] => true
  | c :: l' => (negb (existsb (Ascii.eqb c) l') && all_different l')%bool
  end.

Definition MutationSet_check (s : MutationSet.t) : bool :=
  (forallb (fun m => Mutation.pos m =? MutationSet.pos s) (MutationSet.mutations s)
   && forallb (fun m => match Mutation.wildtype m, MutationSet.wildtype s with
                        | None, _ => true
                        | Some a, Some b => Ascii.eqb a b
                        | Some _, None => false
                        end) (MutationSet.mutations s)
   && all_different (map Mutation.variant (MutationSet.mutations s)))%bool.

(** The value and the residues that stand for a child's result in
    [OrExpr]: those of [Score(False, [])] for [None]. *)
Definition score_or_False (r : option Score.t) : value :=
  match r with
  | Some s => Score.score s
  | None => VBool false
  end.

Definition residues_or_empty (r : option Score.t) : MutSet.t :=
  match r with
  | Some s => Score.residues s
  | None => []
  end.

(** The tests of the repository build a rule and call it on the calls
    given as a text: the nodes of the rule from their tokens, the
    environment from the text, and the value of the score that comes out. *)
Definition residue (args : list string) : exc tok :=
  (self <- AsiMutations.__init__ args ;;
   Return (TCall (AsiMutations.__call__ self)))%exc.

Fixpoint residues (l : list (list string)) : exc (list tok) :=
  match l with
  | [] => Return []
  | args :: l' => (r <- residue args ;; rs <- residues l' ;; Return (r :: rs))%exc
  end.

Definition run (rule : callable) (calls : string) : exc (option value) :=
  (vc <- VariantCalls.__new__ (Some calls) None None ;;
   match rule (VariantCalls.__iter__ vc) [] with
   | (Return s, _) => Return (option_map Score.score s)
   | (Raise e, _) => Raise e
   end)%exc.

(** * Properties *)

Local Open Scope list_scope.

Lemma Mutation_text_example :
  Mutation.__new__ (Some "A23R") None None None
  = Return (Mutation.mk 23 "R" (Some "A"%char)).
Proof. reflexivity. Qed.

Lemma MutationSet_text_example :
  MutationSet.__new__ (Some "Q80KR") None None None None None
  = Return (MutationSet.mk 80 [Mutation.mk 80 "K" (Some "Q"%char);
                               Mutation.mk 80 "R" (Some "Q"%char)]
              (Some "Q"%char)).
Proof. reflexivity. Qed.

Lemma VariantCalls_diff_example :
  exists l, VariantCalls.__new__ None (Some "AC") (Some ["A"; "DE"])
  = Return (VariantCalls.mk l (Some "AC")) /\ List.length l = 2%nat.
Proof. eexists. split; reflexivity. Qed.

(** ** [Mutation.__eq__] *)

Lemma ascii_eqb_false_iff (a b : ascii) : Ascii.eqb a b = false <-> a <> b.
Proof.
  destruct (Ascii.eqb_spec a b) as [E | E]; split; intro H;
    congruence || (exfalso; auto).
Qed.

(** C9.  For two mutations at the same position: when both give a wild type
    and the wild types differ, the comparison raises the wild-type mismatch
    [ValueError]; in every other case it returns a boolean, which is true
    exactly when the positions and the variants are the same, also when only
    one side gives a wild type. *)
Theorem Mutation_eq_same_position (m1 m2 : Mutation.t) :
  Mutation.pos m1 = Mutation.pos m2 ->
  (forall w1 w2,
      Mutation.wildtype m1 = Some w1 -> Mutation.wildtype m2 = Some w2 ->
      w1 <> w2 ->
      Mutation.__eq__ m1 m2
      = Raise (ValueError ("Wild type mismatch between " ++ Mutation.__str__ m1
                           ++ " and " ++ Mutation.__str__ m2 ++ ".")%string))
  /\ (Mutation.wildtype m1 = None \/ Mutation.wildtype m2 = None
      \/ Mutation.wildtype m1 = Mutation.wildtype m2 ->
      exists b, Mutation.__eq__ m1 m2 = Return b
                /\ (b = true <-> Mutation.pos m1 = Mutation.pos m2
                                 /\ Mutation.variant m1 = Mutation.variant m2)).
Proof.
  intros Hpos. unfold Mutation.__eq__.
  rewrite Hpos, Z.eqb_refl. cbn [negb andb].
  split.
  - intros w1 w2 H1 H2 Hne. rewrite H1, H2.
    apply ascii_eqb_false_iff in Hne. now rewrite Hne.
  - intros Hw.
    assert (Hv : Ascii.eqb (Mutation.variant m1) (Mutation.variant m2) = true
                 <-> Mutation.pos m2 = Mutation.pos m2
                     /\ Mutation.variant m1 = Mutation.variant m2).
    { rewrite Ascii.eqb_eq. tauto. }
    destruct (Mutation.wildtype m1) as [w1 |] eqn:E1,
             (Mutation.wildtype m2) as [w2 |] eqn:E2;
      try (eexists; split; [reflexivity | exact Hv]).
    destruct Hw as [Hw | [Hw | Hw]]; try discriminate.
    injection Hw as ->. rewrite Ascii.eqb_refl. cbn [negb].
    eexists; split; [reflexivity | exact Hv].
Qed.

Lemma Mutation_eq_same_position_witness :
  Mutation.__eq__ (Mutation.mk 41 "L" (Some "M"%char))
                  (Mutation.mk 41 "L" (Some "K"%char))
  = Raise (ValueError "Wild type mismatch between M41L and K41L.")
  /\ exists b, Mutation.__eq__ (Mutation.mk 41 "L" (Some "M"%char))
                               (Mutation.mk 41 "L" None) = Return b
               /\ (b = true <-> 41 = 41 /\ "L"%char = "L"%char).
Proof.
  split.
  - apply (proj1 (Mutation_eq_same_position
                    (Mutation.mk 41 "L" (Some "M"%char))
                    (Mutation.mk 41 "L" (Some "K"%char)) eq_refl)
             "M"%char "K"%char eq_refl eq_refl).
    discriminate.
  - apply (proj2 (Mutation_eq_same_position
                    (Mutation.mk 41 "L" (Some "M"%char))
                    (Mutation.mk 41 "L" None) eq_refl)).
    right; left; reflexivity.
Defined.

(** Off the claim: at two different positions the comparison is false before
    the wild types are looked at. *)
Lemma Mutation_eq_other_position (m1 m2 : Mutation.t) :
  Mutation.pos m1 <> Mutation.pos m2 -> Mutation.__eq__ m1 m2 = Return false.
Proof.
  intros H. unfold Mutation.__eq__.
  apply Z.eqb_neq in H. now rewrite H.
Qed.

(** ** [EqualityExpr] *)

(** C1.  The grammar's keyword is [NOTMORETHAN], the branch of [__call__]
    tests for [NOMORETHAN]: the expression built from [NOTMORETHAN 2] raises
    [NotImplementedError] on every count, and so does every [NOTMORETHAN]
    expression. *)
Theorem EqualityExpr_NOTMORETHAN_raises :
  EqualityExpr.__init__ ["NOTMORETHAN"; "2"]
  = Return (EqualityExpr.mk "NOTMORETHAN" 2)
  /\ EqualityExpr.__call__ (EqualityExpr.mk "NOTMORETHAN" 2) 1
     = Raise NotImplementedError
  /\ forall n x : Z,
      EqualityExpr.__call__ (EqualityExpr.mk "NOTMORETHAN" n) x
      = Raise NotImplementedError.
Proof. repeat split. Qed.

(** The two other keywords are evaluated as the grammar names them. *)
Lemma EqualityExpr_ATLEAST (n x : Z) :
  EqualityExpr.__call__ (EqualityExpr.mk "ATLEAST" n) x = Return (n <=? x).
Proof. reflexivity. Qed.

Lemma EqualityExpr_EXACTLY (n x : Z) :
  EqualityExpr.__call__ (EqualityExpr.mk "EXACTLY" n) x = Return (x =? n).
Proof. reflexivity. Qed.

(** ** Comparing scores *)

Lemma Score_gt_value (y m : Score.t) :
  Score.__gt__ y m = Value.gtb (Score.score y) (Score.score m).
Proof.
  unfold Score.__gt__, Score.__ne__, Score.__lt__, Score.__eq__,
    Value.gtb, Value.ltb, Value.eqb.
  destruct (Z.ltb_spec (Value.num (Score.score y)) (Value.num (Score.score m)));
    destruct (Z.eqb_spec (Value.num (Score.score y)) (Value.num (Score.score m)));
    destruct (Z.ltb_spec (Value.num (Score.score m)) (Value.num (Score.score y)));
    cbn; try reflexivity; lia.
Qed.

Lemma Score_fold_max (l : list Score.t) (x : Score.t) :
  Score.score (fold_left (fun m y => if Score.__gt__ y m then y else m) l x)
  = fold_left (fun m y => if Value.gtb y m then y else m)
      (map Score.score l) (Score.score x).
Proof.
  revert x. induction l as [| y l IH]; intros x; cbn [fold_left map].
  - reflexivity.
  - rewrite IH, Score_gt_value. now destruct (Value.gtb _ _).
Qed.

Lemma Score_fold_min (l : list Score.t) (x : Score.t) :
  Score.score (fold_left (fun m y => if Score.__lt__ y m then y else m) l x)
  = fold_left (fun m y => if Value.ltb y m then y else m)
      (map Score.score l) (Score.score x).
Proof.
  revert x. induction l as [| y l IH]; intros x; cbn [fold_left map].
  - reflexivity.
  - rewrite IH. unfold Score.__lt__. now destruct (Value.ltb _ _).
Qed.

(** C10.  [==] and [<] on scores look at the value only: they are the
    comparisons of the two numbers, whatever the residues and the flags are;
    hence [max] and [min] over scores return a score whose value is the
    [max] ([min]) of the values. *)
Theorem Score_compare_by_value (r1 r2 : Score.t) :
  (Score.__eq__ r1 r2 = true
   <-> Value.num (Score.score r1) = Value.num (Score.score r2))
  /\ (Score.__lt__ r1 r2 = true
      <-> Value.num (Score.score r1) < Value.num (Score.score r2))
  /\ (forall res1 fl1 res2 fl2,
         Score.__eq__ (Score.mk (Score.score r1) res1 fl1)
           (Score.mk (Score.score r2) res2 fl2) = Score.__eq__ r1 r2
         /\ Score.__lt__ (Score.mk (Score.score r1) res1 fl1)
              (Score.mk (Score.score r2) res2 fl2) = Score.__lt__ r1 r2)
  /\ (forall l : list Score.t,
         match Score.max l with
         | Return m => Value.max (map Score.score l) = Return (Score.score m)
         | Raise e => Value.max (map Score.score l) = Raise e
         end
         /\ match Score.min l with
            | Return m => Value.min (map Score.score l) = Return (Score.score m)
            | Raise e => Value.min (map Score.score l) = Raise e
            end).
Proof.
  repeat split.
  - unfold Score.__eq__, Value.eqb. apply Z.eqb_eq.
  - unfold Score.__eq__, Value.eqb. apply Z.eqb_eq.
  - unfold Score.__lt__, Value.ltb. apply Z.ltb_lt.
  - unfold Score.__lt__, Value.ltb. apply Z.ltb_lt.
  - destruct l as [| x l]; cbn [Score.max Value.max map]; [reflexivity |].
    now rewrite Score_fold_max.
  - destruct l as [| x l]; cbn [Score.min Value.min map]; [reflexivity |].
    now rewrite Score_fold_min.
Qed.

(** ** Adding scores: the flags *)

Lemma for_each_returns {A : Type} (l : list A) (body : A -> M unit) (h : heap) :
  forall u h', for_each l body h = (Return u, h') -> u = tt.
Proof. intros [] h' _. reflexivity. Qed.

Lemma update_flags_returns_fst (fst snd : addr) (h h' : heap) (a : addr) :
  update_flags fst snd h = (Return a, h') -> a = fst.
Proof.
  unfold update_flags, bind, ret.
  destruct (load_dict snd h) as [[items | e] h1]; [| discriminate].
  destruct (for_each _ _ h1) as [[u | e] h2]; [| discriminate].
  now intros [= <- _].
Qed.

Lemma Score_add_shares_flags (a b : Score.t) (h h' : heap) (c : Score.t) :
  Score.__add__ a b h = (Return c, h') -> Score.flags c = Score.flags a.
Proof.
  unfold Score.__add__, bind, lift, Score.__init__, ret.
  destruct (update_flags _ _ h) as [[f | e] h1] eqn:E; [| discriminate].
  apply update_flags_returns_fst in E. subst f.
  destruct (MutSet.union _ _) as [r | e]; [| discriminate].
  now intros [= <- _].
Qed.

Lemma Score_sub_shares_flags (a b : Score.t) (h h' : heap) (c : Score.t) :
  Score.__sub__ a b h = (Return c, h') -> Score.flags c = Score.flags a.
Proof.
  unfold Score.__sub__, bind, lift, Score.__init__, ret.
  destruct (update_flags _ _ h) as [[f | e] h1] eqn:E; [| discriminate].
  apply update_flags_returns_fst in E. subst f.
  destruct (MutSet.union _ _) as [r | e]; [| discriminate].
  now intros [= <- _].
Qed.

(** C5.  [a + b] changes [a]: with [a = Score(1, [])] and
    [b = Score(2, [], {'f': []})], the dictionary [a.flags] is empty before
    the addition and holds the key ['f'] (bound to the very list of [b])
    after it, and the sum has no dictionary of its own: its flags are the
    object [a.flags]. *)
Theorem Score_add_mutates_left_operand :
  Datatypes.fst
    ((a <- Score.__init__ (VInt 1) [] None ;;
      l <- alloc (PyList []) ;;
      d <- alloc (PyDict [("f", l)]) ;;
      b <- Score.__init__ (VInt 2) [] (Some d) ;;
      before <- load_dict (Score.flags a) ;;
      c <- Score.__add__ a b ;;
      after <- load_dict (Score.flags a) ;;
      ret (Score.score c, before, after, l,
           Nat.eqb (Score.flags c) (Score.flags a)))%heap [])
  = Return (VInt 3, [], [("f", 1%nat)], 1%nat, true).
Proof. reflexivity. Qed.

(** C6.  On a label that both operands hold, [Score.__add__] appends the
    right operand's list as one element of the left operand's list, it does
    not concatenate the two: from [{'f': []}] and [{'f': []}] the sum holds
    [{'f': [[]]}].  [ScoreList.__call__] merges with [dict.update], which
    keeps the last item's list only: from [{'f': [m1]}] and [{'f': [m2]}] it
    holds [{'f': [m2]}]. *)
Theorem flags_collision_nests_or_overwrites :
  Datatypes.fst
    ((la <- alloc (PyList []) ;;
      da <- alloc (PyDict [("f", la)]) ;;
      a <- Score.__init__ (VInt 0) [] (Some da) ;;
      lb <- alloc (PyList []) ;;
      db <- alloc (PyDict [("f", lb)]) ;;
      b <- Score.__init__ (VInt 0) [] (Some db) ;;
      c <- Score.__add__ a b ;;
      d <- load_dict (Score.flags c) ;;
      xs <- load_list la ;;
      ys <- load_list lb ;;
      ret (d, la, xs, lb, ys))%heap [])
  = Return ([("f", 0%nat)], 0%nat, [IRef 2%nat], 2%nat, [])
  /\ forall m1 m2 : Mutation.t,
      Datatypes.fst
        ((la <- alloc (PyList [IMut m1]) ;;
          da <- alloc (PyDict [("f", la)]) ;;
          a <- Score.__init__ (VInt 1) [] (Some da) ;;
          lb <- alloc (PyList [IMut m2]) ;;
          db <- alloc (PyDict [("f", lb)]) ;;
          b <- Score.__init__ (VInt 1) [] (Some db) ;;
          c <- ScoreList.__call__ [TCall (fun _ => ret (Some a));
                                   TCall (fun _ => ret (Some b))] [] ;;
          match c with
          | Some c =>
              d <- load_dict (Score.flags c) ;;
              match dict_get d "f" with
              | Some l => xs <- load_list l ;; ret (Score.score c, xs)
              | None => raise TypeError
              end
          | None => raise TypeError
          end)%heap [])
      = Return (VInt 2, [IMut m2]).
Proof. split; [reflexivity | intros m1 m2; reflexivity]. Qed.

(** The same nesting, reached from a rule: on the calls [100G 101D], the two
    score lists of [SCORE FROM (100G => "f", MAX (101D => "f"))] both raise
    the flag [f], and the final score holds [{'f': [[]]}]. *)
Lemma AsiScoreCond_nests_flag_lists :
  exists g d vc s h',
    AsiMutations.__init__ ["100"; "G"] = Return g
    /\ AsiMutations.__init__ ["101"; "D"] = Return d
    /\ VariantCalls.__new__ (Some "100G 101D") None None = Return vc
    /\ AsiScoreCond.__call__
         [ScoreList.__call__
            [TCall (ScoreExpr.__call__
                      [TCall (AsiMutations.__call__ g);
                       TStr (String "034" ""); TStr "f"; TStr (String "034" "")])];
          ScoreList.__call__
            [TStr "MAX";
             TCall (ScoreExpr.__call__
                      [TCall (AsiMutations.__call__ d);
                       TStr (String "034" ""); TStr "f"; TStr (String "034" "")])]]
         (VariantCalls.__iter__ vc) []
       = (Return (Some s), h')
    /\ exists l l',
        nth_error h' (Score.flags s) = Some (PyDict [("f"%string, l)])
        /\ nth_error h' l = Some (PyList [IRef l'])
        /\ nth_error h' l' = Some (PyList []).
Proof. do 5 eexists. repeat split. do 2 eexists. repeat split. Qed.

(** ** Operations on sets of mutations *)

Lemma same_hash_sym (m1 m2 : Mutation.t) :
  Mutation.same_hash m1 m2 = Mutation.same_hash m2 m1.
Proof.
  unfold Mutation.same_hash.
  now rewrite Z.eqb_sym, (Ascii.eqb_sym (Mutation.variant m1)).
Qed.

Lemma same_hash_true (m1 m2 : Mutation.t) :
  Mutation.same_hash m1 m2 = true
  <-> Mutation.pos m1 = Mutation.pos m2
      /\ Mutation.variant m1 = Mutation.variant m2.
Proof.
  unfold Mutation.same_hash.
  now rewrite andb_true_iff, Z.eqb_eq, Ascii.eqb_eq.
Qed.

Lemma same_hash_trans (m1 m2 m3 : Mutation.t) :
  Mutation.same_hash m1 m2 = true -> Mutation.same_hash m2 m3 = true ->
  Mutation.same_hash m1 m3 = true.
Proof.
  rewrite !same_hash_true. intros [-> ->] [-> ->]. now split.
Qed.

Lemma Mutation_eq_hit (e x : Mutation.t) :
  Mutation.same_hash e x = true -> agree e x = true ->
  Mutation.__eq__ e x = Return true.
Proof.
  intros Hk Ha. apply same_hash_true in Hk as [Hp Hv].
  unfold Mutation.__eq__, agree in *.
  rewrite Hp, Hv, Z.eqb_refl, Ascii.eqb_refl. cbn [negb andb].
  destruct (Mutation.wildtype e), (Mutation.wildtype x); try reflexivity.
  now rewrite Ha.
Qed.

Lemma Mutation_eq_clash (e x : Mutation.t) :
  Mutation.same_hash e x = true -> agree e x = false ->
  exists msg, Mutation.__eq__ e x = Raise (ValueError msg).
Proof.
  intros Hk Ha. apply same_hash_true in Hk as [Hp Hv].
  unfold Mutation.__eq__, agree in *.
  rewrite Hp, Z.eqb_refl. cbn [negb].
  destruct (Mutation.wildtype e), (Mutation.wildtype x); try discriminate.
  rewrite Ha. cbn [negb]. eauto.
Qed.

Lemma find_key_in (s : MutSet.t) (x : Mutation.t) :
  match MutSet.find s x with
  | Some e => In e s /\ Mutation.same_hash e x = true /\ key_in s x = true
  | None => key_in s x = false
  end.
Proof.
  unfold MutSet.find, key_in.
  destruct (List.find _ s) as [e |] eqn:E.
  - apply find_some in E as [Hin Hk]. repeat split; trivial.
    apply existsb_exists. eauto.
  - destruct (existsb _ s) eqn:Ex; [| reflexivity].
    apply existsb_exists in Ex as [e [Hin Hk]].
    now rewrite (find_none _ _ E e Hin) in Hk.
Qed.

Lemma contains_ok (s : MutSet.t) (x : Mutation.t) :
  consistent s [x] -> MutSet.contains s x = Return (key_in s x).
Proof.
  intros Hc. unfold MutSet.contains.
  pose proof (find_key_in s x) as H.
  destruct (MutSet.find s x) as [e |].
  - destruct H as (Hin & Hk & ->).
    apply Mutation_eq_hit; [exact Hk |].
    apply Hc; simpl; auto.
  - now rewrite H.
Qed.

Lemma consistent_cons_r (s : list Mutation.t) (x : Mutation.t) (t : list Mutation.t) :
  consistent s (x :: t) <-> consistent s [x] /\ consistent s t.
Proof.
  unfold consistent. split.
  - intros H. split; intros e y He Hy; apply H; simpl in *; tauto.
  - intros [H1 H2] e y He [<- | Hy]; [apply H1 | apply H2]; simpl; auto.
Qed.

Lemma consistent_nil_l (t : list Mutation.t) : consistent [] t.
Proof. intros e x []. Qed.

Lemma consistent_nil_r (s : list Mutation.t) : consistent s [].
Proof. intros e x _ []. Qed.

Lemma news_ok (a : MutSet.t) (b : list Mutation.t) :
  consistent a b ->
  MutSet.news a b = Return (List.filter (fun x => negb (key_in a x)) b).
Proof.
  induction b as [| x b IH]; intros Hc; cbn [MutSet.news List.filter].
  - reflexivity.
  - apply consistent_cons_r in Hc as [Hx Hb].
    rewrite (contains_ok _ _ Hx), (IH Hb). cbn [exc_bind].
    now destruct (key_in a x).
Qed.

Lemma union_ok (a b : MutSet.t) :
  consistent a b ->
  MutSet.union a b
  = Return (a ++ List.filter (fun x => negb (key_in a x)) b)%list.
Proof.
  intros Hc. unfold MutSet.union. now rewrite (news_ok _ _ Hc).
Qed.

Lemma union_nil_l (b : MutSet.t) : MutSet.union [] b = Return b.
Proof.
  rewrite union_ok by apply consistent_nil_l. cbn [app].
  assert (H : List.filter (fun x => negb (key_in [] x)) b = b).
  { induction b as [| x b IH]; [reflexivity |].
    change (x :: List.filter (fun y => negb (key_in [] y)) b = x :: b).
    now rewrite IH. }
  now rewrite H.
Qed.

Lemma keep_ok (so : MutSet.t) (other : list Mutation.t) :
  consistent so other ->
  MutSet.keep so other = Return (List.filter (key_in so) other).
Proof.
  induction other as [| x o IH]; intros Hc; cbn [MutSet.keep List.filter].
  - reflexivity.
  - apply consistent_cons_r in Hc as [Hx Ho].
    rewrite (contains_ok _ _ Hx), (IH Ho). cbn [exc_bind].
    now destruct (key_in so x).
Qed.

Lemma consistent_sym (s t : list Mutation.t) : consistent s t -> consistent t s.
Proof.
  intros H e x He Hx Hk. rewrite same_hash_sym in Hk.
  specialize (H x e Hx He Hk). unfold agree in *.
  destruct (Mutation.wildtype e), (Mutation.wildtype x); trivial.
  now rewrite Ascii.eqb_sym.
Qed.

Lemma inter_ok (a b : MutSet.t) :
  consistent a b ->
  MutSet.inter a b
  = Return (if Nat.ltb (List.length a) (List.length b)
            then List.filter (key_in b) a else List.filter (key_in a) b).
Proof.
  intros Hc. unfold MutSet.inter.
  destruct (Nat.ltb _ _).
  - apply keep_ok. now apply consistent_sym.
  - now apply keep_ok.
Qed.

Lemma issubset_ok (a : list Mutation.t) (b : MutSet.t) :
  consistent b a -> MutSet.issubset a b = Return (forallb (key_in b) a).
Proof.
  induction a as [| x a IH]; intros Hc; cbn [MutSet.issubset forallb].
  - reflexivity.
  - apply consistent_cons_r in Hc as [Hx Ha].
    rewrite (contains_ok _ _ Hx). cbn [exc_bind].
    destruct (key_in b x); [now apply IH | reflexivity].
Qed.

Lemma consistent_incl (s1 s2 t1 t2 : list Mutation.t) :
  incl s1 s2 -> incl t1 t2 -> consistent s2 t2 -> consistent s1 t1.
Proof. intros Hs Ht H e x He Hx. apply H; auto. Qed.

Lemma add_ok (s : MutSet.t) (x : Mutation.t) :
  consistent s [x] ->
  MutSet.add s x = Return (if key_in s x then s else (s ++ [x])%list).
Proof.
  intros Hc. unfold MutSet.add. now rewrite (contains_ok _ _ Hc).
Qed.

Lemma update_ok (l : list Mutation.t) :
  forall s, consistent (s ++ l) (s ++ l) ->
            MutSet.update s l = Return (add_all s l).
Proof.
  induction l as [| x l IH]; intros s Hc; cbn [MutSet.update add_all fold_left].
  - reflexivity.
  - rewrite add_ok.
    2:{ eapply consistent_incl; [| | exact Hc].
        - apply incl_appl, incl_refl.
        - intros y [<- | []]. apply in_or_app. right. now left. }
    cbn [exc_bind]. apply IH.
    eapply consistent_incl; [| | exact Hc];
      (destruct (key_in s x);
       [ apply incl_app; [apply incl_appl, incl_refl
                         | apply incl_appr, incl_tl, incl_refl]
       | rewrite <- app_assoc; apply incl_refl ]).
Qed.

Lemma add_all_incl (l : list Mutation.t) :
  forall s, incl (add_all s l) (s ++ l).
Proof.
  induction l as [| x l IH]; intros s; cbn [add_all fold_left].
  - rewrite app_nil_r. apply incl_refl.
  - intros m Hm. apply IH in Hm. destruct (key_in s x).
    + apply in_app_or in Hm as [H | H]; apply in_or_app; [now left | right; now right].
    + now rewrite <- app_assoc in Hm.
Qed.

Lemma add_all_prefix (l : list Mutation.t) :
  forall s, incl s (add_all s l).
Proof.
  induction l as [| x l IH]; intros s; cbn [add_all fold_left].
  - apply incl_refl.
  - intros m Hm. apply IH. destruct (key_in s x); [exact Hm |].
    apply in_or_app. now left.
Qed.

Lemma key_in_iff (s : MutSet.t) (x : Mutation.t) :
  key_in s x = true <-> In (Mutation.__hash__ x) (map Mutation.__hash__ s).
Proof.
  unfold key_in. rewrite existsb_exists, in_map_iff.
  split; intros [e [H1 H2]]; exists e.
  - apply same_hash_true in H2 as [Hp Hv]. split; [| exact H1].
    unfold Mutation.__hash__. now rewrite Hp, Hv.
  - split; [exact H2 |]. apply same_hash_true.
    unfold Mutation.__hash__ in H1. now injection H1.
Qed.

Lemma key_in_mono (s s' : MutSet.t) (x : Mutation.t) :
  incl s s' -> key_in s x = true -> key_in s' x = true.
Proof.
  unfold key_in. rewrite !existsb_exists. intros Hi [e [H1 H2]]. eauto.
Qed.

Lemma add_all_covers (l : list Mutation.t) :
  forall s x, In x l -> key_in (add_all s l) x = true.
Proof.
  induction l as [| y l IH]; intros s x []; cbn [add_all fold_left].
  - subst y. eapply key_in_mono; [apply add_all_prefix |].
    destruct (key_in s x) eqn:E; [exact E |].
    unfold key_in. rewrite existsb_app. cbn [existsb].
    unfold Mutation.same_hash. now rewrite Z.eqb_refl, Ascii.eqb_refl, !orb_true_r.
  - now apply IH.
Qed.

Lemma add_all_nodup (l : list Mutation.t) :
  forall s, NoDup (map Mutation.__hash__ s) ->
            NoDup (map Mutation.__hash__ (add_all s l)).
Proof.
  induction l as [| x l IH]; intros s Hs; cbn [add_all fold_left].
  - exact Hs.
  - apply IH. destruct (key_in s x) eqn:E; [exact Hs |].
    rewrite map_app. cbn [map].
    apply NoDup_app; [exact Hs | constructor; [intros [] | constructor] |].
    intros k Hk [<- | []].
    apply key_in_iff in Hk. congruence.
Qed.

(** The constructor called by the diff of a reference and a sample. *)
Lemma MutationSet_new_variants (i : Z) (alt : string) (ref : ascii) :
  alt <> "" ->
  MutationSet.__new__ None (Some ref) (Some i) (Some alt) None None
  = Return (call_set i alt ref).
Proof.
  intros Halt. destruct alt as [| c alt]; [congruence |].
  unfold MutationSet.__new__, MutationSet.from_variants, call_set,
    MutSet.frozenset.
  cbn [exc_bind]. rewrite update_ok; [reflexivity |].
  intros e x He Hx _. cbn [app] in He, Hx.
  apply in_map_iff in He as [v1 [<- _]].
  apply in_map_iff in Hx as [v2 [<- _]].
  unfold agree. cbn. apply Ascii.eqb_refl.
Qed.

(** ** [VariantCalls] of a reference and a sample *)

Lemma VariantCalls_add_fresh (s : list MutationSet.t) (x : MutationSet.t) :
  (forall e, In e s -> MutationSet.pos e < MutationSet.pos x) ->
  VariantCalls.add s x = Return (s ++ [x])%list.
Proof.
  intros H. unfold VariantCalls.add.
  destruct (List.find _ s) as [e |] eqn:E; [| reflexivity].
  apply find_some in E as [Hin Hk]. specialize (H e Hin).
  unfold MutationSet.same_hash in Hk.
  apply andb_true_iff in Hk as [Hp _]. apply Z.eqb_eq in Hp. lia.
Qed.

Lemma collect_call_sets (sample : list string) :
  forall (reference : list ascii) (i : Z) (s : list MutationSet.t),
    (forall e, In e s -> MutationSet.pos e < i) ->
    VariantCalls.collect s
      (flat_map
         (fun '(i, (alt, ref)) =>
            match alt with
            | EmptyString => []
            | _ => [MutationSet.__new__ None (Some ref) (Some i)
                      (Some alt) None None]
            end)
         (VariantCalls.enumerate_zip i sample reference))
    = Return (s ++ call_sets i sample reference)%list.
Proof.
  induction sample as [| alt sample IH]; intros [| ref reference] i s Hs;
    cbn [VariantCalls.enumerate_zip flat_map call_sets VariantCalls.collect];
    try (now rewrite app_nil_r).
  destruct alt as [| c alt]; cbn [app VariantCalls.collect].
  - apply IH. intros e He. specialize (Hs e He). lia.
  - rewrite MutationSet_new_variants by discriminate. cbn [exc_bind].
    rewrite VariantCalls_add_fresh by exact Hs. cbn [exc_bind].
    rewrite IH.
    + now rewrite <- app_assoc.
    + intros e He. apply in_app_or in He as [He | [<- | []]].
      * specialize (Hs e He). lia.
      * cbn. lia.
Qed.

Lemma call_sets_In (sample : list string) :
  forall (reference : list ascii) (i : Z) (ms : MutationSet.t),
    In ms (call_sets i sample reference)
    <-> exists (k : nat) (alt : string) (ref : ascii),
        nth_error sample k = Some alt /\ nth_error reference k = Some ref
        /\ alt <> "" /\ ms = call_set (i + Z.of_nat k) alt ref.
Proof.
  induction sample as [| alt sample IH]; intros [| ref reference] i ms;
    cbn [call_sets].
  1-3: split; [intros [] | intros (k & a & r & H1 & H2 & _)];
       destruct k; discriminate.
  rewrite in_app_iff, IH. split.
  - intros [H | (k & a & r & H1 & H2 & H3 & H4)].
    + destruct alt as [| c alt]; [destruct H |].
      destruct H as [<- | []]. exists 0%nat, (String c alt), ref.
      repeat split; try discriminate. now rewrite Z.add_0_r.
    + exists (S k), a, r. repeat split; trivial.
      subst ms. f_equal. lia.
  - intros ([| k] & a & r & H1 & H2 & H3 & H4); cbn in H1, H2.
    + injection H1 as <-. injection H2 as <-. left.
      destruct alt as [| c alt]; [congruence |].
      left. subst ms. now rewrite Z.add_0_r.
    + right. exists k, a, r. repeat split; trivial.
      subst ms. f_equal. lia.
Qed.

Lemma call_sets_positions (sample : list string) :
  forall (reference : list ascii) (i : Z),
    (forall ms, In ms (call_sets i sample reference) -> i <= MutationSet.pos ms)
    /\ NoDup (map MutationSet.pos (call_sets i sample reference)).
Proof.
  induction sample as [| alt sample IH]; intros [| ref reference] i;
    cbn [call_sets map]; try (split; [intros ms [] | constructor]).
  destruct (IH reference (i + 1)) as [Hge Hnd].
  destruct alt as [| c alt]; cbn [app map].
  - split; [| exact Hnd]. intros ms Hms. specialize (Hge ms Hms). lia.
  - split.
    + intros ms [<- | Hms]; [cbn; lia | specialize (Hge ms Hms); lia].
    + constructor; [| exact Hnd].
      intros Hin. apply in_map_iff in Hin as [ms [Hp Hms]].
      specialize (Hge ms Hms). cbn in Hp. lia.
Qed.

Lemma check_positions_call_sets (sample : list string) :
  forall (reference : list ascii) (i : Z) (seen : list Z),
    (forall p, In p seen -> p < i) ->
    VariantCalls.check_positions seen (call_sets i sample reference)
    = Return tt.
Proof.
  induction sample as [| alt sample IH]; intros [| ref reference] i seen Hs;
    cbn [call_sets VariantCalls.check_positions]; try reflexivity.
  destruct alt as [| c alt]; cbn [app VariantCalls.check_positions].
  - apply IH. intros p Hp. specialize (Hs p Hp). lia.
  - destruct (existsb _ seen) eqn:E.
    + apply existsb_exists in E as [p [Hp Heq]].
      apply Z.eqb_eq in Heq. specialize (Hs p Hp). cbn in Heq. lia.
    + apply IH. intros p [<- | Hp]; [cbn; lia | specialize (Hs p Hp); lia].
Qed.

Lemma length_list_ascii_of_string (s : string) :
  List.length (list_ascii_of_string s) = String.length s.
Proof. induction s as [| c s IH]; cbn; [reflexivity | now rewrite IH]. Qed.

Lemma VariantCalls_new_sample (reference : string) (sample : list string) :
  String.length reference = List.length sample ->
  VariantCalls.__new__ None (Some reference) (Some sample)
  = Return (VariantCalls.mk
              (call_sets 1 sample (list_ascii_of_string reference))
              (Some reference)).
Proof.
  intros Hlen. unfold VariantCalls.__new__.
  rewrite Hlen, Nat.eqb_refl. cbn [negb].
  rewrite collect_call_sets by (intros e []). cbn [app exc_bind].
  rewrite check_positions_call_sets by (intros p []). reflexivity.
Qed.

Lemma call_set_mutations (i : Z) (alt : string) (ref : ascii) :
  (forall m, In m (MutationSet.mutations (call_set i alt ref)) ->
             Mutation.pos m = i /\ Mutation.wildtype m = Some ref
             /\ In (Mutation.variant m) (list_ascii_of_string alt))
  /\ (forall v, In v (list_ascii_of_string alt) ->
                exists m, In m (MutationSet.mutations (call_set i alt ref))
                          /\ Mutation.variant m = v).
Proof.
  cbn [call_set MutationSet.mutations]. split.
  - intros m Hm. apply add_all_incl in Hm. cbn [app] in Hm.
    apply in_map_iff in Hm as [v [<- Hv]]. now cbn.
  - intros v Hv.
    pose proof (add_all_covers
                  (map (fun v => Mutation.mk i v (Some ref))
                     (list_ascii_of_string alt))
                  [] (Mutation.mk i v (Some ref))) as H.
    unfold key_in in H. rewrite existsb_exists in H.
    destruct H as [m [Hm Hk]].
    + apply in_map_iff. eauto.
    + exists m. split; [exact Hm |].
      apply same_hash_true in Hk. apply Hk.
Qed.

(** C2, as the code has it.  For a reference and a sample of the same
    length, the constructor returns one mutation set for every position
    whose call is not empty, whether or not the call differs from the
    reference there: at most one set per position; at a position with a call,
    a set with the reference residue as its wild type and the variants of the
    call as its mutations; at a position with an empty call, no set; and no
    set elsewhere. *)
Theorem VariantCalls_of_reference_and_sample
    (reference : string) (sample : list string) :
  String.length reference = List.length sample ->
  exists sets,
    VariantCalls.__new__ None (Some reference) (Some sample)
    = Return (VariantCalls.mk sets (Some reference))
    /\ NoDup (map MutationSet.pos sets)
    /\ (forall (k : nat) (alt : string) (ref : ascii),
           nth_error sample k = Some alt ->
           nth_error (list_ascii_of_string reference) k = Some ref ->
           (alt <> "" ->
            exists ms,
              In ms sets /\ MutationSet.pos ms = Z.of_nat k + 1
              /\ MutationSet.wildtype ms = Some ref
              /\ (forall m, In m (MutationSet.mutations ms) ->
                            Mutation.pos m = Z.of_nat k + 1
                            /\ Mutation.wildtype m = Some ref
                            /\ In (Mutation.variant m) (list_ascii_of_string alt))
              /\ (forall v, In v (list_ascii_of_string alt) ->
                            exists m, In m (MutationSet.mutations ms)
                                      /\ Mutation.variant m = v))
           /\ (alt = "" ->
               forall ms, In ms sets -> MutationSet.pos ms <> Z.of_nat k + 1))
    /\ (forall ms, In ms sets ->
                   exists (k : nat) (alt : string),
                     nth_error sample k = Some alt /\ alt <> ""
                     /\ MutationSet.pos ms = Z.of_nat k + 1).
Proof.
  intros Hlen. eexists. split; [apply VariantCalls_new_sample, Hlen |].
  split; [apply call_sets_positions |]. split.
  - intros k alt ref Hs Hr. split.
    + intros Halt. exists (call_set (1 + Z.of_nat k) alt ref).
      split; [apply call_sets_In; exists k, alt, ref; auto |].
      replace (Z.of_nat k + 1) with (1 + Z.of_nat k) by lia.
      split; [reflexivity |]. split; [reflexivity |].
      apply call_set_mutations.
    + intros -> ms Hms Hp.
      apply call_sets_In in Hms as (k' & a & r & H1 & H2 & H3 & ->).
      cbn [call_set MutationSet.pos] in Hp.
      assert (k' = k) by lia. subst k'. congruence.
  - intros ms Hms.
    apply call_sets_In in Hms as (k & a & r & H1 & H2 & H3 & ->).
    exists k, a. repeat split; trivial. cbn [call_set MutationSet.pos]. lia.
Qed.

Lemma VariantCalls_of_reference_and_sample_witness :
  exists sets,
    VariantCalls.__new__ None (Some "AC") (Some ["A"; "DE"])
    = Return (VariantCalls.mk sets (Some "AC"))
    /\ NoDup (map MutationSet.pos sets)
    /\ (forall (k : nat) (alt : string) (ref : ascii),
           nth_error ["A"; "DE"] k = Some alt ->
           nth_error (list_ascii_of_string "AC") k = Some ref ->
           (alt <> "" ->
            exists ms,
              In ms sets /\ MutationSet.pos ms = Z.of_nat k + 1
              /\ MutationSet.wildtype ms = Some ref
              /\ (forall m, In m (MutationSet.mutations ms) ->
                            Mutation.pos m = Z.of_nat k + 1
                            /\ Mutation.wildtype m = Some ref
                            /\ In (Mutation.variant m) (list_ascii_of_string alt))
              /\ (forall v, In v (list_ascii_of_string alt) ->
                            exists m, In m (MutationSet.mutations ms)
                                      /\ Mutation.variant m = v))
           /\ (alt = "" ->
               forall ms, In ms sets -> MutationSet.pos ms <> Z.of_nat k + 1))
    /\ (forall ms, In ms sets ->
                   exists (k : nat) (alt : string),
                     nth_error ["A"; "DE"] k = Some alt /\ alt <> ""
                     /\ MutationSet.pos ms = Z.of_nat k + 1).
Proof.
  apply (VariantCalls_of_reference_and_sample "AC" ["A"; "DE"]). reflexivity.
Defined.

(** C2, as the claim has it, fails: the sample [AD] has at position 1 the
    residue [A] of the reference [AC], and the constructor still returns a
    mutation set at position 1 (holding the call [A] itself). *)
Lemma VariantCalls_keeps_unchanged_positions :
  VariantCalls.__new__ None (Some "AC") (Some (VariantCalls.sample_of_str "AD"))
  = Return (VariantCalls.mk
              [MutationSet.mk 1 [Mutation.mk 1 "A" (Some "A"%char)]
                 (Some "A"%char);
               MutationSet.mk 2 [Mutation.mk 2 "D" (Some "C"%char)]
                 (Some "C"%char)]
              (Some "AC"))
  /\ ~ (forall vc,
           VariantCalls.__new__ None (Some "AC")
             (Some (VariantCalls.sample_of_str "AD")) = Return vc ->
           forall ms, In ms (VariantCalls.mutation_sets vc) ->
                      MutationSet.pos ms <> 1).
Proof.
  split; [reflexivity |].
  intros H. specialize (H _ eq_refl _ (or_introl eq_refl)).
  now apply H.
Qed.

(** ** [AsiMutations.__call__] *)

Lemma contains_returns (s : MutSet.t) (x : Mutation.t) (b : bool) :
  MutSet.contains s x = Return b -> b = key_in s x.
Proof.
  unfold MutSet.contains. pose proof (find_key_in s x) as H.
  destruct (MutSet.find s x) as [e |].
  - destruct H as (_ & Hk & ->). apply same_hash_true in Hk as [Hp Hv].
    unfold Mutation.__eq__. rewrite Hp, Hv, Z.eqb_refl, Ascii.eqb_refl.
    cbn [negb andb].
    destruct (Mutation.wildtype e), (Mutation.wildtype x);
      try (now intros [= <-]).
    destruct (negb _); [discriminate | now intros [= <-]].
  - rewrite H. now intros [= <-].
Qed.

Lemma keep_returns (so : MutSet.t) (other r : list Mutation.t) :
  MutSet.keep so other = Return r -> r = List.filter (key_in so) other.
Proof.
  revert r. induction other as [| x o IH]; intros r; cbn [MutSet.keep List.filter].
  - now intros [= <-].
  - destruct (MutSet.contains so x) as [c | e] eqn:E; [| discriminate].
    apply contains_returns in E. subst c. cbn [exc_bind].
    destruct (MutSet.keep so o) as [r' | e]; [| discriminate].
    cbn [exc_bind]. rewrite <- (IH r' eq_refl).
    destruct (key_in so x); now intros [= <-].
Qed.

Lemma key_in_sym_false (a b : MutSet.t) :
  (forall x, In x a -> key_in b x = false) ->
  forall y, In y b -> key_in a y = false.
Proof.
  intros H y Hy. destruct (key_in a y) eqn:E; [| reflexivity].
  unfold key_in in E. apply existsb_exists in E as [x [Hx Hk]].
  specialize (H x Hx). unfold key_in in H.
  assert (existsb (fun e => Mutation.same_hash e x) b = true); [| congruence].
  apply existsb_exists. exists y. split; [exact Hy |].
  now rewrite same_hash_sym.
Qed.

Lemma filter_none {A : Type} (p : A -> bool) (l : list A) :
  (forall x, In x l -> p x = false) -> List.filter p l = [].
Proof.
  induction l as [| x l IH]; intros H; cbn [List.filter]; [reflexivity |].
  rewrite (H x (or_introl eq_refl)). apply IH. intros y Hy. apply H. now right.
Qed.

(** Two sets without a common position-and-variant have the empty
    intersection, and computing it compares no two mutations. *)
Lemma inter_disjoint (a b : MutSet.t) :
  (forall x, In x a -> key_in b x = false) -> MutSet.inter a b = Return [].
Proof.
  intros H. rewrite inter_ok.
  - rewrite (filter_none (key_in b) a H).
    rewrite (filter_none (key_in a) b (key_in_sym_false a b H)).
    now destruct (Nat.ltb _ _).
  - intros e x He Hx Hk. specialize (H e He).
    unfold key_in in H.
    assert (existsb (fun e0 => Mutation.same_hash e0 e) b = true); [| congruence].
    apply existsb_exists. exists x. split; [exact Hx |].
    now rewrite same_hash_sym.
Qed.

Lemma inter_returns (a b i : MutSet.t) :
  MutSet.inter a b = Return i ->
  forall m, key_in i m = true <-> key_in a m = true /\ key_in b m = true.
Proof.
  assert (K : forall so other m,
             key_in (List.filter (key_in so) other) m = true
             <-> key_in so m = true /\ key_in other m = true).
  { intros so other m. unfold key_in at 1 4. rewrite !existsb_exists. split.
    - intros [e [He Hk]]. apply filter_In in He as [He Hs]. split; [| eauto].
      unfold key_in in *. apply existsb_exists in Hs as [e' [He' Hk']].
      apply existsb_exists. exists e'. split; [exact He' |].
      eapply same_hash_trans; eauto.
    - intros [Hs [e [He Hk]]]. exists e. split; [| exact Hk].
      apply filter_In. split; [exact He |].
      unfold key_in in *. apply existsb_exists in Hs as [e' [He' Hk']].
      apply existsb_exists. exists e'. split; [exact He' |].
      eapply same_hash_trans; [exact Hk' |]. now rewrite same_hash_sym. }
  unfold MutSet.inter. intros H m.
  destruct (Nat.ltb _ _); apply keep_returns in H; subst i; rewrite K; tauto.
Qed.

Lemma wf_other_position (self ms : MutationSet.t) :
  MutationSet_wf self -> MutationSet_wf ms ->
  MutationSet.pos ms <> MutationSet.pos self ->
  forall x, In x (MutationSet.mutations self) ->
            key_in (MutationSet.mutations ms) x = false.
Proof.
  intros Hs Hm Hp x Hx. destruct (key_in _ x) eqn:E; [| reflexivity].
  unfold key_in in E. apply existsb_exists in E as [e [He Hk]].
  apply same_hash_true in Hk as [Hk _].
  rewrite (wf_pos _ Hm e He), (wf_pos _ Hs x Hx) in Hk. contradiction.
Qed.

Lemma scan_disjoint (self : MutationSet.t) (env : env) :
  (forall ms, In ms env ->
              forall x, In x (MutationSet.mutations self) ->
                        key_in (MutationSet.mutations ms) x = false) ->
  forall f,
    AsiMutations.scan self f env
    = Return (inr (f || existsb (fun ms => MutationSet.pos ms =? MutationSet.pos self)
                         env)%bool).
Proof.
  induction env as [| ms env IH]; intros H f; cbn [AsiMutations.scan existsb].
  - now rewrite orb_false_r.
  - rewrite inter_disjoint by (apply H; now left). cbn [exc_bind].
    rewrite IH by (intros ms' Hms'; apply H; now right).
    now rewrite orb_assoc.
Qed.

Lemma scan_app (self : MutationSet.t) (l1 l2 : env) :
  (forall ms, In ms l1 ->
              forall x, In x (MutationSet.mutations self) ->
                        key_in (MutationSet.mutations ms) x = false) ->
  forall f,
    AsiMutations.scan self f (l1 ++ l2)%list
    = AsiMutations.scan self
        (f || existsb (fun ms => MutationSet.pos ms =? MutationSet.pos self) l1)%bool
        l2.
Proof.
  induction l1 as [| ms l1 IH]; intros H f; cbn [app AsiMutations.scan existsb].
  - now rewrite orb_false_r.
  - rewrite inter_disjoint by (apply H; now left). cbn [exc_bind].
    rewrite IH by (intros ms' Hms'; apply H; now right).
    now rewrite orb_assoc.
Qed.

Lemma scan_not_found (self : MutationSet.t) (env : env) :
  forall f b,
    AsiMutations.scan self f env = Return (inr b) ->
    b = (f || existsb (fun ms => MutationSet.pos ms =? MutationSet.pos self) env)%bool.
Proof.
  induction env as [| ms env IH]; intros f b; cbn [AsiMutations.scan existsb].
  - intros [= <-]. now rewrite orb_false_r.
  - destruct (MutSet.inter _ _) as [[| m i] | e]; cbn [exc_bind];
      try discriminate.
    intros H. apply IH in H. now rewrite orb_assoc.
Qed.

(** The comparisons of mutations raise nothing but the wild-type mismatch. *)
Lemma Mutation_eq_raises (e x : Mutation.t) (ex : exn) :
  Mutation.__eq__ e x = Raise ex -> exists msg, ex = ValueError msg.
Proof.
  unfold Mutation.__eq__.
  destruct (negb (Mutation.pos e =? Mutation.pos x)); [discriminate |].
  destruct (Mutation.wildtype e), (Mutation.wildtype x); try discriminate.
  destruct (negb _); [| discriminate]. intros [= <-]. eauto.
Qed.

Lemma keep_raises (so : MutSet.t) (other : list Mutation.t) (ex : exn) :
  MutSet.keep so other = Raise ex -> exists msg, ex = ValueError msg.
Proof.
  induction other as [| x o IH]; cbn [MutSet.keep]; [discriminate |].
  destruct (MutSet.contains so x) as [c | e] eqn:E; cbn [exc_bind].
  - destruct (MutSet.keep so o) as [r | e]; cbn [exc_bind]; [discriminate |].
    intros [= <-]. now apply IH.
  - intros [= <-]. unfold MutSet.contains in E.
    destruct (MutSet.find so x); [| discriminate].
    now apply Mutation_eq_raises in E.
Qed.

Lemma scan_raises (self : MutationSet.t) (env : env) :
  forall f ex, AsiMutations.scan self f env = Raise ex ->
               exists msg, ex = ValueError msg.
Proof.
  induction env as [| ms env IH]; intros f ex; cbn [AsiMutations.scan];
    [discriminate |].
  destruct (MutSet.inter _ _) as [[| m i] | e] eqn:E; cbn [exc_bind];
    try discriminate.
  - apply IH.
  - intros [= <-]. unfold MutSet.inter in E.
    destruct (Nat.ltb _ _); now apply keep_raises in E.
Qed.

Lemma existsb_pos_false (p : Z) (env : env) :
  existsb (fun ms => MutationSet.pos ms =? p) env = false
  <-> forall ms, In ms env -> MutationSet.pos ms <> p.
Proof.
  split.
  - intros H ms Hms Hp.
    assert (existsb (fun ms => MutationSet.pos ms =? p) env = true); [| congruence].
    apply existsb_exists. exists ms. split; [exact Hms | now apply Z.eqb_eq].
  - intros H. destruct (existsb _ env) eqn:E; [| reflexivity].
    apply existsb_exists in E as [ms [Hms Hp]]. apply Z.eqb_eq in Hp.
    now apply H in Hms.
Qed.

(** C4.  For a well-formed atom and an environment of well-formed mutation
    sets at pairwise different positions: the call raises
    [MissingPositionError] exactly when no set of the environment is at the
    atom's position, and the message then names that position; when the set
    at the atom's position shares no mutation with the atom, the call
    returns the score [False] with no residues; when the intersection with
    that set is not empty, the call returns the score [True] with the
    intersection as residues, which are the mutations common to both. *)
Theorem AsiMutations_call_spec (self : MutationSet.t) (env : env) (h : heap) :
  MutationSet_wf self ->
  (forall ms, In ms env -> MutationSet_wf ms) ->
  NoDup (map MutationSet.pos env) ->
  ((exists msg,
       Datatypes.fst (AsiMutations.__call__ self env h)
       = Raise (MissingPositionError msg))
   <-> forall ms, In ms env -> MutationSet.pos ms <> MutationSet.pos self)
  /\ ((forall ms, In ms env -> MutationSet.pos ms <> MutationSet.pos self) ->
      AsiMutations.__call__ self env h
      = (Raise (MissingPositionError
                  ("Missing position " ++ Py.str (MutationSet.pos self)
                   ++ ".")%string),
         h))
  /\ (forall ms,
         In ms env -> MutationSet.pos ms = MutationSet.pos self ->
         (forall x, In x (MutationSet.mutations self) ->
                    key_in (MutationSet.mutations ms) x = false) ->
         AsiMutations.__call__ self env h
         = (Return (Some (Score.mk (VBool false) [] (List.length h))),
            (h ++ [PyDict []])%list))
  /\ (forall ms i,
         In ms env -> MutationSet.pos ms = MutationSet.pos self ->
         MutSet.inter (MutationSet.mutations self) (MutationSet.mutations ms)
         = Return i ->
         i <> [] ->
         AsiMutations.__call__ self env h
         = (Return (Some (Score.mk (VBool true) i (List.length h))),
            (h ++ [PyDict []])%list)
         /\ forall m, key_in i m = true
                      <-> key_in (MutationSet.mutations self) m = true
                          /\ key_in (MutationSet.mutations ms) m = true).
Proof.
  intros Hself Henv Hnd.
  assert (Habsent : (forall ms, In ms env ->
                                MutationSet.pos ms <> MutationSet.pos self) ->
                    AsiMutations.scan self false env = Return (inr false)).
  { intros H. rewrite scan_disjoint.
    - cbn [orb]. now rewrite (proj2 (existsb_pos_false _ env) H).
    - intros ms Hms. apply wf_other_position; auto. }
  split; [split |]; [| | split; [| split]].
  - intros [msg Hmsg]. unfold AsiMutations.__call__, bind, lift in Hmsg.
    destruct (AsiMutations.scan self false env) as [[i | [|]] | e] eqn:E;
      cbn in Hmsg; try discriminate.
    + apply scan_not_found in E. cbn [orb] in E. symmetry in E.
      now apply existsb_pos_false.
    + apply scan_raises in E as [msg' ->]. discriminate.
  - intros H. unfold AsiMutations.__call__, bind, lift.
    rewrite (Habsent H). cbn. eauto.
  - intros H. unfold AsiMutations.__call__, bind, lift.
    now rewrite (Habsent H).
  - intros ms Hms Hp Hdis.
    unfold AsiMutations.__call__, bind, lift. rewrite scan_disjoint.
    + cbn [orb].
      assert (E : existsb (fun ms => MutationSet.pos ms =? MutationSet.pos self)
                    env = true).
      { apply existsb_exists. exists ms. split; [exact Hms | now apply Z.eqb_eq]. }
      rewrite E. reflexivity.
    + intros ms' Hms'.
      destruct (Z.eq_dec (MutationSet.pos ms') (MutationSet.pos self)) as [Hp' | Hp'].
      * assert (ms' = ms); [| now subst].
        apply in_split in Hms as (l1 & l2 & ->).
        rewrite map_app in Hnd. cbn [map] in Hnd.
        apply NoDup_remove_2 in Hnd.
        apply in_app_or in Hms' as [Hin | [<- | Hin]]; try reflexivity;
          exfalso; apply Hnd; apply in_or_app; [left | right];
          apply in_map_iff; exists ms'; split; congruence.
      * apply wf_other_position; auto.
  - intros ms i Hms Hp Hi Hne. split; [| now apply inter_returns].
    apply in_split in Hms as (l1 & l2 & ->).
    unfold AsiMutations.__call__, bind, lift. rewrite scan_app.
    + cbn [AsiMutations.scan]. rewrite Hi. cbn [exc_bind].
      destruct i as [| m i]; [congruence | reflexivity].
    + intros ms' Hms'. apply wf_other_position; auto.
      * apply Henv, in_or_app. now left.
      * rewrite map_app in Hnd. cbn [map] in Hnd.
        apply NoDup_remove_2 in Hnd. intros Hp'. apply Hnd.
        apply in_or_app. left. apply in_map_iff. exists ms'. split; congruence.
Qed.

Lemma all_different_NoDup (l : list ascii) : all_different l = true -> NoDup l.
Proof.
  induction l as [| c l IH]; cbn [all_different]; [constructor |].
  intros H. apply andb_true_iff in H as [H1 H2].
  constructor; [| now apply IH].
  intros Hin. apply negb_true_iff in H1.
  assert (existsb (Ascii.eqb c) l = true); [| congruence].
  apply existsb_exists. exists c. split; [exact Hin | apply Ascii.eqb_refl].
Qed.

Lemma MutationSet_check_wf (s : MutationSet.t) :
  MutationSet_check s = true -> MutationSet_wf s.
Proof.
  unfold MutationSet_check. intros H.
  apply andb_true_iff in H as [H H3]. apply andb_true_iff in H as [H1 H2].
  rewrite forallb_forall in H1, H2. split.
  - intros m Hm. apply Z.eqb_eq. now apply H1.
  - intros m Hm. specialize (H2 m Hm).
    destruct (Mutation.wildtype m) as [a |]; [right | now left].
    destruct (MutationSet.wildtype s) as [b |]; [| discriminate].
    apply Ascii.eqb_eq in H2. now subst.
  - now apply all_different_NoDup.
Qed.

Ltac solve_wf := apply MutationSet_check_wf; reflexivity.

Lemma AsiMutations_call_spec_witness :
  AsiMutations.__call__ (MutationSet.mk 41 [Mutation.mk 41 "L" None] None)
    [MutationSet.mk 41 [Mutation.mk 41 "d" None] None] []
  = (Return (Some (Score.mk (VBool false) [] 0%nat)), [PyDict []])
  /\ AsiMutations.__call__ (MutationSet.mk 41 [Mutation.mk 41 "L" None] None)
       [MutationSet.mk 67 [Mutation.mk 67 "N" None] None] []
     = (Raise (MissingPositionError "Missing position 41."), [])
  /\ AsiMutations.__call__ (MutationSet.mk 41 [Mutation.mk 41 "L" None] None)
       [MutationSet.mk 67 [Mutation.mk 67 "N" None] None;
        MutationSet.mk 41 [Mutation.mk 41 "L" (Some "M"%char)] (Some "M"%char)] []
     = (Return (Some (Score.mk (VBool true)
                        [Mutation.mk 41 "L" (Some "M"%char)] 0%nat)),
        [PyDict []]).
Proof.
  split; [| split].
  - refine (proj1 (proj2 (proj2
              (AsiMutations_call_spec
                 (MutationSet.mk 41 [Mutation.mk 41 "L" None] None)
                 [MutationSet.mk 41 [Mutation.mk 41 "d" None] None] [] _ _ _)))
              _ (or_introl eq_refl) eq_refl _).
    + solve_wf.
    + intros ms [<- | []]. solve_wf.
    + repeat constructor; cbn; tauto.
    + intros x [<- | []]. reflexivity.
  - refine (proj1 (proj2
              (AsiMutations_call_spec
                 (MutationSet.mk 41 [Mutation.mk 41 "L" None] None)
                 [MutationSet.mk 67 [Mutation.mk 67 "N" None] None] [] _ _ _))
              _).
    + solve_wf.
    + intros ms [<- | []]. solve_wf.
    + repeat constructor; cbn; tauto.
    + intros ms [<- | []]. cbn. lia.
  - refine (proj1 (proj2 (proj2 (proj2
              (AsiMutations_call_spec
                 (MutationSet.mk 41 [Mutation.mk 41 "L" None] None)
                 [MutationSet.mk 67 [Mutation.mk 67 "N" None] None;
                  MutationSet.mk 41 [Mutation.mk 41 "L" (Some "M"%char)]
                    (Some "M"%char)] [] _ _ _)))
              _ _ (or_intror (or_introl eq_refl)) eq_refl eq_refl _)).
    + solve_wf.
    + intros ms [<- | [<- | []]]; solve_wf.
    + repeat constructor; cbn; intuition lia.
    + discriminate.
Defined.

(** ** [AndExpr.__call__] *)

Lemma key_in_app (a b : MutSet.t) (m : Mutation.t) :
  key_in (a ++ b) m = (key_in a m || key_in b m)%bool.
Proof. unfold key_in. apply existsb_app. Qed.

Lemma key_in_trans (a : MutSet.t) (e m : Mutation.t) :
  Mutation.same_hash e m = true -> key_in a e = key_in a m.
Proof.
  intros Hk. unfold key_in.
  apply eq_true_iff_eq. rewrite !existsb_exists.
  split; intros [x [Hx Hxe]]; exists x; split; trivial.
  - eapply same_hash_trans; eauto.
  - eapply same_hash_trans; [exact Hxe |]. now rewrite same_hash_sym.
Qed.

Lemma key_in_union (a b : MutSet.t) (m : Mutation.t) :
  key_in (a ++ List.filter (fun x => negb (key_in a x)) b) m = true
  <-> key_in a m = true \/ key_in b m = true.
Proof.
  rewrite key_in_app, orb_true_iff. split.
  - intros [H | H]; [now left | right].
    unfold key_in in *. apply existsb_exists in H as [e [He Hk]].
    apply filter_In in He as [He _]. apply existsb_exists. eauto.
  - intros [H | H]; [now left |].
    destruct (key_in a m) eqn:E; [now left | right].
    unfold key_in in H. apply existsb_exists in H as [e [He Hk]].
    unfold key_in at 1. apply existsb_exists. exists e. split; [| exact Hk].
    apply filter_In. split; [exact He |].
    now rewrite (key_in_trans a e m Hk), E.
Qed.

Lemma key_in_union_all (scores : list Score.t) :
  forall acc m,
    key_in (union_all acc scores) m = true
    <-> key_in acc m = true
        \/ exists s, In s scores /\ key_in (Score.residues s) m = true.
Proof.
  induction scores as [| s scores IH]; intros acc m; cbn [union_all fold_left].
  - split; [now left | intros [H | [s [[] _]]]; exact H].
  - fold (union_all (acc ++ List.filter (fun x => negb (key_in acc x))
                              (Score.residues s)) scores).
    rewrite IH, key_in_union. split.
    + intros [[H | H] | [s' [Hs' H]]]; [now left | right | right].
      * exists s. split; [now left | exact H].
      * exists s'. split; [now right | exact H].
    + intros [H | [s' [[<- | Hs'] H]]]; [left; now left | left; now right |].
      right. eauto.
Qed.

Lemma consistent_app_l (a b t : list Mutation.t) :
  consistent a t -> consistent b t -> consistent (a ++ b) t.
Proof.
  intros Ha Hb e x He Hx. apply in_app_or in He as [He | He]; eauto.
Qed.

Lemma consistent_filter_l (p : Mutation.t -> bool) (a t : list Mutation.t) :
  consistent a t -> consistent (List.filter p a) t.
Proof.
  intros Ha e x He Hx. apply filter_In in He as [He _]. eauto.
Qed.

Lemma Score_init_fresh (v : value) (r : MutSet.t) (h : heap) :
  Score.__init__ v r None h
  = (Return (Score.mk v r (List.length h)), (h ++ [PyDict []])%list).
Proof. reflexivity. Qed.

(** The loop of [AndExpr] when the unions raise nothing. *)
Lemma AndExpr_loop_spec (scores : list Score.t) :
  forall (acc : MutSet.t) (h : heap),
    (forall s, In s scores -> consistent acc (Score.residues s)) ->
    residues_consistent scores ->
    AndExpr.loop acc scores h
    = (Return (if forallb (fun s => Value.truthy (Score.score s)) scores
               then Score.mk (VBool true) (union_all acc scores) (List.length h)
               else Score.mk (VBool false) [] (List.length h)),
       (h ++ [PyDict []])%list).
Proof.
  induction scores as [| s scores IH]; intros acc h Hacc Hpair;
    cbn [AndExpr.loop forallb union_all fold_left].
  - reflexivity.
  - unfold bind, lift.
    rewrite union_ok by (apply Hacc; now left).
    destruct (Value.truthy (Score.score s)); cbn [negb andb]; [| reflexivity].
    inversion Hpair as [| ? ? Hhead Htail]; subst.
    apply IH; [| exact Htail].
    intros s' Hs'. apply consistent_app_l.
    + apply Hacc. now right.
    + apply consistent_filter_l.
      rewrite Forall_forall in Hhead. now apply Hhead.
Qed.

Lemma map_M_length {A B : Type} (f : A -> M B) (l : list A) :
  forall h ys h', map_M f l h = (Return ys, h') -> List.length ys = List.length l.
Proof.
  induction l as [| x l IH]; intros h ys h'; cbn [map_M]; unfold bind, ret.
  - now intros [= <- _].
  - destruct (f x h) as [[y | e] h1]; [| discriminate].
    destruct (map_M f l h1) as [[ys' | e] h2] eqn:E; [| discriminate].
    intros [= <- _]. cbn. f_equal. eapply IH, E.
Qed.

(** A child that raises stops the evaluation of the children, whatever the
    children before it have returned. *)
Lemma map_M_raise {A B : Type} (F : A -> M B) (pre : list A) (x : A)
    (post : list A) (e : exn) :
  forall (h : heap) (ys : list B) (h1 h2 : heap),
    map_M F pre h = (Return ys, h1) ->
    F x h1 = (Raise e, h2) ->
    map_M F (pre ++ x :: post) h = (Raise e, h2).
Proof.
  induction pre as [| a pre IH]; intros h ys h1 h2 Hpre Hx; cbn [app map_M].
  - cbn [map_M] in Hpre. unfold ret in Hpre. injection Hpre as _ <-.
    unfold bind. now rewrite Hx.
  - cbn [map_M] in Hpre. unfold bind in Hpre |- *.
    destruct (F a h) as [[y | e'] h'] eqn:Ea; [| discriminate].
    fold (@map_M A B F) in *.
    destruct (map_M F pre h') as [[ys' | e'] h''] eqn:Ep; [| discriminate].
    unfold ret in Hpre. injection Hpre as _ <-.
    now rewrite (IH _ _ _ _ Ep Hx).
Qed.

(** C7.  A non-empty [AndExpr] first calls all its children, in order: a
    child that raises makes the call raise the same error, whatever the
    children before it have returned, a false one included.  When all the
    children have returned, with the scores [scores] (a child that returned
    [None] counting as [False]): if the first score is falsy the result is
    [False] with no residues, whatever the other scores are; and when no two
    children give conflicting wild types for a residue, the result is
    [False] with no residues as soon as some score is falsy, and [True] with
    the union of the residues of all children when all scores are truthy. *)
Theorem AndExpr_call_spec (children0 : list callable) (mutations : env)
    (h : heap) :
  children0 <> [] ->
  (forall pre f post scores h1 e h2,
      children0 = pre ++ f :: post ->
      AndExpr.scores pre mutations h = (Return scores, h1) ->
      f mutations h1 = (Raise e, h2) ->
      AndExpr.__call__ children0 mutations h = (Raise e, h2))
  /\ (forall scores h1,
         AndExpr.scores children0 mutations h = (Return scores, h1) ->
         (forall s rest,
             scores = s :: rest -> Value.truthy (Score.score s) = false ->
             AndExpr.__call__ children0 mutations h
             = (Return (Some (Score.mk (VBool false) [] (List.length h1))),
                (h1 ++ [PyDict []])%list))
         /\ (residues_consistent scores ->
             (exists s, In s scores /\ Value.truthy (Score.score s) = false) ->
             AndExpr.__call__ children0 mutations h
             = (Return (Some (Score.mk (VBool false) [] (List.length h1))),
                (h1 ++ [PyDict []])%list))
         /\ (residues_consistent scores ->
             (forall s, In s scores -> Value.truthy (Score.score s) = true) ->
             exists residues,
               AndExpr.__call__ children0 mutations h
               = (Return (Some (Score.mk (VBool true) residues (List.length h1))),
                  (h1 ++ [PyDict []])%list)
               /\ forall m, key_in residues m = true
                            <-> exists s, In s scores
                                          /\ key_in (Score.residues s) m = true)).
Proof.
  intros Hne. split.
  - intros pre f post scores h1 e h2 -> Hpre Hf.
    unfold AndExpr.__call__. unfold bind at 1. unfold AndExpr.scores in *.
    erewrite map_M_raise; [reflexivity | exact Hpre |].
    unfold bind. now rewrite Hf.
  - intros scores h1 Hscores.
    assert (Hcall : AndExpr.__call__ children0 mutations h
                    = let (r, h2) := AndExpr.loop [] scores h1 in
                      (match r with
                       | Return s => Return (Some s)
                       | Raise e => Raise e
                       end, h2)).
    { unfold AndExpr.__call__, bind. rewrite Hscores.
      destruct scores as [| s scores].
      - apply map_M_length in Hscores.
        destruct children0; [congruence | discriminate].
      - unfold ret.
        now destruct (AndExpr.loop [] (s :: scores) h1) as [[s' | e] h2]. }
    split; [| split].
    + intros s rest -> Hs. rewrite Hcall. cbn [AndExpr.loop]. unfold bind, lift.
      rewrite union_nil_l, Hs. reflexivity.
    + intros Hc [s [Hin Hs]]. rewrite Hcall.
      rewrite AndExpr_loop_spec; [| intros; apply consistent_nil_l | exact Hc].
      assert (E : forallb (fun s => Value.truthy (Score.score s)) scores = false).
      { destruct (forallb _ scores) eqn:E; [| reflexivity].
        rewrite forallb_forall in E. specialize (E s Hin). congruence. }
      now rewrite E.
    + intros Hc Hall. rewrite Hcall.
      rewrite AndExpr_loop_spec; [| intros; apply consistent_nil_l | exact Hc].
      rewrite (proj2 (forallb_forall _ scores) Hall).
      eexists. split; [reflexivity |].
      intros m. rewrite key_in_union_all. cbn. split; [| now right].
      now intros [H | H].
Qed.

Lemma AndExpr_call_spec_witness :
  AndExpr.__call__
    [BoolFalse;
     AsiMutations.__call__ (MutationSet.mk 1 [Mutation.mk 1 "G" None] None)]
    [MutationSet.mk 2 [Mutation.mk 2 "G" None] None] []
  = (Raise (MissingPositionError "Missing position 1."), [PyDict []])
  /\ AndExpr.__call__
       [BoolFalse;
        AsiMutations.__call__ (MutationSet.mk 1 [Mutation.mk 1 "G" None] None)]
       [MutationSet.mk 1 [Mutation.mk 1 "G" None] None] []
     = (Return (Some (Score.mk (VBool false) [] 2%nat)),
        [PyDict []; PyDict []; PyDict []])
  /\ AndExpr.__call__
       [AsiMutations.__call__ (MutationSet.mk 1 [Mutation.mk 1 "G" None] None);
        BoolFalse]
       [MutationSet.mk 1 [Mutation.mk 1 "G" None] None] []
     = (Return (Some (Score.mk (VBool false) [] 2%nat)),
        [PyDict []; PyDict []; PyDict []])
  /\ exists residues,
      AndExpr.__call__
        [BoolTrue;
         AsiMutations.__call__ (MutationSet.mk 1 [Mutation.mk 1 "G" None] None)]
        [MutationSet.mk 1 [Mutation.mk 1 "G" None] None] []
      = (Return (Some (Score.mk (VBool true) residues 2%nat)),
         [PyDict []; PyDict []; PyDict []])
      /\ forall m,
          key_in residues m = true
          <-> exists s,
              In s [Score.mk (VBool true) [] 0%nat;
                    Score.mk (VBool true) [Mutation.mk 1 "G" None] 1%nat]
              /\ key_in (Score.residues s) m = true.
Proof.
  split; [| split; [| split]].
  - refine (proj1 (AndExpr_call_spec
                     [BoolFalse;
                      AsiMutations.__call__
                        (MutationSet.mk 1 [Mutation.mk 1 "G" None] None)]
                     [MutationSet.mk 2 [Mutation.mk 2 "G" None] None] [] _)
              [BoolFalse]
              (AsiMutations.__call__
                 (MutationSet.mk 1 [Mutation.mk 1 "G" None] None))
              [] [Score.mk (VBool false) [] 0%nat] [PyDict []]
              (MissingPositionError "Missing position 1.") [PyDict []]
              eq_refl eq_refl eq_refl).
    discriminate.
  - refine (proj1 (proj2 (AndExpr_call_spec
                            [BoolFalse;
                             AsiMutations.__call__
                               (MutationSet.mk 1 [Mutation.mk 1 "G" None] None)]
                            [MutationSet.mk 1 [Mutation.mk 1 "G" None] None] [] _)
                     [Score.mk (VBool false) [] 0%nat;
                      Score.mk (VBool true) [Mutation.mk 1 "G" None] 1%nat]
                     [PyDict []; PyDict []] eq_refl)
              _ _ eq_refl eq_refl).
    discriminate.
  - refine (proj1 (proj2 (proj2 (AndExpr_call_spec
                                   [AsiMutations.__call__
                                      (MutationSet.mk 1 [Mutation.mk 1 "G" None]
                                         None);
                                    BoolFalse]
                                   [MutationSet.mk 1 [Mutation.mk 1 "G" None] None]
                                   [] _)
                            [Score.mk (VBool true) [Mutation.mk 1 "G" None] 0%nat;
                             Score.mk (VBool false) [] 1%nat]
                            [PyDict []; PyDict []] eq_refl))
              _ (ex_intro _ (Score.mk (VBool false) [] 1%nat)
                   (conj (or_intror (or_introl eq_refl)) eq_refl))).
    + discriminate.
    + repeat constructor. apply consistent_nil_r.
  - refine (proj2 (proj2 (proj2 (AndExpr_call_spec
                                   [BoolTrue;
                                    AsiMutations.__call__
                                      (MutationSet.mk 1 [Mutation.mk 1 "G" None]
                                         None)]
                                   [MutationSet.mk 1 [Mutation.mk 1 "G" None] None]
                                   [] _)
                            [Score.mk (VBool true) [] 0%nat;
                             Score.mk (VBool true) [Mutation.mk 1 "G" None] 1%nat]
                            [PyDict []; PyDict []] eq_refl))
              _ _).
    + discriminate.
    + repeat constructor. apply consistent_nil_l.
    + intros s [<- | [<- | []]]; reflexivity.
Defined.

(** C7, as the claim has it, fails: the children [FALSE] and [1G] on the
    calls [2G], where position 1 is missing.  The first child is false, and
    the call does not return [False]: the second child is called all the
    same and its [MissingPositionError] is raised.  So the result of
    [[false, X]] is not [False] regardless of [X]. *)
Lemma AndExpr_false_then_missing_position :
  (exists g,
      AsiMutations.__init__ ["1"; "G"] = Return g
      /\ run (AndExpr.__call__ [BoolFalse; AsiMutations.__call__ g]) "2G"
         = Raise (MissingPositionError "Missing position 1."))
  /\ AndExpr.__call__
       [BoolFalse;
        AsiMutations.__call__ (MutationSet.mk 1 [Mutation.mk 1 "G" None] None)]
       [MutationSet.mk 2 [Mutation.mk 2 "G" None] None] []
     = (Raise (MissingPositionError "Missing position 1."), [PyDict []])
  /\ ~ (forall (X : callable) (mutations : env) (h : heap),
           exists s h',
             AndExpr.__call__ [BoolFalse; X] mutations h = (Return (Some s), h')
             /\ Score.score s = VBool false
             /\ Score.residues s = []).
Proof.
  split; [| split].
  - eexists. split; reflexivity.
  - reflexivity.
  - intros H.
    destruct (H (AsiMutations.__call__
                   (MutationSet.mk 1 [Mutation.mk 1 "G" None] None))
                [MutationSet.mk 2 [Mutation.mk 2 "G" None] None] [])
      as (s & h' & Hcall & _).
    discriminate Hcall.
Qed.

(** ** [ScoreList.__call__] *)

Lemma set_nth_last (h : heap) (x o : pyobj) :
  set_nth (h ++ [x]) (List.length h) o = h ++ [o].
Proof. induction h as [| y h IH]; cbn; [reflexivity | now rewrite IH]. Qed.

Lemma nth_error_last (h : heap) (x : pyobj) :
  nth_error (h ++ [x]) (List.length h) = Some x.
Proof. induction h as [| y h IH]; cbn; [reflexivity | exact IH]. Qed.

Lemma nth_error_old (h : heap) (x o : pyobj) (a : addr) :
  nth_error h a = Some o -> nth_error (h ++ [x]) a = Some o.
Proof.
  intros H. rewrite nth_error_app1; [exact H |].
  apply nth_error_Some. congruence.
Qed.

(** The loop [for score in scores: flags.update(score.flags)] on the fresh
    dictionary at the end of the heap. *)
Lemma flags_update_loop (h1 : heap) (dicts : list addr) :
  (forall a, In a dicts -> exists kv, nth_error h1 a = Some (PyDict kv)) ->
  forall d, exists d',
    for_each dicts
      (fun a =>
         other <- load_dict a ;;
         d <- load_dict (List.length h1) ;;
         store (List.length h1) (PyDict (ScoreList.dict_update d other)))%heap
      (h1 ++ [PyDict d])
    = (Return tt, h1 ++ [PyDict d']).
Proof.
  induction dicts as [| a dicts IH]; intros H d; cbn [for_each].
  - exists d. reflexivity.
  - destruct (H a (or_introl eq_refl)) as [kv Hkv].
    destruct (IH (fun a' Ha' => H a' (or_intror Ha'))
                (ScoreList.dict_update d kv)) as [d' Hd'].
    exists d'. unfold bind at 1. unfold bind at 1. unfold load_dict at 1.
    rewrite (nth_error_old _ _ _ _ Hkv).
    unfold bind at 1. unfold load_dict at 1. rewrite nth_error_last.
    unfold store at 1. rewrite set_nth_last. exact Hd'.
Qed.

Lemma attrs_Some {A : Type} (f : Score.t -> A) (scores : list Score.t) :
  ScoreList.attrs f (map Some scores) = Return (map f scores).
Proof.
  induction scores as [| s scores IH]; cbn [map ScoreList.attrs ScoreList.attr];
    [reflexivity |].
  now rewrite IH.
Qed.

Lemma reduce_union_fold (scores : list Score.t) :
  forall acc,
    (forall s, In s scores -> consistent acc (Score.residues s)) ->
    residues_consistent scores ->
    fold_left (fun acc y => (a <- acc ;; MutSet.union a y)%exc)
      (map Score.residues scores) (Return acc)
    = Return (union_all acc scores).
Proof.
  induction scores as [| s scores IH]; intros acc Hacc Hpair;
    cbn [map fold_left union_all]; [reflexivity |].
  cbn [exc_bind]. rewrite union_ok by (apply Hacc; now left).
  inversion Hpair as [| ? ? Hhead Htail]; subst.
  apply IH; [| exact Htail].
  intros s' Hs'. apply consistent_app_l.
  - apply Hacc. now right.
  - apply consistent_filter_l. rewrite Forall_forall in Hhead. now apply Hhead.
Qed.

Lemma Value_sum_fold (l : list value) :
  forall z, fold_left Value.add l (VInt z)
            = VInt (z + fold_right Z.add 0 (map Value.num l)).
Proof.
  induction l as [| x l IH]; intros z; cbn [fold_left map fold_right].
  - now rewrite Z.add_0_r.
  - unfold Value.add at 2. cbn [Value.num]. rewrite IH. f_equal. lia.
Qed.

Lemma Value_sum_spec (l : list value) :
  Value.sum l = VInt (fold_right Z.add 0 (map Value.num l)).
Proof. unfold Value.sum. now rewrite Value_sum_fold. Qed.

(** The falsy values are those that count for 0, so leaving them out
    does not change a sum. *)
Lemma sum_truthy (l : list value) :
  fold_right Z.add 0 (map Value.num (List.filter Value.truthy l))
  = fold_right Z.add 0 (map Value.num l).
Proof.
  induction l as [| x l IH]; cbn [List.filter map fold_right]; [reflexivity |].
  unfold Value.truthy at 1.
  destruct (Z.eqb_spec (Value.num x) 0) as [E | E]; cbn [negb map fold_right].
  - rewrite IH. lia.
  - now rewrite IH.
Qed.

Lemma Value_max_fold (l : list value) :
  forall x,
    let v := fold_left (fun m y => if Value.gtb y m then y else m) l x in
    In v (x :: l) /\ forall y, In y (x :: l) -> Value.num y <= Value.num v.
Proof.
  induction l as [| y l IH]; intros x; cbn [fold_left].
  - split; [now left | intros ? [<- | []]; lia].
  - destruct (IH (if Value.gtb y x then y else x)) as [Hin Hle].
    split.
    + destruct Hin as [Hin | Hin]; [| right; now right].
      rewrite <- Hin. destruct (Value.gtb y x); [right; now left | now left].
    + assert (Hx : Value.num x <= Value.num (if Value.gtb y x then y else x)
                   /\ Value.num y <= Value.num (if Value.gtb y x then y else x)).
      { unfold Value.gtb.
        destruct (Z.ltb_spec (Value.num x) (Value.num y)); lia. }
      intros z [<- | [<- | Hz]].
      * etransitivity; [apply Hx | apply Hle; now left].
      * etransitivity; [apply Hx | apply Hle; now left].
      * apply Hle. now right.
Qed.

Lemma Value_min_fold (l : list value) :
  forall x,
    let v := fold_left (fun m y => if Value.ltb y m then y else m) l x in
    In v (x :: l) /\ forall y, In y (x :: l) -> Value.num v <= Value.num y.
Proof.
  induction l as [| y l IH]; intros x; cbn [fold_left].
  - split; [now left | intros ? [<- | []]; lia].
  - destruct (IH (if Value.ltb y x then y else x)) as [Hin Hle].
    split.
    + destruct Hin as [Hin | Hin]; [| right; now right].
      rewrite <- Hin. destruct (Value.ltb y x); [right; now left | now left].
    + assert (Hx : Value.num (if Value.ltb y x then y else x) <= Value.num x
                   /\ Value.num (if Value.ltb y x then y else x) <= Value.num y).
      { unfold Value.ltb.
        destruct (Z.ltb_spec (Value.num y) (Value.num x)); lia. }
      intros z [<- | [<- | Hz]].
      * etransitivity; [apply Hle; now left | apply Hx].
      * etransitivity; [apply Hle; now left | apply Hx].
      * apply Hle. now right.
Qed.

(** The aggregate of a non-empty list of matched scores. *)
Lemma ScoreList_apply_spec (f : ScoreList.func) (x : value) (l : list value) :
  exists v,
    ScoreList.apply f (x :: l) = Return v
    /\ match f with
       | ScoreList.Sum =>
           v = VInt (fold_right Z.add 0 (map Value.num (x :: l)))
       | ScoreList.Max =>
           In v (x :: l) /\ forall y, In y (x :: l) -> Value.num y <= Value.num v
       | ScoreList.Min =>
           In v (x :: l) /\ forall y, In y (x :: l) -> Value.num v <= Value.num y
       end.
Proof.
  destruct f; cbn [ScoreList.apply Value.max Value.min]; eexists;
    (split; [reflexivity |]).
  - apply Value_max_fold.
  - apply Value_min_fold.
  - apply Value_sum_spec.
Qed.

(** C8.  The first child selects the aggregate: [MAX], [MIN], or the sum
    when it is not a keyword.  When the items evaluate to the scores
    [scores]: the items with a truthy score are the matched ones; without a
    matched item the result is [False]; otherwise the result is the sum of
    the matched scores (which is the sum of all of them), the largest
    matched score for [MAX], the smallest for [MIN]; the residues are the
    union over all items.  The rule
    [SCORE FROM (MAX (100G => -10, 101D => -20, 102D => 30))] on the calls
    [100G 101D 102d] yields -10. *)
Theorem ScoreList_call_spec :
  (forall rest,
      ScoreList.select (TStr "MAX" :: rest) = Return (ScoreList.Max, rest)
      /\ ScoreList.select (TStr "MIN" :: rest) = Return (ScoreList.Min, rest)
      /\ forall c, ScoreList.select (TCall c :: rest)
                   = Return (ScoreList.Sum, TCall c :: rest))
  /\ (forall (children terms : list tok) (f : ScoreList.func) (mutations : env)
             (h h1 : heap) (scores : list Score.t),
         ScoreList.select children = Return (f, terms) ->
         map_M (fun c => call c mutations) terms h = (Return (map Some scores), h1) ->
         scores <> [] ->
         residues_consistent scores ->
         (forall s, In s scores ->
                    exists kv, nth_error h1 (Score.flags s) = Some (PyDict kv)) ->
         exists v residues d,
           ScoreList.__call__ children mutations h
           = (Return (Some (Score.mk v residues (List.length h1))),
              h1 ++ [PyDict d])
           /\ (forall m, key_in residues m = true
                         <-> exists s, In s scores
                                       /\ key_in (Score.residues s) m = true)
           /\ (List.filter Value.truthy (map Score.score scores) = [] ->
               v = VBool false)
           /\ (List.filter Value.truthy (map Score.score scores) <> [] ->
               match f with
               | ScoreList.Sum =>
                   v = VInt (fold_right Z.add 0
                               (map Value.num
                                  (List.filter Value.truthy (map Score.score scores))))
                   /\ v = VInt (fold_right Z.add 0
                                  (map Value.num (map Score.score scores)))
               | ScoreList.Max =>
                   In v (List.filter Value.truthy (map Score.score scores))
                   /\ forall y,
                       In y (List.filter Value.truthy (map Score.score scores)) ->
                       Value.num y <= Value.num v
               | ScoreList.Min =>
                   In v (List.filter Value.truthy (map Score.score scores))
                   /\ forall y,
                       In y (List.filter Value.truthy (map Score.score scores)) ->
                       Value.num v <= Value.num y
               end))
  /\ exists g d d' vc s h',
      AsiMutations.__init__ ["100"; "G"] = Return g
      /\ AsiMutations.__init__ ["101"; "D"] = Return d
      /\ AsiMutations.__init__ ["102"; "D"] = Return d'
      /\ VariantCalls.__new__ (Some "100G 101D 102d") None None = Return vc
      /\ AsiScoreCond.__call__
           [ScoreList.__call__
              [TStr "MAX";
               TCall (ScoreExpr.__call__
                        [TCall (AsiMutations.__call__ g); TStr "-"; TStr "10"]);
               TCall (ScoreExpr.__call__
                        [TCall (AsiMutations.__call__ d); TStr "-"; TStr "20"]);
               TCall (ScoreExpr.__call__
                        [TCall (AsiMutations.__call__ d'); TStr "30"])]]
           (VariantCalls.__iter__ vc) []
         = (Return (Some s), h')
      /\ Score.score s = VInt (-10).
Proof.
  split; [| split].
  - intros rest. repeat split.
  - intros children terms f mutations h h1 scores Hsel Hmap Hne Hpair Hflags.
    destruct scores as [| s0 scores]; [congruence |].
    assert (Hres : ScoreList.reduce_union (map Score.residues (s0 :: scores))
                   = Return (union_all (Score.residues s0) scores)).
    { inversion Hpair as [| ? ? Hhead Htail]; subst.
      cbn [map ScoreList.reduce_union]. apply reduce_union_fold; [| exact Htail].
      intros s Hs. rewrite Forall_forall in Hhead. now apply Hhead. }
    destruct (flags_update_loop h1 (map Score.flags (s0 :: scores))) with (d := @nil (string * addr))
      as [d Hd].
    { intros a Ha. apply in_map_iff in Ha as [s [<- Hs]]. now apply Hflags. }
    set (matched := List.filter Value.truthy (map Score.score (s0 :: scores))) in *.
    assert (Hv : exists v,
               match matched with
               | [] => ret (VBool false)
               | _ :: _ => lift (ScoreList.apply f matched)
               end (h1 ++ [PyDict d]) = (Return v, h1 ++ [PyDict d])
               /\ (matched = [] -> v = VBool false)
               /\ (matched <> [] ->
                   match f with
                   | ScoreList.Sum =>
                       v = VInt (fold_right Z.add 0 (map Value.num matched))
                   | ScoreList.Max =>
                       In v matched
                       /\ forall y, In y matched -> Value.num y <= Value.num v
                   | ScoreList.Min =>
                       In v matched
                       /\ forall y, In y matched -> Value.num v <= Value.num y
                   end)).
    { destruct matched as [| x l].
      - exists (VBool false). repeat split; congruence.
      - destruct (ScoreList_apply_spec f x l) as [v [Hv1 Hv2]].
        exists v. unfold lift. rewrite Hv1.
        repeat split; [discriminate | intros _; exact Hv2]. }
    destruct Hv as (v & Hv1 & Hv2 & Hv3).
    exists v, (union_all (Score.residues s0) scores), d.
    split; [| split; [| split]].
    + unfold ScoreList.__call__.
      unfold bind at 1. unfold lift at 1. rewrite Hsel.
      unfold bind at 1. rewrite Hmap.
      unfold bind at 1. unfold lift at 1. rewrite attrs_Some.
      fold matched.
      unfold bind at 1. unfold lift at 1. rewrite attrs_Some.
      unfold bind at 1. unfold lift at 1. rewrite Hres.
      unfold bind at 1. unfold alloc at 1.
      unfold bind at 1. unfold lift at 1. rewrite attrs_Some.
      unfold bind at 1. rewrite Hd.
      unfold bind at 1. rewrite Hv1.
      reflexivity.
    + intros m. rewrite key_in_union_all. split.
      * intros [H | [s [Hs H]]]; [exists s0 | exists s];
          (split; [(now left) || (now right) | exact H]).
      * intros [s [[<- | Hs] H]]; [now left | right; eauto].
    + exact Hv2.
    + intros Hm. specialize (Hv3 Hm). destruct f; try exact Hv3.
      split; [exact Hv3 |]. rewrite Hv3. unfold matched. now rewrite sum_truthy.
  - do 6 eexists. repeat split.
Qed.

Lemma ScoreList_call_spec_witness :
  exists v residues d,
    ScoreList.__call__
      [TStr "MAX";
       TCall (ScoreExpr.__call__ [TCall BoolTrue; TStr "-"; TStr "10"]);
       TCall (ScoreExpr.__call__ [TCall BoolTrue; TStr "30"])]
      [] []
    = (Return (Some (Score.mk v residues 4%nat)),
       [PyDict []; PyDict []; PyDict []; PyDict []; PyDict d])
    /\ In v [VInt (-10); VInt 30]
    /\ forall y, In y [VInt (-10); VInt 30] -> Value.num y <= Value.num v.
Proof.
  destruct (proj1 (proj2 ScoreList_call_spec)
              [TStr "MAX";
               TCall (ScoreExpr.__call__ [TCall BoolTrue; TStr "-"; TStr "10"]);
               TCall (ScoreExpr.__call__ [TCall BoolTrue; TStr "30"])]
              [TCall (ScoreExpr.__call__ [TCall BoolTrue; TStr "-"; TStr "10"]);
               TCall (ScoreExpr.__call__ [TCall BoolTrue; TStr "30"])]
              ScoreList.Max [] [] [PyDict []; PyDict []; PyDict []; PyDict []]
              [Score.mk (VInt (-10)) [] 0%nat; Score.mk (VInt 30) [] 2%nat]
              eq_refl eq_refl)
    as (v & residues & d & Hcall & _ & _ & Hmax).
  - discriminate.
  - repeat constructor. apply consistent_nil_l.
  - intros s [<- | [<- | []]]; eexists; reflexivity.
  - exists v, residues, d. split; [exact Hcall |].
    apply Hmax. discriminate.
Defined.

(** ** Text of a mutation set *)

Lemma to_int_not_nil (z : Z) :
  Z.to_int z <> Decimal.Pos Decimal.Nil /\ Z.to_int z <> Decimal.Neg Decimal.Nil.
Proof.
  split; intros H; pose proof (DecimalZ.of_to z) as E; rewrite H in E;
    cbn in E; subst z; discriminate.
Qed.

(** [int(str(z))] is [z]. *)
Lemma int_str (z : Z) : Py.int (Py.str z) = Return z.
Proof.
  unfold Py.int, Py.str. destruct (to_int_not_nil z) as [H1 H2].
  rewrite NilZero.isi by assumption. now rewrite DecimalZ.of_to.
Qed.

Lemma uint_digits (d : Decimal.uint) :
  Forall (fun c => Py.is_digit c = true)
    (list_ascii_of_string (NilEmpty.string_of_uint d)).
Proof.
  induction d; cbn [NilEmpty.string_of_uint list_ascii_of_string];
    constructor; (reflexivity || assumption).
Qed.

(** The text of a position that is not negative: one digit at least, and
    digits only. *)
Lemma str_digits (z : Z) :
  0 <= z ->
  Py.str z <> ""%string
  /\ Forall (fun c => Py.is_digit c = true) (list_ascii_of_string (Py.str z)).
Proof.
  intros Hz.
  assert (H : forall d,
             NilZero.string_of_uint d <> ""%string
             /\ Forall (fun c => Py.is_digit c = true)
                  (list_ascii_of_string (NilZero.string_of_uint d))).
  { intros d. split.
    - destruct d; discriminate.
    - destruct d; try apply (uint_digits (_ d)). repeat constructor. }
  unfold Py.str. destruct z as [| p | p]; [| | lia]; apply H.
Qed.

Lemma span_app (p : ascii -> bool) (d rest : string) :
  Forall (fun c => p c = true) (list_ascii_of_string d) ->
  match rest with String c _ => p c = false | EmptyString => True end ->
  Py.span p (d ++ rest)%string = (d, rest).
Proof.
  intros Hd Hrest. induction d as [| a d IH]; cbn [String.append Py.span].
  - destruct rest as [| c r]; [reflexivity |]. cbn [Py.span]. now rewrite Hrest.
  - cbn [list_ascii_of_string] in Hd. inversion Hd as [| ? ? Ha Hd']; subst.
    rewrite Ha, (IH Hd'). reflexivity.
Qed.

Lemma contains_In (s : string) (c : ascii) :
  Py.contains s c = true <-> In c (list_ascii_of_string s).
Proof.
  induction s as [| a s IH]; cbn [Py.contains list_ascii_of_string In].
  - split; [discriminate | tauto].
  - rewrite orb_true_iff, Ascii.eqb_eq, IH. tauto.
Qed.

Lemma filter_chars (p : ascii -> bool) (s : string) :
  list_ascii_of_string (Py.filter p s) = List.filter p (list_ascii_of_string s).
Proof.
  induction s as [| a s IH]; cbn [Py.filter list_ascii_of_string List.filter];
    [reflexivity |].
  destruct (p a); cbn [list_ascii_of_string]; now rewrite IH.
Qed.

Lemma length_string_of_list_ascii (l : list ascii) :
  String.length (string_of_list_ascii l) = List.length l.
Proof. induction l as [| c l IH]; cbn; [reflexivity | now rewrite IH]. Qed.

Lemma insert_perm {A : Type} (leb : A -> A -> bool) (x : A) (l : list A) :
  Permutation (Py.insert leb x l) (x :: l).
Proof.
  induction l as [| y l IH]; cbn [Py.insert]; [reflexivity |].
  destruct (leb y x); [| reflexivity].
  rewrite IH. apply perm_swap.
Qed.

(** [sorted(l)] holds the elements of [l]. *)
Lemma sorted_perm {A : Type} (leb : A -> A -> bool) (l : list A) :
  Permutation (Py.sorted leb l) l.
Proof.
  unfold Py.sorted.
  assert (H : forall acc, Permutation
                            (fold_left (fun acc x => Py.insert leb x acc) l acc)
                            (acc ++ l)).
  { induction l as [| x l IH]; intros acc; cbn [fold_left].
    - now rewrite app_nil_r.
    - rewrite IH, insert_perm. apply Permutation_middle. }
  apply (H []).
Qed.

Lemma AMINO_ALPHABET_upper :
  Forall (fun c => Py.is_upper c = true) (list_ascii_of_string AMINO_ALPHABET).
Proof. repeat constructor. Qed.

Lemma AMINO_ALPHABET_nodup : NoDup (list_ascii_of_string AMINO_ALPHABET).
Proof.
  cbn. repeat (constructor; [cbn; intuition discriminate |]). constructor.
Qed.

Lemma is_upper_is_call (c : ascii) : Py.is_upper c = true -> Py.is_call c = true.
Proof. intros H. unfold Py.is_call. rewrite H. apply orb_true_r. Qed.

Lemma is_call_not_digit (c : ascii) : Py.is_call c = true -> Py.is_digit c = false.
Proof.
  unfold Py.is_call, Py.is_digit, Py.is_upper.
  intros H. apply orb_true_iff in H as [H | H].
  - apply orb_true_iff in H as [H | H]; apply Ascii.eqb_eq in H; now subst.
  - apply andb_true_iff in H as [H _]. apply Nat.leb_le in H.
    apply andb_false_iff. right. apply Nat.leb_gt. lia.
Qed.

Lemma is_call_not_bang (c : ascii) : Py.is_call c = true -> Ascii.eqb "!" c = false.
Proof.
  intros H. destruct (Ascii.eqb_spec "!"%char c) as [<- | _]; [discriminate H | reflexivity].
Qed.

Lemma is_digit_not_upper (c : ascii) : Py.is_digit c = true -> Py.is_upper c = false.
Proof.
  unfold Py.is_digit, Py.is_upper. intros H.
  apply andb_true_iff in H as [_ H]. apply Nat.leb_le in H.
  apply andb_false_iff. left. apply Nat.leb_gt. lia.
Qed.

(** The regular expression on a text put together from a wild type, the
    digits of a position, an optional exclamation mark and variants. *)
Lemma re_match_parts (wt : option ascii) (digits : string) (negative : bool)
    (variants : string) :
  match wt with Some w => Py.is_upper w = true | None => True end ->
  digits <> ""%string ->
  Forall (fun c => Py.is_digit c = true) (list_ascii_of_string digits) ->
  variants <> ""%string ->
  Forall (fun c => Py.is_call c = true) (list_ascii_of_string variants) ->
  MutationSet.re_match
    ((match wt with Some w => String w "" | None => "" end)
     ++ digits ++ (if negative then "!" else "") ++ variants)%string
  = Some (wt, digits, negative, variants).
Proof.
  intros Hwt Hd Hdigits Hv Hvariants.
  destruct digits as [| d0 digits]; [congruence |].
  destruct variants as [| v0 variants]; [congruence |].
  pose proof Hdigits as Hd0. cbn [list_ascii_of_string] in Hd0.
  inversion Hd0 as [| ? ? Hd0' _]; subst.
  pose proof Hvariants as Hv0. cbn [list_ascii_of_string] in Hv0.
  inversion Hv0 as [| ? ? Hv0' _]; subst.
  unfold MutationSet.re_match.
  assert (E1 : Py.optional Py.is_upper
                 ((match wt with Some w => String w "" | None => "" end)
                  ++ String d0 digits ++ (if negative then "!" else "")
                  ++ String v0 variants)%string
               = (wt, (String d0 digits ++ (if negative then "!" else "")
                       ++ String v0 variants)%string)).
  { destruct wt as [w |]; cbn [String.append Py.optional].
    - now rewrite Hwt.
    - now rewrite (is_digit_not_upper _ Hd0'). }
  rewrite E1.
  rewrite (span_app Py.is_digit (String d0 digits)); [| exact Hdigits |].
  2:{ destruct negative; cbn [String.append]; [reflexivity |].
      now apply is_call_not_digit. }
  assert (E2 : Py.optional (Ascii.eqb "!")
                 ((if negative then "!" else "") ++ String v0 variants)%string
               = (if negative then Some "!"%char else None, String v0 variants)).
  { destruct negative; cbn [String.append Py.optional]; [reflexivity |].
    now rewrite (is_call_not_bang _ Hv0'). }
  rewrite E2.
  replace (String v0 variants) with (String v0 variants ++ "")%string at 1.
  2:{ clear. generalize (String v0 variants). intros s.
      induction s as [| c s IH]; cbn; [reflexivity | now rewrite IH]. }
  rewrite (span_app Py.is_call (String v0 variants) "" Hvariants I).
  cbn [Py.at_end]. now destruct negative.
Qed.

Lemma append_assoc (a b c : string) :
  ((a ++ b) ++ c)%string = (a ++ (b ++ c))%string.
Proof. induction a as [| x a IH]; cbn; [reflexivity | now rewrite IH]. Qed.

Lemma Py_filter_ext (p q : ascii -> bool) (s : string) :
  (forall c, p c = q c) -> Py.filter p s = Py.filter q s.
Proof.
  intros H. induction s as [| a s IH]; cbn [Py.filter]; [reflexivity |].
  now rewrite H, IH.
Qed.

Lemma existsb_eqb_In (c : ascii) (l : list ascii) :
  existsb (Ascii.eqb c) l = true <-> In c l.
Proof.
  rewrite existsb_exists. split.
  - intros [x [Hx E]]. apply Ascii.eqb_eq in E. now subst.
  - intros H. exists c. split; [exact H | apply Ascii.eqb_refl].
Qed.

(** In the sorted text of the variants there are the variants. *)
Lemma contains_sorted (l : list ascii) (c : ascii) :
  Py.contains (string_of_list_ascii (Py.sorted Ascii.leb l)) c
  = existsb (Ascii.eqb c) l.
Proof.
  apply eq_true_iff_eq.
  rewrite contains_In, list_ascii_of_string_of_list_ascii, existsb_eqb_In.
  split; apply Permutation_in;
    [apply sorted_perm | symmetry; apply sorted_perm].
Qed.

(** A list of mutations with pairwise different keys is its own set. *)
Lemma add_all_id (l : list Mutation.t) :
  forall s, NoDup (map Mutation.__hash__ (s ++ l)) -> add_all s l = s ++ l.
Proof.
  induction l as [| x l IH]; intros s Hnd; cbn [add_all fold_left].
  - now rewrite app_nil_r.
  - destruct (key_in s x) eqn:E.
    + exfalso. apply key_in_iff in E.
      rewrite map_app in Hnd. cbn [map] in Hnd.
      apply NoDup_remove_2 in Hnd. apply Hnd, in_or_app. now left.
    + fold (add_all (s ++ [x]) l). rewrite IH; rewrite <- app_assoc; trivial.
Qed.

Lemma map_mk_nodup (p : Z) (wt : option ascii) (l : list ascii) :
  NoDup l ->
  NoDup (map Mutation.__hash__ (map (fun v => Mutation.mk p v wt) l)).
Proof.
  intros H. rewrite map_map. cbn [Mutation.__hash__ Mutation.pos Mutation.variant].
  induction H as [| c l Hc Hl IH]; cbn [map]; constructor; [| exact IH].
  intros Hin. apply in_map_iff in Hin as [c' [[= ->] Hc']]. contradiction.
Qed.

(** The constructor on a text put together from the parts. *)
Lemma MutationSet_new_text (wt : option ascii) (p : Z) (negative : bool)
    (variants : string) :
  match wt with Some w => Py.is_upper w = true | None => True end ->
  0 <= p ->
  variants <> ""%string ->
  Forall (fun c => Py.is_call c = true) (list_ascii_of_string variants) ->
  NoDup (list_ascii_of_string
           (if negative then MutationSet.complement variants else variants)) ->
  MutationSet.__new__
    (Some ((match wt with Some w => String w "" | None => "" end)
           ++ Py.str p ++ (if negative then "!" else "") ++ variants)%string)
    None None None None None
  = Return (MutationSet.mk p
              (map (fun v => Mutation.mk p v wt)
                 (list_ascii_of_string
                    (if negative then MutationSet.complement variants
                     else variants)))
              wt).
Proof.
  intros Hwt Hp Hv Hvs Hnd.
  destruct (str_digits p Hp) as [Hd Hds].
  pose proof (re_match_parts wt (Py.str p) negative variants Hwt Hd Hds Hv Hvs)
    as Hre.
  unfold MutationSet.__new__.
  destruct ((match wt with Some w => String w "" | None => "" end)
            ++ Py.str p ++ (if negative then "!" else "") ++ variants)%string
    as [| c0 text] eqn:Etext; [discriminate Hre |].
  rewrite Hre, int_str. cbn [exc_bind].
  destruct variants as [| v0 variants]; [congruence |].
  set (vs := if negative then MutationSet.complement (String v0 variants)
             else String v0 variants) in *.
  unfold MutationSet.from_variants, MutSet.frozenset. fold vs.
  rewrite update_ok.
  - cbn [exc_bind]. rewrite add_all_id; [reflexivity |].
    cbn [app]. now apply map_mk_nodup.
  - intros e x He Hx _. cbn [app] in He, Hx.
    apply in_map_iff in He as [v1 [<- _]].
    apply in_map_iff in Hx as [v2 [<- _]].
    unfold agree. cbn. destruct wt; [apply Ascii.eqb_refl | reflexivity].
Qed.

Lemma set_eq_ok (a b : MutSet.t) :
  consistent b a -> List.length a = List.length b ->
  (forall x, In x a -> key_in b x = true) ->
  MutSet.eq a b = Return true.
Proof.
  intros Hc Hlen Hin. unfold MutSet.eq.
  rewrite Hlen, Nat.eqb_refl. cbn [negb].
  rewrite issubset_ok by exact Hc. f_equal.
  apply forallb_forall. exact Hin.
Qed.

(** A mutation set equals the set with the same position, wild type and
    variants. *)
Lemma MutationSet_eq_variants (s : MutationSet.t) (l : list ascii) :
  MutationSet_wf s ->
  List.length l = List.length (MutationSet.mutations s) ->
  (forall c, In c l <-> In c (map Mutation.variant (MutationSet.mutations s))) ->
  let s' := MutationSet.mk (MutationSet.pos s)
              (map (fun v => Mutation.mk (MutationSet.pos s) v
                               (MutationSet.wildtype s)) l)
              (MutationSet.wildtype s) in
  MutationSet.__eq__ s' s = Return true /\ MutationSet.__eq__ s s' = Return true.
Proof.
  intros Hwf Hlen Hin s'.
  assert (Hc : consistent (MutationSet.mutations s) (MutationSet.mutations s')).
  { intros e x He Hx _. cbn in Hx. apply in_map_iff in Hx as [v [<- _]].
    unfold agree. cbn.
    destruct (wf_wildtype _ Hwf e He) as [-> | ->]; [reflexivity |].
    destruct (MutationSet.wildtype s); [apply Ascii.eqb_refl | reflexivity]. }
  assert (H1 : MutSet.eq (MutationSet.mutations s') (MutationSet.mutations s)
               = Return true).
  { apply set_eq_ok; [exact Hc | cbn; now rewrite length_map |].
    intros x Hx. cbn in Hx. apply in_map_iff in Hx as [v [<- Hv]].
    apply Hin, in_map_iff in Hv as [m [Hm1 Hm2]].
    unfold key_in. apply existsb_exists. exists m. split; [exact Hm2 |].
    apply same_hash_true. cbn. split; [now apply (wf_pos _ Hwf) | exact Hm1]. }
  assert (H2 : MutSet.eq (MutationSet.mutations s) (MutationSet.mutations s')
               = Return true).
  { apply set_eq_ok; [now apply consistent_sym | cbn; now rewrite length_map |].
    intros x Hx. unfold key_in. apply existsb_exists.
    exists (Mutation.mk (MutationSet.pos s) (Mutation.variant x)
              (MutationSet.wildtype s)).
    split.
    - cbn. apply in_map_iff. eexists. split; [reflexivity |].
      apply Hin, in_map_iff. eauto.
    - apply same_hash_true. cbn. split; [| reflexivity].
      symmetry. now apply (wf_pos _ Hwf). }
  unfold MutationSet.__eq__. cbn [s' MutationSet.pos MutationSet.wildtype
                                  MutationSet.mutations] in *.
  rewrite Z.eqb_refl. cbn [negb].
  destruct (MutationSet.wildtype s) as [w |];
    [rewrite Ascii.eqb_refl; cbn [negb] |]; now split.
Qed.

Lemma string_of_list_ascii_nonempty (l : list ascii) :
  l <> [] -> string_of_list_ascii l <> ""%string.
Proof. destruct l; [congruence | discriminate]. Qed.

Lemma complement_chars (v : string) (c : ascii) :
  In c (list_ascii_of_string (MutationSet.complement v))
  <-> In c (list_ascii_of_string AMINO_ALPHABET)
      /\ ~ In c (list_ascii_of_string v).
Proof.
  unfold MutationSet.complement. rewrite filter_chars, filter_In.
  rewrite negb_true_iff, <- not_true_iff_false, contains_In. tauto.
Qed.

Lemma complement_nodup (v : string) :
  NoDup (list_ascii_of_string (MutationSet.complement v)).
Proof.
  unfold MutationSet.complement. rewrite filter_chars.
  apply NoDup_filter, AMINO_ALPHABET_nodup.
Qed.

Lemma complement_is_call (v : string) :
  Forall (fun c => Py.is_call c = true)
    (list_ascii_of_string (MutationSet.complement v)).
Proof.
  apply Forall_forall. intros c Hc. apply complement_chars in Hc as [Hc _].
  apply is_upper_is_call.
  pose proof AMINO_ALPHABET_upper as H. rewrite Forall_forall in H. now apply H.
Qed.

(** Fewer than 20 different variants leave a letter of the alphabet out. *)
Lemma complement_nonempty (v : string) :
  NoDup (list_ascii_of_string v) ->
  (List.length (list_ascii_of_string v) < 20)%nat ->
  MutationSet.complement v <> ""%string.
Proof.
  intros Hnd Hlen Hempty.
  assert (Hincl : incl (list_ascii_of_string AMINO_ALPHABET)
                    (list_ascii_of_string v)).
  { intros c Hc.
    destruct (in_dec ascii_dec c (list_ascii_of_string v)) as [H | H];
      [exact H |].
    assert (Hin : In c (list_ascii_of_string (MutationSet.complement v)))
      by (apply complement_chars; now split).
    rewrite Hempty in Hin. destruct Hin. }
  apply (NoDup_incl_length AMINO_ALPHABET_nodup) in Hincl.
  cbn in Hincl. lia.
Qed.

(** C3, as the code has it.  For a well-formed mutation set: with at most
    10 variants the text is the wild type (if any), the position and the
    variants in sorted order; with more than 10 it is the wild type, the
    position, an exclamation mark and the letters of the alphabet that are
    no variant of the set.  Parsing the text gives back an equal mutation set
    when the position is not negative, the wild type (if any) is an
    upper-case letter, there is a variant, and the variants are at most 10
    characters among [i], [d] and the upper-case letters, or between 11 and
    19 letters of the amino-acid alphabet. *)
Theorem MutationSet_str_roundtrip (s : MutationSet.t) :
  MutationSet_wf s ->
  ((List.length (MutationSet.mutations s) <= 10)%nat ->
   MutationSet.__str__ s
   = ((match MutationSet.wildtype s with Some w => String w "" | None => "" end)
      ++ Py.str (MutationSet.pos s)
      ++ string_of_list_ascii
           (Py.sorted Ascii.leb
              (map Mutation.variant (MutationSet.mutations s))))%string)
  /\ ((10 < List.length (MutationSet.mutations s))%nat ->
      MutationSet.__str__ s
      = ((match MutationSet.wildtype s with Some w => String w "" | None => "" end)
         ++ Py.str (MutationSet.pos s) ++ "!"
         ++ Py.filter
              (fun c => negb (existsb (Ascii.eqb c)
                                (map Mutation.variant (MutationSet.mutations s))))
              AMINO_ALPHABET)%string)
  /\ (0 <= MutationSet.pos s ->
      match MutationSet.wildtype s with
      | Some w => Py.is_upper w = true
      | None => True
      end ->
      MutationSet.mutations s <> [] ->
      ((List.length (MutationSet.mutations s) <= 10)%nat
       /\ Forall (fun m => Py.is_call (Mutation.variant m) = true)
            (MutationSet.mutations s))
      \/ ((10 < List.length (MutationSet.mutations s) < 20)%nat
          /\ Forall (fun m => In (Mutation.variant m)
                                (list_ascii_of_string AMINO_ALPHABET))
               (MutationSet.mutations s)) ->
      exists s',
        MutationSet.__new__ (Some (MutationSet.__str__ s)) None None None None None
        = Return s'
        /\ MutationSet.__eq__ s' s = Return true
        /\ MutationSet.__eq__ s s' = Return true).
Proof.
  intros Hwf.
  set (vs := map Mutation.variant (MutationSet.mutations s)).
  set (W := match MutationSet.wildtype s with Some w => String w "" | None => "" end).
  set (V := string_of_list_ascii (Py.sorted Ascii.leb vs)).
  assert (Hperm : Permutation (list_ascii_of_string V) vs).
  { unfold V. rewrite list_ascii_of_string_of_list_ascii. apply sorted_perm. }
  assert (Hlen : String.length V = List.length (MutationSet.mutations s)).
  { rewrite <- length_list_ascii_of_string, (Permutation_length Hperm).
    unfold vs. apply length_map. }
  assert (Hsmall : (List.length (MutationSet.mutations s) <= 10)%nat ->
                   MutationSet.__str__ s = (W ++ Py.str (MutationSet.pos s) ++ V)%string).
  { intros H. unfold MutationSet.__str__. fold vs V W. rewrite Hlen.
    destruct (Nat.ltb_spec 10 (List.length (MutationSet.mutations s))); [lia |].
    apply append_assoc. }
  assert (Hlarge : (10 < List.length (MutationSet.mutations s))%nat ->
                   MutationSet.__str__ s
                   = (W ++ Py.str (MutationSet.pos s) ++ "!"
                      ++ MutationSet.complement V)%string).
  { intros H. unfold MutationSet.__str__. fold vs V W. rewrite Hlen.
    destruct (Nat.ltb_spec 10 (List.length (MutationSet.mutations s))); [| lia].
    unfold MutationSet.complement.
    exact (append_assoc W (Py.str (MutationSet.pos s)) _). }
  split; [exact Hsmall | split].
  - intros H. rewrite (Hlarge H). do 3 f_equal.
    unfold MutationSet.complement. apply Py_filter_ext. intros c.
    unfold V. now rewrite contains_sorted.
  - intros Hpos Hwt Hne Hcases.
    assert (Hvs_nodup : NoDup vs) by apply (wf_nodup _ Hwf).
    assert (HV_nodup : NoDup (list_ascii_of_string V))
      by (eapply Permutation_NoDup; [symmetry; exact Hperm | exact Hvs_nodup]).
    assert (Hvs_ne : vs <> []).
    { unfold vs. destruct (MutationSet.mutations s); [congruence | discriminate]. }
    assert (Hfinish : forall l,
               List.length l = List.length (MutationSet.mutations s) ->
               (forall c, In c l <-> In c vs) ->
               MutationSet.__new__ (Some (MutationSet.__str__ s))
                 None None None None None
               = Return (MutationSet.mk (MutationSet.pos s)
                           (map (fun v => Mutation.mk (MutationSet.pos s) v
                                            (MutationSet.wildtype s)) l)
                           (MutationSet.wildtype s)) ->
               exists s',
                 MutationSet.__new__ (Some (MutationSet.__str__ s))
                   None None None None None = Return s'
                 /\ MutationSet.__eq__ s' s = Return true
                 /\ MutationSet.__eq__ s s' = Return true).
    { intros l Hl Hin Hnew. eexists. split; [exact Hnew |].
      now apply MutationSet_eq_variants. }
    destruct Hcases as [[Hle Hcall] | [[Hgt Hlt] Halpha]].
    + apply (Hfinish (list_ascii_of_string V)).
      * rewrite (Permutation_length Hperm). apply length_map.
      * intros c. split; apply Permutation_in; [exact Hperm | now symmetry].
      * rewrite (Hsmall Hle).
        apply (MutationSet_new_text (MutationSet.wildtype s)
                 (MutationSet.pos s) false V Hwt Hpos).
        -- unfold V. apply string_of_list_ascii_nonempty.
           intros E. apply Hvs_ne. apply Permutation_nil.
           rewrite <- E. apply sorted_perm.
        -- eapply Permutation_Forall; [symmetry; exact Hperm |].
           unfold vs. apply Forall_map. exact Hcall.
        -- exact HV_nodup.
    + assert (Hin : forall c,
                 In c (list_ascii_of_string
                         (MutationSet.complement (MutationSet.complement V)))
                 <-> In c vs).
      { intros c. rewrite complement_chars, complement_chars.
        assert (Hv : In c (list_ascii_of_string V) <-> In c vs)
          by (split; apply Permutation_in; [exact Hperm | now symmetry]).
        rewrite Hv. split.
        - intros [Ha Hn].
          destruct (in_dec ascii_dec c vs) as [H | H]; [exact H |].
          exfalso. apply Hn. now split.
        - intros Hc. split; [| tauto].
          unfold vs in Hc. apply in_map_iff in Hc as [m [<- Hm]].
          rewrite Forall_forall in Halpha. now apply Halpha. }
      apply (Hfinish (list_ascii_of_string
                        (MutationSet.complement (MutationSet.complement V)))).
      * rewrite <- (length_map Mutation.variant). fold vs.
        apply Permutation_length.
        apply NoDup_Permutation; [apply complement_nodup | exact Hvs_nodup | exact Hin].
      * exact Hin.
      * rewrite (Hlarge Hgt).
        apply (MutationSet_new_text (MutationSet.wildtype s)
                 (MutationSet.pos s) true (MutationSet.complement V) Hwt Hpos).
        -- apply complement_nonempty; [exact HV_nodup |].
           rewrite length_list_ascii_of_string, Hlen. exact Hlt.
        -- apply complement_is_call.
        -- apply complement_nodup.
Qed.

Lemma MutationSet_str_roundtrip_witness :
  (exists s',
      MutationSet.__new__ (Some "Q80KR") None None None None None = Return s'
      /\ MutationSet.__eq__ s'
           (MutationSet.mk 80 [Mutation.mk 80 "R" (Some "Q"%char);
                               Mutation.mk 80 "K" None] (Some "Q"%char))
         = Return true
      /\ MutationSet.__eq__
           (MutationSet.mk 80 [Mutation.mk 80 "R" (Some "Q"%char);
                               Mutation.mk 80 "K" None] (Some "Q"%char)) s'
         = Return true)
  /\ MutationSet.__str__
       (MutationSet.mk 7
          (map (fun v => Mutation.mk 7 v None)
             (list_ascii_of_string "YWVTSRQPNML")) None)
     = "7!ACDEFGHIK"%string
  /\ exists s',
      MutationSet.__new__ (Some "7!ACDEFGHIK") None None None None None
      = Return s'
      /\ MutationSet.__eq__ s'
           (MutationSet.mk 7
              (map (fun v => Mutation.mk 7 v None)
                 (list_ascii_of_string "YWVTSRQPNML")) None)
         = Return true
      /\ MutationSet.__eq__
           (MutationSet.mk 7
              (map (fun v => Mutation.mk 7 v None)
                 (list_ascii_of_string "YWVTSRQPNML")) None) s'
         = Return true.
Proof.
  split; [| split].
  - refine (proj2 (proj2 (MutationSet_str_roundtrip
                            (MutationSet.mk 80 [Mutation.mk 80 "R" (Some "Q"%char);
                                                Mutation.mk 80 "K" None]
                               (Some "Q"%char)) _))
              _ eq_refl _ (or_introl (conj _ _))).
    + solve_wf.
    + cbn. lia.
    + discriminate.
    + cbn. lia.
    + repeat constructor.
  - refine (proj1 (proj2 (MutationSet_str_roundtrip
                            (MutationSet.mk 7
                               (map (fun v => Mutation.mk 7 v None)
                                  (list_ascii_of_string "YWVTSRQPNML")) None) _))
              _).
    + solve_wf.
    + cbn. lia.
  - refine (proj2 (proj2 (MutationSet_str_roundtrip
                            (MutationSet.mk 7
                               (map (fun v => Mutation.mk 7 v None)
                                  (list_ascii_of_string "YWVTSRQPNML")) None) _))
              _ I _ (or_intror (conj _ _))).
    + solve_wf.
    + cbn. lia.
    + discriminate.
    + cbn. lia.
    + apply Forall_forall. intros m Hm. apply existsb_eqb_In.
      revert m Hm. apply Forall_forall. repeat constructor.
Defined.

(** C3, as the claim has it, fails: a mutation set may hold a wild type and
    no variant (the constructor refuses it only when the wild type is missing
    too); its text is the wild type and the position, which the text format
    refuses because it requires a variant. *)
Lemma MutationSet_str_not_parsed :
  MutationSet.__new__ None (Some "A"%char) (Some 1) None None None
  = Return (MutationSet.mk 1 [] (Some "A"%char))
  /\ MutationSet.__str__ (MutationSet.mk 1 [] (Some "A"%char)) = "A1"%string
  /\ MutationSet.__new__
       (Some (MutationSet.__str__ (MutationSet.mk 1 [] (Some "A"%char))))
       None None None None None
     = Raise (ValueError ("MutationSet text expects wild type (optional), "
                          ++ "position, and one or more variants.")%string)
  /\ ~ exists s',
        MutationSet.__new__
          (Some (MutationSet.__str__ (MutationSet.mk 1 [] (Some "A"%char))))
          None None None None None
        = Return s'.
Proof.
  repeat split. intros [s' H]. discriminate H.
Qed.

(** Off the amended claim: with more than 10 variants of which one is a
    deletion, the text leaves the deletion out and is parsed into another
    set. *)
Lemma MutationSet_str_drops_deletion :
  exists s s',
    MutationSet.__new__ (Some "1ACDEFGHIKLd") None None None None None = Return s
    /\ MutationSet.__str__ s = "1!MNPQRSTVWY"%string
    /\ MutationSet.__new__ (Some (MutationSet.__str__ s)) None None None None None
       = Return s'
    /\ MutationSet.__eq__ s' s = Return false.
Proof. do 2 eexists. repeat split. Qed.

(** Off the amended claim as well: the set of all 20 letters has the text of
    the position and a bare exclamation mark, which is not parsed. *)
Lemma MutationSet_str_all_letters :
  exists s msg,
    MutationSet.__new__ (Some "1ACDEFGHIKLMNPQRSTVWY") None None None None None
    = Return s
    /\ MutationSet.__str__ s = "1!"%string
    /\ MutationSet.__new__ (Some (MutationSet.__str__ s)) None None None None None
       = Raise (ValueError msg).
Proof. do 2 eexists. repeat split. Qed.

(** ** The constructors establish the invariants *)

Lemma update_returns (l : list Mutation.t) :
  forall s s', MutSet.update s l = Return s' -> s' = add_all s l.
Proof.
  induction l as [| x l IH]; intros s s'; cbn [MutSet.update add_all fold_left].
  - now intros [= <-].
  - unfold MutSet.add.
    destruct (MutSet.contains s x) as [b | e] eqn:E; [| discriminate].
    apply contains_returns in E. subst b. cbn [exc_bind]. apply IH.
Qed.

Lemma variants_nodup (p : Z) (l : list Mutation.t) :
  (forall m, In m l -> Mutation.pos m = p) ->
  NoDup (map Mutation.__hash__ l) -> NoDup (map Mutation.variant l).
Proof.
  intros Hp. induction l as [| x l IH]; cbn [map]; intros H; [constructor |].
  inversion H as [| ? ? Hx Hl]; subst.
  constructor.
  - intros Hin. apply Hx. apply in_map_iff in Hin as [m [Hv Hm]].
    apply in_map_iff. exists m. split; [| exact Hm].
    unfold Mutation.__hash__.
    now rewrite Hv, (Hp m (or_intror Hm)), (Hp x (or_introl eq_refl)).
  - apply IH; [| exact Hl]. intros m Hm. apply Hp. now right.
Qed.

Lemma frozenset_wf (l : list Mutation.t) (muts : MutSet.t) (p : Z)
    (w : option ascii) :
  MutSet.frozenset l = Return muts ->
  (forall m, In m l -> Mutation.pos m = p) ->
  (forall m, In m l -> Mutation.wildtype m = None \/ Mutation.wildtype m = w) ->
  MutationSet_wf (MutationSet.mk p muts w).
Proof.
  intros Hf Hp Hw. apply update_returns in Hf. subst muts.
  assert (Hincl : forall m, In m (add_all [] l) -> In m l)
    by (intros m Hm; now apply add_all_incl in Hm).
  split; cbn [MutationSet.mutations MutationSet.pos MutationSet.wildtype].
  - intros m Hm. now apply Hp, Hincl.
  - intros m Hm. now apply Hw, Hincl.
  - apply (variants_nodup p).
    + intros m Hm. now apply Hp, Hincl.
    + apply add_all_nodup. constructor.
Qed.

Lemma nodup_singleton {A : Type} (dec : forall x y : A, {x = y} + {x <> y})
    (l : list A) (x y : A) :
  (List.length (nodup dec l) <= 1)%nat -> In x l -> In y l -> x = y.
Proof.
  intros Hlen Hx Hy.
  apply (nodup_In dec) in Hx, Hy.
  destruct (nodup dec l) as [| a [| b r]]; cbn in Hlen; [destruct Hx | | lia].
  destruct Hx as [<- | []], Hy as [<- | []]. reflexivity.
Qed.

Lemma positions_In (muts : MutSet.t) (pos : option Z) (p : Z) (m : Mutation.t) :
  (List.length (MutationSet.positions muts pos) <= 1)%nat ->
  In p (MutationSet.positions muts pos) -> In m muts -> Mutation.pos m = p.
Proof.
  unfold MutationSet.positions. intros Hlen Hp Hm.
  apply (nodup_singleton Z.eq_dec _ _ _ Hlen).
  - apply in_or_app. left. now apply in_map.
  - now apply nodup_In in Hp.
Qed.

Lemma wildtypes_In (muts : MutSet.t) (wildtype : option ascii) (w a : ascii)
    (m : Mutation.t) :
  (List.length (MutationSet.wildtypes muts wildtype) <= 1)%nat ->
  In w (MutationSet.wildtypes muts wildtype) ->
  In m muts -> Mutation.wildtype m = Some a -> a = w.
Proof.
  unfold MutationSet.wildtypes. intros Hlen Hw Hm Ha.
  apply (nodup_singleton ascii_dec _ _ _ Hlen).
  - apply in_flat_map. exists (Some a). split; [| now left].
    apply in_or_app. left. rewrite <- Ha. now apply in_map.
  - now apply nodup_In in Hw.
Qed.

Lemma from_variants_wf (wildtype : option ascii) (pos : option Z)
    (negative : bool) (variants : string) (s : MutationSet.t) :
  MutationSet.from_variants wildtype pos negative variants = Return s ->
  MutationSet_wf s.
Proof.
  unfold MutationSet.from_variants. destruct pos as [p |]; [| discriminate].
  destruct (MutSet.frozenset _) as [muts | e] eqn:E; [| discriminate].
  intros [= <-]. apply (frozenset_wf _ _ _ _ E).
  - intros m Hm. apply in_map_iff in Hm as [v [<- _]]. reflexivity.
  - intros m Hm. apply in_map_iff in Hm as [v [<- _]]. now right.
Qed.

Lemma from_mutations_wf (wildtype : option ascii) (pos : option Z)
    (mutations : option (list Mutation.t)) (s : MutationSet.t) :
  MutationSet.from_mutations wildtype pos mutations = Return s ->
  MutationSet_wf s.
Proof.
  unfold MutationSet.from_mutations.
  destruct (MutSet.frozenset _) as [muts | e] eqn:E; [| discriminate].
  cbn [exc_bind].
  destruct (Nat.ltb_spec 1 (List.length (MutationSet.positions muts pos)))
    as [| Hps]; [discriminate |].
  intros H.
  assert (Hskip : forall (ws : list ascii) (ms : MutSet.t) (e : exn)
                         (X : exc MutationSet.t),
             match ws, ms with [], [] => Raise e | _, _ => X end = Return s ->
             X = Return s).
  { intros ws ms e X. destruct ws, ms; (discriminate || trivial). }
  apply Hskip in H. rename H into H'.
  destruct (MutationSet.positions muts pos) as [| p ps] eqn:Eps; [discriminate |].
  destruct (Nat.ltb_spec 1 (List.length (MutationSet.wildtypes muts wildtype)))
    as [| Hws]; [discriminate |].
  injection H' as <-.
  assert (Hpos : forall m, In m muts -> Mutation.pos m = p).
  { intros m Hm. apply (positions_In muts pos); [now rewrite Eps | | exact Hm].
    rewrite Eps. now left. }
  split; cbn [MutationSet.mutations MutationSet.pos MutationSet.wildtype].
  - exact Hpos.
  - intros m Hm. destruct (Mutation.wildtype m) as [a |] eqn:Ea; [right | now left].
    destruct (MutationSet.wildtypes muts wildtype) as [| w ws] eqn:Ews.
    + exfalso.
      assert (Hin : In a (MutationSet.wildtypes muts wildtype)).
      { unfold MutationSet.wildtypes. apply nodup_In, in_flat_map.
        exists (Some a). split; [| now left].
        apply in_or_app. left. rewrite <- Ea. now apply in_map. }
      rewrite Ews in Hin. destruct Hin.
    + f_equal. apply (wildtypes_In muts wildtype w a m); trivial.
      * now rewrite Ews.
      * rewrite Ews. now left.
  - apply (variants_nodup p); [exact Hpos |].
    apply update_returns in E. subst muts. apply add_all_nodup. constructor.
Qed.

(** Every mutation set that the constructor returns satisfies the
    invariant. *)
Lemma MutationSet_new_wf (text : option string) (wildtype : option ascii)
    (pos : option Z) (variants : option string)
    (mutations : option (list Mutation.t)) (reference : option string)
    (s : MutationSet.t) :
  MutationSet.__new__ text wildtype pos variants mutations reference = Return s ->
  MutationSet_wf s.
Proof.
  unfold MutationSet.__new__.
  match goal with
  | |- exc_bind ?parsed _ = _ -> _ =>
      destruct parsed as [[[[wt p] negative] vs] | e]; [| discriminate]
  end.
  cbn [exc_bind].
  destruct vs as [[| c vs] |];
    (apply from_variants_wf || apply from_mutations_wf).
Qed.

Lemma collect_returns (calls : list (exc MutationSet.t)) :
  forall s s',
    VariantCalls.collect s calls = Return s' ->
    forall ms, In ms s' -> In ms s \/ In (Return ms) calls.
Proof.
  induction calls as [| c calls IH]; intros s s'; cbn [VariantCalls.collect].
  - intros [= <-] ms Hms. now left.
  - destruct c as [x | e]; [| discriminate]. cbn [exc_bind].
    destruct (VariantCalls.add s x) as [s1 | e] eqn:E; [| discriminate].
    cbn [exc_bind]. intros H ms Hms.
    destruct (IH _ _ H ms Hms) as [H1 | H1]; [| right; now right].
    assert (Hs1 : s1 = s \/ s1 = s ++ [x]).
    { unfold VariantCalls.add in E. destruct (List.find _ s).
      - destruct (MutationSet.__eq__ _ x) as [[|] | e]; inversion E; auto.
      - inversion E; auto. }
    destruct Hs1 as [-> | ->]; [now left |].
    apply in_app_or in H1 as [H1 | [<- | []]]; [now left | right; now left].
Qed.

Lemma check_positions_returns (l : list MutationSet.t) :
  forall seen,
    VariantCalls.check_positions seen l = Return tt ->
    NoDup (map MutationSet.pos l)
    /\ forall ms, In ms l -> ~ In (MutationSet.pos ms) seen.
Proof.
  induction l as [| x l IH]; intros seen; cbn [VariantCalls.check_positions map].
  - intros _. split; [constructor | intros ms []].
  - destruct (existsb _ seen) eqn:E; [discriminate |].
    intros H. destruct (IH _ H) as [Hnd Hseen].
    assert (Hx : ~ In (MutationSet.pos x) seen).
    { intros Hin.
      assert (existsb (Z.eqb (MutationSet.pos x)) seen = true); [| congruence].
      apply existsb_exists. exists (MutationSet.pos x).
      split; [exact Hin | apply Z.eqb_refl]. }
    split.
    + constructor; [| exact Hnd].
      intros Hin. apply in_map_iff in Hin as [ms [Hp Hms]].
      apply (Hseen ms Hms). left. now symmetry.
    + intros ms [<- | Hms]; [exact Hx |].
      intros Hin. apply (Hseen ms Hms). now right.
Qed.

(** Every environment that [VariantCalls.__new__] returns holds well-formed
    mutation sets at pairwise different positions. *)
Lemma VariantCalls_new_invariant (text reference : option string)
    (sample : option (list string)) (vc : VariantCalls.t) :
  VariantCalls.__new__ text reference sample = Return vc ->
  (forall ms, In ms (VariantCalls.mutation_sets vc) -> MutationSet_wf ms)
  /\ NoDup (map MutationSet.pos (VariantCalls.mutation_sets vc)).
Proof.
  unfold VariantCalls.__new__.
  match goal with
  | |- exc_bind ?built _ = _ -> _ =>
      destruct built as [sets | e] eqn:Esets; [| discriminate]
  end.
  cbn [exc_bind].
  destruct (VariantCalls.check_positions [] sets) as [[] | e] eqn:Echeck;
    [| discriminate].
  cbn [exc_bind]. intros [= <-]. cbn [VariantCalls.mutation_sets].
  split; [| now apply check_positions_returns in Echeck].
  intros ms Hms.
  assert (Hcalls : forall calls,
             VariantCalls.collect [] calls = Return sets ->
             (forall c, In c calls ->
                        exists t w p v m r, c = MutationSet.__new__ t w p v m r) ->
             MutationSet_wf ms).
  { intros calls Hc Hall.
    destruct (collect_returns _ _ _ Hc ms Hms) as [[] | Hin].
    destruct (Hall _ Hin) as (t & w & p & v & m & r & E).
    symmetry in E. now apply MutationSet_new_wf in E. }
  destruct text as [text |].
  - apply (Hcalls _ Esets). intros c Hc.
    apply in_map_iff in Hc as [term [<- _]]. repeat eexists.
  - destruct reference as [ref |]; [| discriminate].
    destruct sample as [sample |]; [| discriminate].
    destruct (negb _); [discriminate |].
    apply (Hcalls _ Esets). intros c Hc.
    apply in_flat_map in Hc as [[i [alt r]] [_ Hc]].
    destruct alt; [destruct Hc |]. destruct Hc as [<- | []]. repeat eexists.
Qed.

(** ** The tests of the repository, on the model *)

(** [SCORE FROM ( 100G => 5, 101DST => 20 )] *)
Lemma test_score_from :
  exists g d,
    residues [["100"; "G"]; ["101"; "DST"]] = Return [g; d]
    /\ let rule :=
         AsiScoreCond.__call__
           [ScoreList.__call__
              [TCall (ScoreExpr.__call__ [g; TStr "5"]);
               TCall (ScoreExpr.__call__ [d; TStr "20"])]] in
       run rule "100G 101G" = Return (Some (VInt 5))
       /\ run rule "100G 101d" = Return (Some (VInt 5))
       /\ run rule "100G 101D" = Return (Some (VInt 25))
       /\ run rule "100G 101DST" = Return (Some (VInt 25))
       /\ run rule "105G 106DST"
          = Raise (MissingPositionError "Missing position 100.").
Proof. do 2 eexists. repeat split. Qed.

(** [SCORE FROM ( 100!G => 10, 101!SD => 20 )] *)
Lemma test_score_negate :
  let rule (calls : string) : exc (option value) :=
    (atoms <- residues [["100"; "!G"]; ["101"; "!SD"]] ;;
     match atoms with
     | [g; d] =>
         run (AsiScoreCond.__call__
                [ScoreList.__call__
                   [TCall (ScoreExpr.__call__ [g; TStr "10"]);
                    TCall (ScoreExpr.__call__ [d; TStr "20"])]])
           calls
     | _ => Raise TypeError
     end)%exc in
  rule "100G 101D" = Return (Some (VInt 0))
  /\ rule "100S 101S" = Return (Some (VInt 10))
  /\ rule "100S 101W" = Return (Some (VInt 30))
  /\ rule "100G 101TW" = Return (Some (VInt 20)).
Proof. repeat split; vm_compute; reflexivity. Qed.

(** [SCORE FROM (MAX (100G => 10, 101D => 20, 102D => 30))] *)
Lemma test_score_from_max :
  exists g d d',
    residues [["100"; "G"]; ["101"; "D"]; ["102"; "D"]] = Return [g; d; d']
    /\ run (AsiScoreCond.__call__
              [ScoreList.__call__
                 [TStr "MAX";
                  TCall (ScoreExpr.__call__ [g; TStr "10"]);
                  TCall (ScoreExpr.__call__ [d; TStr "20"]);
                  TCall (ScoreExpr.__call__ [d'; TStr "30"])]])
         "100G 101D 102d"
       = Return (Some (VInt 20)).
Proof. do 3 eexists. repeat split. Qed.

(** [1G AND (2T AND 7Y)]; the inner [AndExpr] is a child of the outer one. *)
Lemma test_bool_and :
  exists g t y,
    AsiMutations.__init__ ["1"; "G"] = Return g
    /\ AsiMutations.__init__ ["2"; "T"] = Return t
    /\ AsiMutations.__init__ ["7"; "Y"] = Return y
    /\ let rule :=
         AndExpr.__call__
           [AsiMutations.__call__ g;
            AndExpr.__call__ [AsiMutations.__call__ t; AsiMutations.__call__ y]] in
       run rule "2T 7Y 1G" = Return (Some (VBool true))
       /\ run rule "2T 7d 1G" = Return (Some (VBool false))
       /\ run rule "7Y 1G 2T" = Return (Some (VBool true))
       /\ Datatypes.fst (rule [] [])
          = Raise (MissingPositionError "Missing position 1.").
Proof. do 3 eexists. repeat split. Qed.

(** [FALSE AND 1G]: on the calls [1G] the result is [False]; the second
    child is evaluated all the same, so on calls without position 1 its
    [MissingPositionError] comes out of the [AndExpr]. *)
Lemma test_bool_constants :
  exists g,
    AsiMutations.__init__ ["1"; "G"] = Return g
    /\ run (AndExpr.__call__ [BoolFalse; AsiMutations.__call__ g]) "1G"
       = Return (Some (VBool false))
    /\ run (AndExpr.__call__ [BoolFalse; AsiMutations.__call__ g]) "2G"
       = Raise (MissingPositionError "Missing position 1.")
    /\ run (OrExpr.__call__ BoolTrue (AsiMutations.__call__ g)) "1d"
       = Return (Some (VBool true)).
Proof. eexists. repeat split. Qed.

(** The residue of a match is the call of the environment, with its wild
    type ([test_score_residues]). *)
Lemma test_score_residues :
  exists g d vc,
    residues [["100"; "G"]; ["101"; "D"]] = Return [g; d]
    /\ VariantCalls.__new__ (Some "S100G R101d") None None = Return vc
    /\ exists s h,
        AsiScoreCond.__call__
          [ScoreList.__call__
             [TCall (ScoreExpr.__call__ [g; TStr "10"]);
              TCall (ScoreExpr.__call__ [d; TStr "20"])]]
          (VariantCalls.__iter__ vc) []
        = (Return (Some s), h)
        /\ Score.residues s = [Mutation.mk 100 "G" (Some "S"%char)].
Proof. do 3 eexists. repeat split. do 2 eexists. repeat split. Qed.

(** * Further properties of the sources *)

(** ** [Mutation]: text and comparison *)

Lemma Mutation_re_match_parts (wt : option ascii) (digits : string) (v : ascii)
    (rest : string) :
  match wt with Some w => Py.is_upper w = true | None => True end ->
  digits <> ""%string ->
  Forall (fun c => Py.is_digit c = true) (list_ascii_of_string digits) ->
  Py.is_call v = true ->
  Mutation.re_match
    ((match wt with Some w => String w "" | None => "" end)
     ++ digits ++ String v rest)%string
  = Some (wt, digits, v, rest).
Proof.
  intros Hwt Hd Hdigits Hv.
  destruct digits as [| d0 digits]; [congruence |].
  pose proof Hdigits as Hd0. cbn [list_ascii_of_string] in Hd0.
  inversion Hd0 as [| ? ? Hd0' _]; subst.
  unfold Mutation.re_match.
  assert (E1 : Py.optional Py.is_upper
                 ((match wt with Some w => String w "" | None => "" end)
                  ++ String d0 digits ++ String v rest)%string
               = (wt, (String d0 digits ++ String v rest)%string)).
  { destruct wt as [w |]; cbn [String.append Py.optional].
    - now rewrite Hwt.
    - now rewrite (is_digit_not_upper _ Hd0'). }
  rewrite E1.
  rewrite (span_app Py.is_digit (String d0 digits) (String v rest) Hdigits
             (is_call_not_digit _ Hv)).
  now rewrite Hv.
Qed.

(** X1.  The text of a mutation at a position that is not negative, with an
    upper-case wild type or none and a variant among [i], [d] and the
    upper-case letters, is parsed back into that very mutation; the same text
    followed by anything more is refused, as a text with more than one
    variant. *)
Theorem Mutation_text_roundtrip (m : Mutation.t) :
  0 <= Mutation.pos m ->
  match Mutation.wildtype m with
  | Some w => Py.is_upper w = true
  | None => True
  end ->
  Py.is_call (Mutation.variant m) = true ->
  Mutation.__new__ (Some (Mutation.__str__ m)) None None None = Return m
  /\ forall c rest,
      Mutation.__new__ (Some (Mutation.__str__ m ++ String c rest)%string)
        None None None
      = Raise (ValueError "Mutation text only allows one variant.").
Proof.
  intros Hpos Hwt Hv. destruct (str_digits _ Hpos) as [Hd Hds].
  unfold Mutation.__new__, Mutation.__str__. split.
  - rewrite (Mutation_re_match_parts _ _ _ "" Hwt Hd Hds Hv), int_str.
    cbn [exc_bind]. now destruct m.
  - intros c rest. rewrite !append_assoc. cbn [String.append].
    now rewrite (Mutation_re_match_parts _ _ _ (String c rest) Hwt Hd Hds Hv).
Qed.

Lemma Mutation_text_roundtrip_witness :
  Mutation.__new__ (Some (Mutation.__str__ (Mutation.mk 23 "R" (Some "A"%char))))
    None None None
  = Return (Mutation.mk 23 "R" (Some "A"%char))
  /\ forall c rest,
      Mutation.__new__
        (Some (Mutation.__str__ (Mutation.mk 23 "R" (Some "A"%char))
               ++ String c rest)%string)
        None None None
      = Raise (ValueError "Mutation text only allows one variant.").
Proof.
  apply (Mutation_text_roundtrip (Mutation.mk 23 "R" (Some "A"%char)));
    [cbn; lia | reflexivity | reflexivity].
Defined.

Lemma agree_sym (m1 m2 : Mutation.t) : agree m1 m2 = agree m2 m1.
Proof.
  unfold agree. destruct (Mutation.wildtype m1), (Mutation.wildtype m2);
    trivial. apply Ascii.eqb_sym.
Qed.

Lemma Mutation_eq_unfold (m1 m2 : Mutation.t) :
  Mutation.__eq__ m1 m2
  = if Mutation.pos m1 =? Mutation.pos m2
    then if agree m1 m2
         then Return (Ascii.eqb (Mutation.variant m1) (Mutation.variant m2))
         else Raise (ValueError ("Wild type mismatch between "
                                 ++ Mutation.__str__ m1 ++ " and "
                                 ++ Mutation.__str__ m2 ++ ".")%string)
    else Return false.
Proof.
  unfold Mutation.__eq__, agree.
  destruct (Mutation.pos m1 =? Mutation.pos m2); cbn [negb andb]; [| reflexivity].
  destruct (Mutation.wildtype m1), (Mutation.wildtype m2); trivial.
  now destruct (Ascii.eqb _ _).
Qed.

(** X2.  [Mutation.__eq__] agrees with [Mutation.__hash__] and is symmetric
    and reflexive: a mutation equals itself; two mutations that compare equal
    have the same hash; and the comparison in the other order gives the same
    boolean, or raises as well.  It is not transitive: [A41L] equals [41L],
    [41L] equals [B41L], and comparing [A41L] with [B41L] raises. *)
Theorem Mutation_eq_laws :
  (forall m, Mutation.__eq__ m m = Return true)
  /\ (forall m1 m2,
         Mutation.__eq__ m1 m2 = Return true ->
         Mutation.__hash__ m1 = Mutation.__hash__ m2)
  /\ (forall m1 m2 b,
         Mutation.__eq__ m1 m2 = Return b <-> Mutation.__eq__ m2 m1 = Return b)
  /\ (forall m1 m2,
         (exists e, Mutation.__eq__ m1 m2 = Raise e)
         <-> (exists e, Mutation.__eq__ m2 m1 = Raise e))
  /\ (forall (p : Z) (v a b : ascii),
         a <> b ->
         Mutation.__eq__ (Mutation.mk p v (Some a)) (Mutation.mk p v None)
         = Return true
         /\ Mutation.__eq__ (Mutation.mk p v None) (Mutation.mk p v (Some b))
            = Return true
         /\ exists msg,
             Mutation.__eq__ (Mutation.mk p v (Some a)) (Mutation.mk p v (Some b))
             = Raise (ValueError msg)).
Proof.
  assert (Hsym : forall m1 m2 b,
             Mutation.__eq__ m1 m2 = Return b -> Mutation.__eq__ m2 m1 = Return b).
  { intros m1 m2 b. rewrite !Mutation_eq_unfold.
    rewrite (Z.eqb_sym (Mutation.pos m2)), (agree_sym m2),
      (Ascii.eqb_sym (Mutation.variant m2)).
    destruct (Mutation.pos m1 =? Mutation.pos m2); trivial.
    destruct (agree m1 m2); [trivial | discriminate]. }
  assert (Hraise : forall m1 m2,
             (exists e, Mutation.__eq__ m1 m2 = Raise e) ->
             exists e, Mutation.__eq__ m2 m1 = Raise e).
  { intros m1 m2 [e He].
    destruct (Mutation.__eq__ m2 m1) as [b |] eqn:E; [| eauto].
    apply Hsym in E. congruence. }
  split; [| split; [| split; [| split]]].
  - intros m. apply Mutation_eq_hit.
    + apply same_hash_true. now split.
    + unfold agree. destruct (Mutation.wildtype m); trivial. apply Ascii.eqb_refl.
  - intros m1 m2. rewrite Mutation_eq_unfold.
    destruct (Z.eqb_spec (Mutation.pos m1) (Mutation.pos m2)) as [Hp | Hp];
      [| discriminate].
    destruct (agree m1 m2); [| discriminate].
    intros [= Hv]. apply Ascii.eqb_eq in Hv. unfold Mutation.__hash__. congruence.
  - intros m1 m2 b. split; apply Hsym.
  - intros m1 m2. split; apply Hraise.
  - intros p v a b Hab. rewrite !Mutation_eq_unfold. unfold agree.
    cbn [Mutation.pos Mutation.variant Mutation.wildtype].
    rewrite Z.eqb_refl, Ascii.eqb_refl.
    apply ascii_eqb_false_iff in Hab. rewrite Hab. eauto.
Qed.

(** ** [MutationSet]: what the constructor accepts *)



Lemma digit_char (a : ascii) (d : Decimal.uint) :
  Py.is_digit a = true ->
  Ascii.eqb a "-" = false /\ exists d', uint_of_char a (Some d) = Some d'.
Proof.
  destruct a as [[|] [|] [|] [|] [|] [|] [|] [|]]; cbn; intros H;
    try discriminate H; split; eauto.
Qed.

(** [int] of a text of digits is a number that is not negative. *)
Lemma int_digits (s : string) :
  s <> ""%string ->
  Forall (fun c => Py.is_digit c = true) (list_ascii_of_string s) ->
  exists z, Py.int s = Return z /\ 0 <= z.
Proof.
  intros Hne Hd.
  assert (H : exists d, NilEmpty.uint_of_string s = Some d).
  { clear Hne. induction s as [| a s IH]; cbn [NilEmpty.uint_of_string].
    - eauto.
    - cbn [list_ascii_of_string] in Hd. inversion Hd as [| ? ? Ha Hs]; subst.
      destruct (IH Hs) as [d ->]. now apply digit_char. }
  destruct H as [d Hd']. destruct s as [| a s]; [congruence |].
  cbn [list_ascii_of_string] in Hd. inversion Hd as [| ? ? Ha _]; subst.
  destruct (digit_char a Decimal.Nil Ha) as [Hminus _].
  exists (Z.of_uint d). unfold Py.int, NilZero.int_of_string.
  rewrite Hminus. unfold NilZero.uint_of_string. rewrite Hd'. cbn [option_map].
  split; [reflexivity |]. unfold Z.of_uint. apply N2Z.is_nonneg.
Qed.


Lemma frozenset_members (l : list Mutation.t) (muts : MutSet.t) :
  MutSet.frozenset l = Return muts ->
  (forall m, In m muts -> In m l)
  /\ (forall x, In x l -> key_in muts x = true).
Proof.
  intros H. apply update_returns in H. subst muts. split.
  - intros m Hm. now apply add_all_incl in Hm.
  - intros x Hx. now apply add_all_covers.
Qed.

(** X3.  Every mutation set that [MutationSet.__new__] returns, whatever
    the arguments, keeps the invariant: its mutations are at the position of
    the set, give the wild type of the set or none, and have pairwise
    different variants. *)
Theorem MutationSet_constructor_invariant (text : option string)
    (wildtype : option ascii) (pos : option Z) (variants : option string)
    (mutations : option (list Mutation.t)) (reference : option string)
    (s : MutationSet.t) :
  MutationSet.__new__ text wildtype pos variants mutations reference = Return s ->
  (forall m, In m (MutationSet.mutations s) ->
             Mutation.pos m = MutationSet.pos s
             /\ (Mutation.wildtype m = None
                 \/ Mutation.wildtype m = MutationSet.wildtype s))
  /\ NoDup (map Mutation.variant (MutationSet.mutations s)).
Proof.
  intros H. apply MutationSet_new_wf in H. destruct H as [H1 H2 H3].
  split; [| exact H3]. intros m Hm. split; [now apply H1 | now apply H2].
Qed.

Lemma MutationSet_constructor_invariant_witness :
  (forall m,
      In m [Mutation.mk 5 "A" (Some "Q"%char); Mutation.mk 5 "C" None] ->
      Mutation.pos m = 5
      /\ (Mutation.wildtype m = None \/ Mutation.wildtype m = Some "Q"%char))
  /\ NoDup (map Mutation.variant
              [Mutation.mk 5 "A" (Some "Q"%char); Mutation.mk 5 "C" None]).
Proof.
  apply (MutationSet_constructor_invariant None None None None
           (Some [Mutation.mk 5 "A" (Some "Q"%char); Mutation.mk 5 "C" None;
                  Mutation.mk 5 "A" None])
           None
           (MutationSet.mk 5
              [Mutation.mk 5 "A" (Some "Q"%char); Mutation.mk 5 "C" None]
              (Some "Q"%char))).
  reflexivity.
Defined.



(** The constructor on a text put together from the parts, whatever the
    variants repeat. *)
Lemma MutationSet_new_text_members (wt : option ascii) (p : Z) (negative : bool)
    (variants : string) :
  match wt with Some w => Py.is_upper w = true | None => True end ->
  0 <= p ->
  variants <> ""%string ->
  Forall (fun c => Py.is_call c = true) (list_ascii_of_string variants) ->
  exists muts,
    MutationSet.__new__
      (Some ((match wt with Some w => String w "" | None => "" end)
             ++ Py.str p ++ (if negative then "!" else "") ++ variants)%string)
      None None None None None
    = Return (MutationSet.mk p muts wt)
    /\ (forall m, In m muts -> Mutation.pos m = p /\ Mutation.wildtype m = wt)
    /\ forall c,
        (exists m, In m muts /\ Mutation.variant m = c)
        <-> In c (list_ascii_of_string
                    (if negative then MutationSet.complement variants
                     else variants)).
Proof.
  intros Hwt Hp Hv Hvs.
  destruct (str_digits p Hp) as [Hd Hds].
  pose proof (re_match_parts wt (Py.str p) negative variants Hwt Hd Hds Hv Hvs)
    as Hre.
  unfold MutationSet.__new__.
  destruct ((match wt with Some w => String w "" | None => "" end)
            ++ Py.str p ++ (if negative then "!" else "") ++ variants)%string
    as [| c0 text] eqn:Etext; [discriminate Hre |].
  rewrite Hre, int_str. cbn [exc_bind].
  destruct variants as [| v0 variants]; [congruence |].
  set (vs := if negative then MutationSet.complement (String v0 variants)
             else String v0 variants) in *.
  unfold MutationSet.from_variants. fold vs.
  destruct (MutSet.frozenset (map (fun v => Mutation.mk p v wt)
                                (list_ascii_of_string vs)))
    as [muts | e] eqn:E.
  - exists muts. split; [reflexivity |].
    apply frozenset_members in E as [Hin Hcov]. split.
    + intros m Hm. apply Hin, in_map_iff in Hm as [v [<- _]]. now split.
    + intros c. split.
      * intros [m [Hm <-]]. apply Hin, in_map_iff in Hm as [v [<- Hv']].
        exact Hv'.
      * intros Hc.
        specialize (Hcov (Mutation.mk p c wt) (in_map _ _ _ Hc)).
        unfold key_in in Hcov. apply existsb_exists in Hcov as [m [Hm Hk]].
        apply same_hash_true in Hk as [_ Hk]. eauto.
  - exfalso. unfold MutSet.frozenset in E. rewrite update_ok in E; [discriminate |].
    intros e' x He Hx _. cbn [app] in He, Hx.
    apply in_map_iff in He as [v1 [<- _]].
    apply in_map_iff in Hx as [v2 [<- _]].
    unfold agree. cbn. destruct wt; [apply Ascii.eqb_refl | reflexivity].
Qed.

(** X5.  Parsing the text of a wild type, a position and variants gives the
    set at that position whose variants are the listed ones; with an
    exclamation mark before them, the variants are the letters of the
    20-letter alphabet that are not listed, so never an insertion or a
    deletion. *)
Theorem MutationSet_text_variants (wt : option ascii) (p : Z) (variants : string) :
  match wt with Some w => Py.is_upper w = true | None => True end ->
  0 <= p ->
  variants <> ""%string ->
  Forall (fun c => Py.is_call c = true) (list_ascii_of_string variants) ->
  (exists s,
      MutationSet.__new__
        (Some ((match wt with Some w => String w "" | None => "" end)
               ++ Py.str p ++ variants)%string)
        None None None None None = Return s
      /\ MutationSet.pos s = p /\ MutationSet.wildtype s = wt
      /\ forall c, (exists m, In m (MutationSet.mutations s)
                              /\ Mutation.variant m = c)
                   <-> In c (list_ascii_of_string variants))
  /\ (exists s,
         MutationSet.__new__
           (Some ((match wt with Some w => String w "" | None => "" end)
                  ++ Py.str p ++ "!" ++ variants)%string)
           None None None None None = Return s
         /\ MutationSet.pos s = p /\ MutationSet.wildtype s = wt
         /\ (forall c, (exists m, In m (MutationSet.mutations s)
                                  /\ Mutation.variant m = c)
                       <-> In c (list_ascii_of_string AMINO_ALPHABET)
                           /\ ~ In c (list_ascii_of_string variants))
         /\ forall m, In m (MutationSet.mutations s) ->
                      Mutation.variant m <> "i"%char
                      /\ Mutation.variant m <> "d"%char).
Proof.
  intros Hwt Hp Hv Hvs. split.
  - destruct (MutationSet_new_text_members wt p false variants Hwt Hp Hv Hvs)
      as (muts & Hnew & _ & Hmem).
    exists (MutationSet.mk p muts wt). repeat split; trivial; apply Hmem.
  - destruct (MutationSet_new_text_members wt p true variants Hwt Hp Hv Hvs)
      as (muts & Hnew & _ & Hmem).
    exists (MutationSet.mk p muts wt).
    split; [exact Hnew |]. split; [reflexivity |]. split; [reflexivity |].
    cbn [MutationSet.mutations].
    assert (H : forall c, (exists m, In m muts /\ Mutation.variant m = c)
                          <-> In c (list_ascii_of_string AMINO_ALPHABET)
                              /\ ~ In c (list_ascii_of_string variants)).
    { intros c. rewrite Hmem. apply complement_chars. }
    split; [exact H |].
    intros m Hm.
    assert (Ha : In (Mutation.variant m) (list_ascii_of_string AMINO_ALPHABET))
      by (apply H; eauto).
    pose proof AMINO_ALPHABET_upper as Hup. rewrite Forall_forall in Hup.
    specialize (Hup _ Ha). split; intros E; rewrite E in Hup; discriminate.
Qed.

Lemma MutationSet_text_variants_witness :
  (exists s,
      MutationSet.__new__ (Some "Q80KR") None None None None None = Return s
      /\ MutationSet.pos s = 80 /\ MutationSet.wildtype s = Some "Q"%char
      /\ forall c, (exists m, In m (MutationSet.mutations s)
                              /\ Mutation.variant m = c)
                   <-> In c (list_ascii_of_string "KR"))
  /\ (exists s,
         MutationSet.__new__ (Some "Q80!KR") None None None None None = Return s
         /\ MutationSet.pos s = 80 /\ MutationSet.wildtype s = Some "Q"%char
         /\ (forall c, (exists m, In m (MutationSet.mutations s)
                                  /\ Mutation.variant m = c)
                       <-> In c (list_ascii_of_string AMINO_ALPHABET)
                           /\ ~ In c (list_ascii_of_string "KR"))
         /\ forall m, In m (MutationSet.mutations s) ->
                      Mutation.variant m <> "i"%char
                      /\ Mutation.variant m <> "d"%char).
Proof.
  apply (MutationSet_text_variants (Some "Q"%char) 80 "KR");
    [reflexivity | lia | discriminate | repeat constructor].
Defined.

Lemma update_raises (l : list Mutation.t) :
  forall s e, MutSet.update s l = Raise e -> exists msg, e = ValueError msg.
Proof.
  induction l as [| x l IH]; intros s e; cbn [MutSet.update]; [discriminate |].
  unfold MutSet.add, MutSet.contains.
  destruct (MutSet.find s x) as [y |].
  - destruct (Mutation.__eq__ y x) as [b | e'] eqn:E; cbn [exc_bind].
    + apply IH.
    + intros [= <-]. now apply Mutation_eq_raises in E.
  - cbn [exc_bind]. apply IH.
Qed.

Lemma nodup_two {A : Type} (dec : forall x y : A, {x = y} + {x <> y})
    (l : list A) (a b : A) :
  In a l -> In b l -> a <> b -> (1 < List.length (nodup dec l))%nat.
Proof.
  intros Ha Hb Hab. apply (nodup_In dec) in Ha, Hb.
  destruct (nodup dec l) as [| x [| y r]]; cbn; [destruct Ha | | lia].
  destruct Ha as [<- | []], Hb as [<- | []]. congruence.
Qed.

(** X6.  Without text and variants, the constructor refuses mutations that
    are not all at one position, and mutations that are not at the position
    it is given: it raises a [ValueError] and returns no set. *)
Theorem MutationSet_mutations_one_position (wildtype : option ascii)
    (pos : option Z) (l : list Mutation.t) :
  (exists m1 m2, In m1 l /\ In m2 l /\ Mutation.pos m1 <> Mutation.pos m2)
  \/ (exists p m, pos = Some p /\ In m l /\ Mutation.pos m <> p) ->
  exists msg,
    MutationSet.__new__ None wildtype pos None (Some l) None
    = Raise (ValueError msg).
Proof.
  intros H. unfold MutationSet.__new__. cbn [exc_bind].
  unfold MutationSet.from_mutations.
  destruct (MutSet.frozenset l) as [muts | e] eqn:E; cbn [exc_bind].
  - apply frozenset_members in E as [_ Hcov].
    assert (Hpos : forall m, In m l -> In (Mutation.pos m) (map Mutation.pos muts)).
    { intros m Hm. specialize (Hcov m Hm). unfold key_in in Hcov.
      apply existsb_exists in Hcov as [x [Hx Hk]].
      apply same_hash_true in Hk as [Hk _]. rewrite <- Hk. now apply in_map. }
    assert (Hlen : (1 < List.length (MutationSet.positions muts pos))%nat).
    { unfold MutationSet.positions.
      destruct H as [(m1 & m2 & H1 & H2 & Hne) | (p & m & -> & Hm & Hne)].
      - apply (nodup_two Z.eq_dec _ (Mutation.pos m1) (Mutation.pos m2));
          trivial; apply in_or_app; left; now apply Hpos.
      - apply (nodup_two Z.eq_dec _ (Mutation.pos m) p); trivial;
          apply in_or_app; [left; now apply Hpos | right; now left]. }
    apply Nat.ltb_lt in Hlen. rewrite Hlen. eauto.
  - unfold MutSet.frozenset in E. apply update_raises in E as [msg ->]. eauto.
Qed.

Lemma MutationSet_mutations_one_position_witness :
  exists msg,
    MutationSet.__new__ None None None None
      (Some [Mutation.mk 41 "L" None; Mutation.mk 67 "N" None]) None
    = Raise (ValueError msg).
Proof.
  apply (MutationSet_mutations_one_position None None
           [Mutation.mk 41 "L" None; Mutation.mk 67 "N" None]).
  left. exists (Mutation.mk 41 "L" None), (Mutation.mk 67 "N" None).
  split; [now left | split; [right; now left | discriminate]].
Defined.

(** ** [MutationSet]: comparison and membership *)

Lemma wf_key_in (s : MutationSet.t) (x : Mutation.t) :
  MutationSet_wf s ->
  Mutation.pos x = MutationSet.pos s ->
  key_in (MutationSet.mutations s) x = true
  <-> In (Mutation.variant x) (map Mutation.variant (MutationSet.mutations s)).
Proof.
  intros Hwf Hp. unfold key_in. rewrite existsb_exists, in_map_iff.
  split; intros [e [H1 H2]]; exists e.
  - apply same_hash_true in H2 as [_ Hv]. now split.
  - split; [exact H2 |]. apply same_hash_true.
    split; [| exact H1]. rewrite Hp. now apply (wf_pos _ Hwf).
Qed.

Lemma wf_consistent (s1 s2 : MutationSet.t) :
  MutationSet_wf s1 -> MutationSet_wf s2 ->
  match MutationSet.wildtype s1, MutationSet.wildtype s2 with
  | Some a, Some b => a = b
  | _, _ => True
  end ->
  consistent (MutationSet.mutations s1) (MutationSet.mutations s2).
Proof.
  intros H1 H2 Hw e x He Hx _. unfold agree.
  destruct (wf_wildtype _ H1 e He) as [-> | ->]; [reflexivity |].
  destruct (wf_wildtype _ H2 x Hx) as [-> | ->];
    [now destruct (MutationSet.wildtype s1) |].
  destruct (MutationSet.wildtype s1), (MutationSet.wildtype s2); trivial.
  subst. apply Ascii.eqb_refl.
Qed.

(** X7.  [MutationSet.__eq__] on two well-formed sets: at different
    positions it is [False], whatever the wild types; at the same position it
    raises when both sets give a wild type and the two differ; otherwise it
    returns a boolean, which is true exactly when the two sets have the same
    variants. *)
Theorem MutationSet_eq_spec (s1 s2 : MutationSet.t) :
  MutationSet_wf s1 -> MutationSet_wf s2 ->
  (MutationSet.pos s1 <> MutationSet.pos s2 ->
   MutationSet.__eq__ s1 s2 = Return false)
  /\ (MutationSet.pos s1 = MutationSet.pos s2 ->
      forall a b,
        MutationSet.wildtype s1 = Some a -> MutationSet.wildtype s2 = Some b ->
        a <> b ->
        exists msg, MutationSet.__eq__ s1 s2 = Raise (ValueError msg))
  /\ (MutationSet.pos s1 = MutationSet.pos s2 ->
      match MutationSet.wildtype s1, MutationSet.wildtype s2 with
      | Some a, Some b => a = b
      | _, _ => True
      end ->
      exists b,
        MutationSet.__eq__ s1 s2 = Return b
        /\ (b = true
            <-> forall v,
                In v (map Mutation.variant (MutationSet.mutations s1))
                <-> In v (map Mutation.variant (MutationSet.mutations s2)))).
Proof.
  intros H1 H2. unfold MutationSet.__eq__. split; [| split].
  - intros Hp. apply Z.eqb_neq in Hp. now rewrite Hp.
  - intros Hp a b -> -> Hab. rewrite Hp, Z.eqb_refl. cbn [negb].
    apply ascii_eqb_false_iff in Hab. rewrite Hab. cbn [negb]. eauto.
  - intros Hp Hw. rewrite Hp, Z.eqb_refl. cbn [negb].
    assert (Heq : exists b,
               MutSet.eq (MutationSet.mutations s1) (MutationSet.mutations s2)
               = Return b
               /\ (b = true
                   <-> forall v,
                       In v (map Mutation.variant (MutationSet.mutations s1))
                       <-> In v (map Mutation.variant (MutationSet.mutations s2)))).
    { unfold MutSet.eq.
      assert (Hc : consistent (MutationSet.mutations s2) (MutationSet.mutations s1)).
      { apply wf_consistent; trivial.
        destruct (MutationSet.wildtype s1), (MutationSet.wildtype s2); auto. }
      set (vs1 := map Mutation.variant (MutationSet.mutations s1)).
      set (vs2 := map Mutation.variant (MutationSet.mutations s2)).
      assert (Hsub : forallb (key_in (MutationSet.mutations s2))
                       (MutationSet.mutations s1) = true
                     <-> incl vs1 vs2).
      { rewrite forallb_forall. split.
        - intros H v Hv. apply in_map_iff in Hv as [m [<- Hm]].
          apply (wf_key_in s2 m H2); [| now apply H].
          rewrite <- Hp. now apply (wf_pos _ H1).
        - intros H x Hx. apply (wf_key_in s2 x H2).
          + rewrite <- Hp. now apply (wf_pos _ H1).
          + apply H. now apply in_map. }
      assert (Hl1 : List.length (MutationSet.mutations s1) = List.length vs1)
        by (symmetry; apply length_map).
      assert (Hl2 : List.length (MutationSet.mutations s2) = List.length vs2)
        by (symmetry; apply length_map).
      destruct (Nat.eqb_spec (List.length (MutationSet.mutations s1))
                  (List.length (MutationSet.mutations s2))) as [Hlen | Hlen];
        cbn [negb].
      - rewrite issubset_ok by exact Hc. eexists. split; [reflexivity |].
        rewrite Hsub. split.
        + intros Hincl v. split; [apply Hincl |].
          apply (NoDup_length_incl (wf_nodup _ H1)); [| exact Hincl].
          fold vs1 vs2. lia.
        + intros Hsame v Hv. now apply Hsame.
      - exists false. split; [reflexivity |]. split; [discriminate |].
        intros Hsame. exfalso. apply Hlen. rewrite Hl1, Hl2.
        apply Nat.le_antisymm;
          apply NoDup_incl_length;
          try apply (wf_nodup _ H1); try apply (wf_nodup _ H2);
          intros v Hv; now apply Hsame. }
    destruct (MutationSet.wildtype s1) as [a |], (MutationSet.wildtype s2) as [b |];
      trivial.
    subst b. now rewrite Ascii.eqb_refl.
Qed.

Lemma MutationSet_eq_spec_witness :
  exists b,
    MutationSet.__eq__
      (MutationSet.mk 80 [Mutation.mk 80 "K" None; Mutation.mk 80 "R" None] None)
      (MutationSet.mk 80 [Mutation.mk 80 "R" (Some "Q"%char);
                          Mutation.mk 80 "K" (Some "Q"%char)] (Some "Q"%char))
    = Return b
    /\ (b = true
        <-> forall v, In v ["K"; "R"]%char <-> In v ["R"; "K"]%char).
Proof.
  refine (proj2 (proj2 (MutationSet_eq_spec
                          (MutationSet.mk 80 [Mutation.mk 80 "K" None;
                                              Mutation.mk 80 "R" None] None)
                          (MutationSet.mk 80 [Mutation.mk 80 "R" (Some "Q"%char);
                                              Mutation.mk 80 "K" (Some "Q"%char)]
                             (Some "Q"%char)) _ _))
            eq_refl I); solve_wf.
Defined.

(** X8.  [call in mutation_set] on a well-formed set: when the set holds
    the variant of the call at its position and the two give different wild
    types, the test raises; otherwise it is true exactly when the call is at
    the position of the set with one of its variants, also when only one of
    the two gives a wild type. *)
Theorem MutationSet_contains_spec (s : MutationSet.t) (call : Mutation.t) :
  MutationSet_wf s ->
  (forall e, In e (MutationSet.mutations s) ->
             Mutation.same_hash e call = true -> agree e call = false ->
             exists msg, MutationSet.__contains__ s call = Raise (ValueError msg))
  /\ ((forall e, In e (MutationSet.mutations s) ->
                 Mutation.same_hash e call = true -> agree e call = true) ->
      exists b,
        MutationSet.__contains__ s call = Return b
        /\ (b = true
            <-> Mutation.pos call = MutationSet.pos s
                /\ In (Mutation.variant call)
                     (map Mutation.variant (MutationSet.mutations s)))).
Proof.
  intros Hwf. unfold MutationSet.__contains__. split.
  - intros e He Hk Ha. unfold MutSet.contains.
    pose proof (find_key_in (MutationSet.mutations s) call) as Hf.
    destruct (MutSet.find _ call) as [e' |].
    + destruct Hf as (He' & Hk' & _).
      assert (e' = e); [| subst; now apply Mutation_eq_clash].
      pose proof (wf_nodup _ Hwf) as Hnd.
      apply same_hash_true in Hk as [_ Hv], Hk' as [_ Hv'].
      clear - He He' Hv Hv' Hnd.
      induction (MutationSet.mutations s) as [| x l IH]; [destruct He |].
      cbn [map] in Hnd. inversion Hnd as [| ? ? Hx Hl]; subst.
      destruct He as [-> | He], He' as [-> | He']; trivial.
      * exfalso. apply Hx. apply in_map_iff. exists e'. split; congruence.
      * exfalso. apply Hx. apply in_map_iff. exists e. split; congruence.
      * now apply IH.
    + exfalso. unfold key_in in Hf.
      assert (existsb (fun e0 => Mutation.same_hash e0 call)
                (MutationSet.mutations s) = true); [| congruence].
      apply existsb_exists. eauto.
  - intros Hc. rewrite contains_ok.
    2:{ intros e x He [<- | []]. now apply Hc. }
    eexists. split; [reflexivity |]. split.
    + intros Hk. pose proof Hk as Hk'. unfold key_in in Hk'.
      apply existsb_exists in Hk' as [e [He Hs]].
      apply same_hash_true in Hs as [Hp _].
      assert (Hpos : Mutation.pos call = MutationSet.pos s)
        by (rewrite <- Hp; now apply (wf_pos _ Hwf)).
      split; [exact Hpos | now apply wf_key_in].
    + intros [Hp Hv]. now apply wf_key_in.
Qed.

Lemma MutationSet_contains_spec_witness :
  (exists msg,
      MutationSet.__contains__
        (MutationSet.mk 80 [Mutation.mk 80 "K" (Some "Q"%char)] (Some "Q"%char))
        (Mutation.mk 80 "K" (Some "R"%char))
      = Raise (ValueError msg))
  /\ exists b,
      MutationSet.__contains__
        (MutationSet.mk 80 [Mutation.mk 80 "K" (Some "Q"%char)] (Some "Q"%char))
        (Mutation.mk 80 "K" None)
      = Return b
      /\ (b = true <-> 80 = 80 /\ In "K"%char ["K"%char]).
Proof.
  split.
  - refine (proj1 (MutationSet_contains_spec
                     (MutationSet.mk 80 [Mutation.mk 80 "K" (Some "Q"%char)]
                        (Some "Q"%char))
                     (Mutation.mk 80 "K" (Some "R"%char)) _)
              _ (or_introl eq_refl) eq_refl eq_refl).
    solve_wf.
  - refine (proj2 (MutationSet_contains_spec
                     (MutationSet.mk 80 [Mutation.mk 80 "K" (Some "Q"%char)]
                        (Some "Q"%char))
                     (Mutation.mk 80 "K" None) _) _).
    + solve_wf.
    + intros e [<- | []] _. reflexivity.
Defined.

(** ** [VariantCalls]: the environment that the constructor returns *)

(** X9.  Every environment that [VariantCalls.__new__] returns, from a text
    or from a reference and a sample, holds at most one mutation set per
    position, and each of its sets keeps the invariant of [MutationSet]. *)
Theorem VariantCalls_constructor_invariant (text reference : option string)
    (sample : option (list string)) (vc : VariantCalls.t) :
  VariantCalls.__new__ text reference sample = Return vc ->
  NoDup (map MutationSet.pos (VariantCalls.mutation_sets vc))
  /\ VariantCalls.reference vc = reference
  /\ forall ms, In ms (VariantCalls.mutation_sets vc) ->
                (forall m, In m (MutationSet.mutations ms) ->
                           Mutation.pos m = MutationSet.pos ms
                           /\ (Mutation.wildtype m = None
                               \/ Mutation.wildtype m = MutationSet.wildtype ms))
                /\ NoDup (map Mutation.variant (MutationSet.mutations ms)).
Proof.
  intros H. destruct (VariantCalls_new_invariant _ _ _ _ H) as [Hwf Hnd].
  split; [exact Hnd | split].
  - unfold VariantCalls.__new__ in H.
    match type of H with
    | exc_bind ?built _ = _ => destruct built as [sets | e]; [| discriminate]
    end.
    cbn [exc_bind] in H.
    destruct (VariantCalls.check_positions [] sets); [| discriminate].
    cbn [exc_bind] in H. now injection H as <-.
  - intros ms Hms. destruct (Hwf ms Hms) as [H1 H2 H3].
    split; [| exact H3]. intros m Hm. split; [now apply H1 | now apply H2].
Qed.

Lemma VariantCalls_constructor_invariant_witness :
  NoDup (map MutationSet.pos
           [MutationSet.mk 41 [Mutation.mk 41 "L" (Some "M"%char)] (Some "M"%char);
            MutationSet.mk 67 [Mutation.mk 67 "N" None] None])
  /\ VariantCalls.reference
       (VariantCalls.mk
          [MutationSet.mk 41 [Mutation.mk 41 "L" (Some "M"%char)] (Some "M"%char);
           MutationSet.mk 67 [Mutation.mk 67 "N" None] None] None)
     = None
  /\ forall ms,
      In ms [MutationSet.mk 41 [Mutation.mk 41 "L" (Some "M"%char)] (Some "M"%char);
             MutationSet.mk 67 [Mutation.mk 67 "N" None] None] ->
      (forall m, In m (MutationSet.mutations ms) ->
                 Mutation.pos m = MutationSet.pos ms
                 /\ (Mutation.wildtype m = None
                     \/ Mutation.wildtype m = MutationSet.wildtype ms))
      /\ NoDup (map Mutation.variant (MutationSet.mutations ms)).
Proof.
  apply (VariantCalls_constructor_invariant (Some "M41L 67N") None None
           (VariantCalls.mk
              [MutationSet.mk 41 [Mutation.mk 41 "L" (Some "M"%char)]
                 (Some "M"%char);
               MutationSet.mk 67 [Mutation.mk 67 "N" None] None] None)).
  reflexivity.
Defined.

(** X10.  From a reference and a sample, the constructor returns an
    environment exactly when the two have the same length; otherwise it
    raises the [ValueError] that names both lengths. *)
Theorem VariantCalls_sample_length (reference : string) (sample : list string) :
  ((exists vc,
       VariantCalls.__new__ None (Some reference) (Some sample) = Return vc)
   <-> String.length reference = List.length sample)
  /\ (String.length reference <> List.length sample ->
      VariantCalls.__new__ None (Some reference) (Some sample)
      = Raise (ValueError
                 ("Reference length was "
                  ++ Py.str (Z.of_nat (String.length reference))
                  ++ " and sample length was "
                  ++ Py.str (Z.of_nat (List.length sample)) ++ ".")%string)).
Proof.
  assert (Hbad : String.length reference <> List.length sample ->
                 VariantCalls.__new__ None (Some reference) (Some sample)
                 = Raise (ValueError
                            ("Reference length was "
                             ++ Py.str (Z.of_nat (String.length reference))
                             ++ " and sample length was "
                             ++ Py.str (Z.of_nat (List.length sample)) ++ ".")%string)).
  { intros H. unfold VariantCalls.__new__.
    apply Nat.eqb_neq in H. now rewrite H. }
  split; [split | exact Hbad].
  - intros [vc Hvc].
    destruct (Nat.eq_dec (String.length reference) (List.length sample))
      as [E | E]; [exact E |].
    rewrite (Hbad E) in Hvc. discriminate.
  - intros E. eexists. apply VariantCalls_new_sample, E.
Qed.

Lemma MutSet_same_hash_refl (a : MutSet.t) : MutSet.same_hash a a = true.
Proof.
  unfold MutSet.same_hash. rewrite Nat.eqb_refl. cbn [andb].
  apply forallb_forall. intros x Hx. apply existsb_exists. exists x.
  split; [exact Hx |]. apply same_hash_true. now split.
Qed.

Lemma collect_covers (calls : list (exc MutationSet.t)) :
  forall s s',
    VariantCalls.collect s calls = Return s' ->
    incl s s'
    /\ forall c, In c calls ->
                 exists x e, c = Return x /\ In e s'
                             /\ MutationSet.same_hash e x = true.
Proof.
  induction calls as [| c calls IH]; intros s s'; cbn [VariantCalls.collect].
  - intros [= <-]. split; [apply incl_refl | intros c []].
  - destruct c as [x | e]; [| discriminate]. cbn [exc_bind].
    destruct (VariantCalls.add s x) as [s1 | e] eqn:E; [| discriminate].
    cbn [exc_bind]. intros H. destruct (IH _ _ H) as [Hincl Hcov].
    assert (Hadd : incl s s1
                   /\ exists e, In e s1 /\ MutationSet.same_hash e x = true).
    { unfold VariantCalls.add in E.
      destruct (List.find _ s) as [e |] eqn:Ef.
      - apply find_some in Ef as [He Hk].
        destruct (MutationSet.__eq__ e x) as [[|] | ?]; inversion E; subst.
        + split; [apply incl_refl | eauto].
        + split; [apply incl_appl, incl_refl |].
          exists e. split; [apply in_or_app; now left | exact Hk].
      - inversion E; subst. split; [apply incl_appl, incl_refl |].
        exists x. split; [apply in_or_app; right; now left |].
        unfold MutationSet.same_hash.
        now rewrite Z.eqb_refl, MutSet_same_hash_refl. }
    destruct Hadd as [Hs (e & He & Hk)]. split.
    + intros y Hy. now apply Hincl, Hs.
    + intros c [<- | Hc]; [| now apply Hcov].
      exists x, e. split; [reflexivity | split; [now apply Hincl | exact Hk]].
Qed.

(** Two well-formed sets with the same hash are at one position and have
    the same variants. *)
Lemma same_hash_variants (s1 s2 : MutationSet.t) :
  MutationSet_wf s1 -> MutationSet_wf s2 ->
  MutationSet.same_hash s1 s2 = true ->
  MutationSet.pos s1 = MutationSet.pos s2
  /\ forall v, In v (map Mutation.variant (MutationSet.mutations s1))
               <-> In v (map Mutation.variant (MutationSet.mutations s2)).
Proof.
  intros H1 H2 H. unfold MutationSet.same_hash, MutSet.same_hash in H.
  apply andb_true_iff in H as [Hp H]. apply andb_true_iff in H as [Hlen Hall].
  apply Z.eqb_eq in Hp. apply Nat.eqb_eq in Hlen.
  rewrite forallb_forall in Hall. split; [exact Hp |].
  assert (Hincl : incl (map Mutation.variant (MutationSet.mutations s1))
                    (map Mutation.variant (MutationSet.mutations s2))).
  { intros v Hv. apply in_map_iff in Hv as [m [<- Hm]].
    specialize (Hall m Hm). apply existsb_exists in Hall as [e [He Hk]].
    apply same_hash_true in Hk as [_ Hk]. rewrite Hk. now apply in_map. }
  intros v. split; [apply Hincl |].
  apply (NoDup_length_incl (wf_nodup _ H1)); [| exact Hincl].
  rewrite !length_map. lia.
Qed.

(** The sets of an environment built from a text, against the terms of
    the text. *)
Lemma VariantCalls_text_cover (text : string) (reference : option string)
    (sample : option (list string)) (vc : VariantCalls.t) :
  VariantCalls.__new__ (Some text) reference sample = Return vc ->
  (forall ms, In ms (VariantCalls.mutation_sets vc) ->
              exists term,
                In term (Py.split text)
                /\ MutationSet.__new__ (Some term) None None None None reference
                   = Return ms)
  /\ (forall term, In term (Py.split text) ->
                   exists ms' ms,
                     MutationSet.__new__ (Some term) None None None None reference
                     = Return ms'
                     /\ In ms (VariantCalls.mutation_sets vc)
                     /\ MutationSet.pos ms = MutationSet.pos ms'
                     /\ forall v,
                         In v (map Mutation.variant (MutationSet.mutations ms))
                         <-> In v (map Mutation.variant
                                     (MutationSet.mutations ms'))).
Proof.
  intros H. pose proof (VariantCalls_new_invariant _ _ _ _ H) as [Hwf _].
  unfold VariantCalls.__new__ in H.
  destruct (VariantCalls.collect [] _) as [sets | e] eqn:Ec; [| discriminate].
  cbn [exc_bind] in H.
  destruct (VariantCalls.check_positions [] sets); [| discriminate].
  cbn [exc_bind] in H. injection H as <-.
  cbn [VariantCalls.mutation_sets] in *. split.
  - intros ms Hms.
    destruct (collect_returns _ _ _ Ec ms Hms) as [[] | Hin].
    apply in_map_iff in Hin as [term [E Ht]]. eauto.
  - intros term Ht. destruct (collect_covers _ _ _ Ec) as [_ Hcov].
    destruct (Hcov _ (in_map _ _ _ Ht)) as (x & e & Hx & He & Hk).
    exists x, e. split; [exact Hx | split; [exact He |]].
    apply same_hash_variants; trivial.
    + now apply Hwf.
    + now apply MutationSet_new_wf in Hx.
Qed.

(** X11.  The environment built from a text holds the mutation sets of the
    terms of the text and nothing else: each of its sets is the set that the
    constructor of [MutationSet] returns for one of the terms, and each term
    is parsed into a set that has, in the environment, a set at the same
    position with the same variants. *)
Theorem VariantCalls_of_text (text : string) (reference : option string)
    (sample : option (list string)) (vc : VariantCalls.t) :
  VariantCalls.__new__ (Some text) reference sample = Return vc ->
  (forall ms, In ms (VariantCalls.mutation_sets vc) ->
              exists term,
                In term (Py.split text)
                /\ MutationSet.__new__ (Some term) None None None None reference
                   = Return ms)
  /\ (forall term, In term (Py.split text) ->
                   exists ms' ms,
                     MutationSet.__new__ (Some term) None None None None reference
                     = Return ms'
                     /\ In ms (VariantCalls.mutation_sets vc)
                     /\ MutationSet.pos ms = MutationSet.pos ms'
                     /\ forall v,
                         In v (map Mutation.variant (MutationSet.mutations ms))
                         <-> In v (map Mutation.variant
                                     (MutationSet.mutations ms'))).
Proof.
  apply VariantCalls_text_cover.
Qed.

Lemma VariantCalls_of_text_witness :
  (forall ms,
      In ms [MutationSet.mk 41 [Mutation.mk 41 "L" None] None] ->
      exists term,
        In term (Py.split "41L  M41L")
        /\ MutationSet.__new__ (Some term) None None None None None = Return ms)
  /\ (forall term,
         In term (Py.split "41L  M41L") ->
         exists ms' ms,
           MutationSet.__new__ (Some term) None None None None None = Return ms'
           /\ In ms [MutationSet.mk 41 [Mutation.mk 41 "L" None] None]
           /\ MutationSet.pos ms = MutationSet.pos ms'
           /\ forall v,
               In v (map Mutation.variant (MutationSet.mutations ms))
               <-> In v (map Mutation.variant (MutationSet.mutations ms'))).
Proof.
  apply (VariantCalls_of_text "41L  M41L" None None
           (VariantCalls.mk [MutationSet.mk 41 [Mutation.mk 41 "L" None] None]
              None)).
  reflexivity.
Defined.

(** X12.  A text with two terms that are parsed into sets at one position
    with different variants gives no environment: the constructor raises. *)
Theorem VariantCalls_text_one_set_per_position (text : string)
    (reference : option string) (sample : option (list string))
    (t1 t2 : string) (ms1 ms2 : MutationSet.t) (v : ascii) :
  In t1 (Py.split text) -> In t2 (Py.split text) ->
  MutationSet.__new__ (Some t1) None None None None reference = Return ms1 ->
  MutationSet.__new__ (Some t2) None None None None reference = Return ms2 ->
  MutationSet.pos ms1 = MutationSet.pos ms2 ->
  In v (map Mutation.variant (MutationSet.mutations ms1)) ->
  ~ In v (map Mutation.variant (MutationSet.mutations ms2)) ->
  exists e, VariantCalls.__new__ (Some text) reference sample = Raise e.
Proof.
  intros Ht1 Ht2 H1 H2 Hp Hv Hnv.
  destruct (VariantCalls.__new__ (Some text) reference sample) as [vc | e] eqn:E;
    [| eauto].
  exfalso.
  pose proof (VariantCalls_new_invariant _ _ _ _ E) as [_ Hnd].
  destruct (VariantCalls_text_cover text reference sample vc E) as [_ Hcov].
  destruct (Hcov t1 Ht1) as (x1 & e1 & Hx1 & He1 & Hp1 & Hv1).
  destruct (Hcov t2 Ht2) as (x2 & e2 & Hx2 & He2 & Hp2 & Hv2).
  rewrite H1 in Hx1. rewrite H2 in Hx2.
  injection Hx1 as <-. injection Hx2 as <-.
  assert (e1 = e2).
  { assert (Hpe : MutationSet.pos e1 = MutationSet.pos e2) by congruence.
    clear - He1 He2 Hpe Hnd.
    induction (VariantCalls.mutation_sets vc) as [| x l IH]; [destruct He1 |].
    cbn [map] in Hnd. inversion Hnd as [| ? ? Hx Hl]; subst.
    destruct He1 as [-> | He1], He2 as [-> | He2]; trivial.
    - exfalso. apply Hx. apply in_map_iff. exists e2. split; congruence.
    - exfalso. apply Hx. apply in_map_iff. exists e1. split; congruence.
    - now apply IH. }
  subst e2. apply Hnv, Hv2, Hv1, Hv.
Qed.

Lemma VariantCalls_text_one_set_per_position_witness :
  exists e, VariantCalls.__new__ (Some "41L 67N 41V") None None = Raise e.
Proof.
  apply (VariantCalls_text_one_set_per_position "41L 67N 41V" None None
           "41L" "41V"
           (MutationSet.mk 41 [Mutation.mk 41 "L" None] None)
           (MutationSet.mk 41 [Mutation.mk 41 "V" None] None) "L"%char).
  - vm_compute. tauto.
  - vm_compute. tauto.
  - reflexivity.
  - reflexivity.
  - reflexivity.
  - now left.
  - cbn. intros [H | []]. discriminate.
Defined.

(** ** The nodes of hcvr2.py *)

(** X13.  An [EqualityExpr] takes exactly two children.  Built from a
    keyword and a text of digits, it holds the number that the digits
    denote, and on a count [x] it answers [x >= limit] for [ATLEAST],
    [x == limit] for [EXACTLY], [x <= limit] for [NOMORETHAN]; with any
    other keyword it is built all the same, and every call of it raises
    [NotImplementedError]. *)
Theorem EqualityExpr_of_tokens :
  (forall children : list string,
      List.length children <> 2%nat ->
      exists msg, EqualityExpr.__init__ children = Raise (ValueError msg))
  /\ (forall operation limit : string,
         limit <> ""%string ->
         Forall (fun c => Py.is_digit c = true) (list_ascii_of_string limit) ->
         exists n,
           0 <= n
           /\ Py.int limit = Return n
           /\ EqualityExpr.__init__ [operation; limit]
              = Return (EqualityExpr.mk operation n)
           /\ forall x : Z,
               (operation = "ATLEAST"%string ->
                exists b, EqualityExpr.__call__ (EqualityExpr.mk operation n) x
                          = Return b /\ (b = true <-> n <= x))
               /\ (operation = "EXACTLY"%string ->
                   exists b, EqualityExpr.__call__ (EqualityExpr.mk operation n) x
                             = Return b /\ (b = true <-> x = n))
               /\ (operation = "NOMORETHAN"%string ->
                   exists b, EqualityExpr.__call__ (EqualityExpr.mk operation n) x
                             = Return b /\ (b = true <-> x <= n))
               /\ (operation <> "ATLEAST"%string ->
                   operation <> "EXACTLY"%string ->
                   operation <> "NOMORETHAN"%string ->
                   EqualityExpr.__call__ (EqualityExpr.mk operation n) x
                   = Raise NotImplementedError)).
Proof.
  split.
  - intros [| a [| b [| c children]]] H; cbn in H; try congruence;
      cbn [EqualityExpr.__init__]; eauto.
  - intros operation limit Hne Hd.
    destruct (int_digits limit Hne Hd) as [n [Hn Hpos]].
    exists n. split; [exact Hpos | split; [exact Hn | split]].
    + cbn [EqualityExpr.__init__]. now rewrite Hn.
    + intros x. unfold EqualityExpr.__call__.
      cbn [EqualityExpr.operation EqualityExpr.limit].
      repeat split.
      * intros ->. cbn. eexists. split; [reflexivity | apply Z.leb_le].
      * intros ->. cbn. eexists. split; [reflexivity | apply Z.eqb_eq].
      * intros ->. cbn. eexists. split; [reflexivity | apply Z.leb_le].
      * intros H1 H2 H3.
        apply String.eqb_neq in H1, H2, H3. now rewrite H1, H2, H3.
Qed.

Lemma EqualityExpr_of_tokens_witness :
  exists n,
    0 <= n
    /\ Py.int "2" = Return n
    /\ EqualityExpr.__init__ ["ATLEAST"%string; "2"%string]
       = Return (EqualityExpr.mk "ATLEAST" n)
    /\ exists b, EqualityExpr.__call__ (EqualityExpr.mk "ATLEAST" n) 3
                 = Return b /\ (b = true <-> n <= 3).
Proof.
  destruct (proj2 EqualityExpr_of_tokens "ATLEAST"%string "2"%string)
    as (n & H0 & H1 & H2 & H3).
  - discriminate.
  - repeat constructor.
  - exists n. repeat split; trivial.
    destruct (H3 3) as [Hat _]. now apply Hat.
Defined.

Lemma Value_or_truthy (a b : value) :
  Value.truthy (Value.or a b) = (Value.truthy a || Value.truthy b)%bool.
Proof.
  unfold Value.or. destruct (Value.truthy a) eqn:E; [exact E | reflexivity].
Qed.

(** X14.  [OrExpr] calls both children, the second one also when the first
    is true: an exception of the second child is raised in any case.  When
    both return, a [None] counting as [Score(False, [])], the result has the
    value [score1 or score2] (the first score if it is truthy, else the
    second), so it is truthy exactly when one of the two is; its residues
    are the union of the residues of both children, also when the value is
    false; its flags are a new empty dictionary, whatever flags the
    children raised. *)
Theorem OrExpr_call_spec (arg1 arg2 : callable) (mutations : env)
    (h h1 : heap) (r1 : option Score.t) :
  arg1 mutations h = (Return r1, h1) ->
  (forall e h2,
      arg2 mutations h1 = (Raise e, h2) ->
      OrExpr.__call__ arg1 arg2 mutations h = (Raise e, h2))
  /\ (forall r2 h2,
         arg2 mutations h1 = (Return r2, h2) ->
         consistent (residues_or_empty r1) (residues_or_empty r2) ->
         exists s h',
           OrExpr.__call__ arg1 arg2 mutations h = (Return (Some s), h')
           /\ Score.score s = Value.or (score_or_False r1) (score_or_False r2)
           /\ Value.truthy (Score.score s)
              = (Value.truthy (score_or_False r1)
                 || Value.truthy (score_or_False r2))%bool
           /\ Score.residues s
              = residues_or_empty r1
                ++ List.filter (fun x => negb (key_in (residues_or_empty r1) x))
                     (residues_or_empty r2)
           /\ (List.length h2 <= Score.flags s)%nat
           /\ nth_error h' (Score.flags s) = Some (PyDict [])).
Proof.
  intros H1. split.
  - intros e h2 H2. unfold OrExpr.__call__.
    unfold bind at 1. rewrite H1. unfold bind at 1. now rewrite H2.
  - intros r2 h2 H2 Hc.
    unfold OrExpr.__call__.
    unfold bind at 1. rewrite H1. unfold bind at 1. rewrite H2.
    destruct r1 as [s1 |], r2 as [s2 |];
      cbn [residues_or_empty score_or_False] in *.
    + unfold bind at 1. unfold ret at 1. unfold bind at 1. unfold ret at 1.
      unfold bind at 1. unfold lift at 1. rewrite (union_ok _ _ Hc).
      unfold bind at 1. rewrite Score_init_fresh. unfold ret.
      do 2 eexists. split; [reflexivity |].
      cbn [Score.score Score.residues Score.flags].
      split; [reflexivity | split; [apply Value_or_truthy |]].
      split; [reflexivity | split; [lia | apply nth_error_last]].
    + unfold bind at 1. unfold ret at 1.
      unfold bind at 1. rewrite Score_init_fresh.
      unfold bind at 1. unfold lift at 1.
      cbn [Score.residues Score.score]. rewrite (union_ok _ _ Hc).
      unfold bind at 1. rewrite Score_init_fresh. unfold ret.
      do 2 eexists. split; [reflexivity |].
      cbn [Score.score Score.residues Score.flags].
      split; [reflexivity | split; [apply Value_or_truthy |]].
      split; [reflexivity | split; [rewrite length_app; lia | apply nth_error_last]].
    + unfold bind at 1. rewrite Score_init_fresh.
      unfold bind at 1. unfold ret at 1.
      unfold bind at 1. unfold lift at 1.
      cbn [Score.residues Score.score]. rewrite (union_ok _ _ Hc).
      unfold bind at 1. rewrite Score_init_fresh. unfold ret.
      do 2 eexists. split; [reflexivity |].
      cbn [Score.score Score.residues Score.flags].
      split; [reflexivity | split; [apply Value_or_truthy |]].
      split; [reflexivity | split; [rewrite length_app; lia | apply nth_error_last]].
    + unfold bind at 1. rewrite Score_init_fresh.
      unfold bind at 1. rewrite Score_init_fresh.
      unfold bind at 1. unfold lift at 1.
      cbn [Score.residues Score.score]. rewrite (union_ok _ _ Hc).
      unfold bind at 1. rewrite Score_init_fresh. unfold ret.
      do 2 eexists. split; [reflexivity |].
      cbn [Score.score Score.residues Score.flags].
      split; [reflexivity | split; [apply Value_or_truthy |]].
      split; [reflexivity | split; [rewrite !length_app; lia | apply nth_error_last]].
Qed.

Lemma OrExpr_call_spec_witness :
  exists s h',
    OrExpr.__call__ BoolFalse BoolTrue [] [] = (Return (Some s), h')
    /\ Score.score s = VBool true
    /\ nth_error h' (Score.flags s) = Some (PyDict []).
Proof.
  destruct (proj2 (OrExpr_call_spec BoolFalse BoolTrue [] [] [PyDict []]
                     (Some (Score.mk (VBool false) [] 0%nat)) eq_refl)
              (Some (Score.mk (VBool true) [] 1%nat)) [PyDict []; PyDict []]
              eq_refl)
    as (s & h' & Hcall & Hv & _ & _ & _ & Hfl).
  - apply consistent_nil_l.
  - exists s, h'. split; [exact Hcall | split; [exact Hv | exact Hfl]].
Defined.

Lemma passing_fold (scores : list value) :
  forall n,
    fold_left (fun n v => n + (if Value.truthy v then 1 else 0)) scores n
    = n + Z.of_nat (List.length (List.filter Value.truthy scores)).
Proof.
  induction scores as [| v scores IH]; intros n; cbn [fold_left List.filter].
  - cbn. lia.
  - rewrite IH. destruct (Value.truthy v); cbn [List.length]; lia.
Qed.

Lemma passing_count (scores : list Score.t) :
  SelectFrom.passing (map Score.score scores)
  = Z.of_nat (List.length
                (List.filter (fun s => Value.truthy (Score.score s)) scores)).
Proof.
  unfold SelectFrom.passing. rewrite passing_fold. cbn [Z.add]. f_equal.
  induction scores as [| s scores IH]; cbn [map List.filter]; [reflexivity |].
  destruct (Value.truthy (Score.score s)); cbn [List.length]; now rewrite IH.
Qed.

(** X15.  [SelectFrom] calls every residue, counts those whose score is
    truthy and passes the count to the quantifier.  What the quantifier
    answers is the value of the result, what it raises is raised; the
    residues of the result are the union of the residues of all items,
    whatever the answer is; the flags are a new empty dictionary.  Without
    a residue the quantifier is called on 0, and then the union over no
    item is a [TypeError]. *)
Theorem SelectFrom_call_spec (operation : Z -> exc bool) (rest : list callable)
    (mutations : env) (h h1 : heap) (scores : list Score.t) :
  map_M (fun f : callable => f mutations) rest h = (Return (map Some scores), h1) ->
  residues_consistent scores ->
  match
    operation
      (Z.of_nat (List.length
                   (List.filter (fun s => Value.truthy (Score.score s)) scores)))
  with
  | Raise e => SelectFrom.__call__ operation rest mutations h = (Raise e, h1)
  | Return b =>
      match scores with
      | [] => SelectFrom.__call__ operation rest mutations h = (Raise TypeError, h1)
      | _ :: _ =>
          exists residues,
            SelectFrom.__call__ operation rest mutations h
            = (Return (Some (Score.mk (VBool b) residues (List.length h1))),
               h1 ++ [PyDict []])
            /\ forall m, key_in residues m = true
                         <-> exists s, In s scores
                                       /\ key_in (Score.residues s) m = true
      end
  end.
Proof.
  intros Hmap Hpair.
  assert (Hcall :
            SelectFrom.__call__ operation rest mutations h
            = match
                operation
                  (Z.of_nat
                     (List.length
                        (List.filter (fun s => Value.truthy (Score.score s))
                           scores)))
              with
              | Raise e => (Raise e, h1)
              | Return b =>
                  match ScoreList.reduce_union (map Score.residues scores) with
                  | Raise e => (Raise e, h1)
                  | Return r =>
                      (Return (Some (Score.mk (VBool b) r (List.length h1))),
                       h1 ++ [PyDict []])
                  end
              end).
  { unfold SelectFrom.__call__.
    unfold bind at 1. rewrite Hmap.
    unfold bind at 1. unfold lift at 1. rewrite attrs_Some.
    unfold bind at 1. unfold lift at 1. rewrite passing_count.
    destruct (operation _) as [b | e]; [| reflexivity].
    unfold bind at 1. unfold lift at 1. rewrite attrs_Some.
    unfold bind at 1. unfold lift at 1.
    destruct (ScoreList.reduce_union _) as [r | e]; [| reflexivity].
    unfold bind at 1. rewrite Score_init_fresh. reflexivity. }
  rewrite Hcall. clear Hcall.
  destruct (operation _) as [b | e]; [| reflexivity].
  destruct scores as [| s0 scores]; [reflexivity |].
  assert (Hres : ScoreList.reduce_union (map Score.residues (s0 :: scores))
                 = Return (union_all (Score.residues s0) scores)).
  { inversion Hpair as [| ? ? Hhead Htail]; subst.
    cbn [map ScoreList.reduce_union]. apply reduce_union_fold; [| exact Htail].
    intros s Hs. rewrite Forall_forall in Hhead. now apply Hhead. }
  rewrite Hres.
  exists (union_all (Score.residues s0) scores). split; [reflexivity |].
  intros m. rewrite key_in_union_all. split.
  - intros [H | [s [Hs H]]]; [exists s0 | exists s];
      (split; [(now left) || (now right) | exact H]).
  - intros [s [[<- | Hs] H]]; [now left | right; eauto].
Qed.

Lemma SelectFrom_call_spec_witness :
  exists residues,
    SelectFrom.__call__ (EqualityExpr.__call__ (EqualityExpr.mk "ATLEAST" 2))
      [BoolTrue; BoolFalse; BoolTrue] [] []
    = (Return (Some (Score.mk (VBool true) residues 3%nat)),
       [PyDict []; PyDict []; PyDict []; PyDict []])
    /\ forall m,
        key_in residues m = true
        <-> exists s,
            In s [Score.mk (VBool true) [] 0%nat; Score.mk (VBool false) [] 1%nat;
                  Score.mk (VBool true) [] 2%nat]
            /\ key_in (Score.residues s) m = true.
Proof.
  apply (SelectFrom_call_spec
           (EqualityExpr.__call__ (EqualityExpr.mk "ATLEAST" 2))
           [BoolTrue; BoolFalse; BoolTrue] [] [] [PyDict []; PyDict []; PyDict []]
           [Score.mk (VBool true) [] 0%nat; Score.mk (VBool false) [] 1%nat;
            Score.mk (VBool true) [] 2%nat]).
  - reflexivity.
  - repeat constructor; apply consistent_nil_l.
Defined.

Lemma set_nth_middle (h t : heap) (x o : pyobj) :
  set_nth (h ++ x :: t) (List.length h) o = h ++ o :: t.
Proof. induction h as [| y h IH]; cbn; [reflexivity | now rewrite IH]. Qed.

(** X16.  A [ScoreExpr] with a number: the text of digits is read as a
    number that is not negative, taken as it is for [condition => number]
    and negated for [condition => - number].  The condition is called once.
    When it returns [None] so does the expression; when its score is the
    object [False] the result is [Score(0, [])] with flags of its own;
    otherwise (a falsy 0 included) the result has the number as score, the
    residues of the condition and the dictionary that the expression
    created before the call. *)
Theorem ScoreExpr_number (operation : callable) (lit : string)
    (mutations : env) (h h1 : heap) (r : option Score.t) :
  lit <> ""%string ->
  Forall (fun c => Py.is_digit c = true) (list_ascii_of_string lit) ->
  operation mutations (h ++ [PyDict []]) = (Return r, h1) ->
  exists z,
    0 <= z
    /\ Py.int lit = Return z
    /\ ScoreExpr.__call__ [TCall operation; TStr lit] mutations h
       = match r with
         | None => (Return None, h1)
         | Some result =>
             if Value.is_False (Score.score result)
             then (Return (Some (Score.mk (VInt 0) [] (List.length h1))),
                   h1 ++ [PyDict []])
             else (Return (Some (Score.mk (VInt z) (Score.residues result)
                                   (List.length h))), h1)
         end
    /\ ScoreExpr.__call__ [TCall operation; TStr "-"; TStr lit] mutations h
       = match r with
         | None => (Return None, h1)
         | Some result =>
             if Value.is_False (Score.score result)
             then (Return (Some (Score.mk (VInt 0) [] (List.length h1))),
                   h1 ++ [PyDict []])
             else (Return (Some (Score.mk (VInt (- z)) (Score.residues result)
                                   (List.length h))), h1)
         end.
Proof.
  intros Hne Hd Hop. destruct (int_digits lit Hne Hd) as [z [Hz Hpos]].
  exists z. split; [exact Hpos | split; [exact Hz | split]].
  - unfold ScoreExpr.__call__.
    unfold bind at 1. unfold alloc at 1.
    unfold bind at 1. unfold bind at 1. unfold lift at 1. rewrite Hz.
    unfold ret at 1. cbn [call].
    unfold bind at 1. rewrite Hop.
    destruct r as [result |]; [| reflexivity].
    destruct (Value.is_False (Score.score result)); reflexivity.
  - unfold ScoreExpr.__call__.
    unfold bind at 1. unfold alloc at 1.
    unfold bind at 1. unfold bind at 1. unfold lift at 1. rewrite Hz.
    unfold ret at 1. cbn [call].
    unfold bind at 1. rewrite Hop.
    destruct r as [result |]; [| reflexivity].
    destruct (Value.is_False (Score.score result)); [reflexivity |].
    replace (-1 * z) with (- z) by lia. reflexivity.
Qed.

Lemma ScoreExpr_number_witness :
  exists z,
    0 <= z
    /\ Py.int "30" = Return z
    /\ ScoreExpr.__call__ [TCall BoolTrue; TStr "30"] [] []
       = (Return (Some (Score.mk (VInt z) [] 0%nat)), [PyDict []; PyDict []])
    /\ ScoreExpr.__call__ [TCall BoolTrue; TStr "-"; TStr "30"] [] []
       = (Return (Some (Score.mk (VInt (- z)) [] 0%nat)), [PyDict []; PyDict []]).
Proof.
  apply (ScoreExpr_number BoolTrue "30" [] [] [PyDict []; PyDict []]
           (Some (Score.mk (VBool true) [] 1%nat))).
  - discriminate.
  - repeat constructor.
  - reflexivity.
Defined.

(** X17.  A [ScoreExpr] with a flag, [condition => "flag"]: before the
    condition is called, the expression binds the flag to a new empty list
    in a new dictionary; the two quotes around the flag are not looked at.
    The score is 0; when the condition holds, the result has the residues of
    the condition and that dictionary, in which the list of the flag is
    still the one created empty: the expression puts no residue into it. *)
Theorem ScoreExpr_flag (operation : callable) (q1 q2 : tok) (flag : string)
    (mutations : env) (h h1 : heap) (r : option Score.t) :
  operation mutations
    (h ++ [PyDict [(flag, (S (List.length h) : addr))]; PyList []])
  = (Return r, h1) ->
  ScoreExpr.__call__ [TCall operation; q1; TStr flag; q2] mutations h
  = match r with
    | None => (Return None, h1)
    | Some result =>
        if Value.is_False (Score.score result)
        then (Return (Some (Score.mk (VInt 0) [] (List.length h1))),
              h1 ++ [PyDict []])
        else (Return (Some (Score.mk (VInt 0) (Score.residues result)
                              (List.length h))), h1)
    end.
Proof.
  intros Hop. unfold ScoreExpr.__call__.
  unfold bind at 1. unfold alloc at 1.
  unfold bind at 1. unfold bind at 1. unfold alloc at 1.
  unfold bind at 1. unfold store at 1.
  rewrite <- app_assoc. cbn [app]. rewrite set_nth_middle.
  unfold ret at 1. cbn [call].
  rewrite length_app. cbn [List.length]. rewrite Nat.add_1_r.
  unfold bind at 1. rewrite Hop.
  destruct r as [result |]; [| reflexivity].
  destruct (Value.is_False (Score.score result)); reflexivity.
Qed.

Lemma ScoreExpr_flag_witness :
  ScoreExpr.__call__
    [TCall BoolTrue; TStr (String "034" ""); TStr "f"; TStr (String "034" "")]
    [] []
  = (Return (Some (Score.mk (VInt 0) [] 0%nat)),
     [PyDict [("f"%string, 1%nat)]; PyList []; PyDict []]).
Proof.
  apply (ScoreExpr_flag BoolTrue (TStr (String "034" "")) (TStr (String "034" ""))
           "f" [] [] [PyDict [("f"%string, 1%nat)]; PyList []; PyDict []]
           (Some (Score.mk (VBool true) [] 2%nat))).
  reflexivity.
Defined.

(** X18.  A [ScoreExpr] with fewer than two or more than four children
    raises [ValueError], and so does one with three children whose second
    child is not the text [-]; in both cases the condition is not called:
    the heap holds the new dictionary of the expression and nothing else
    has changed. *)
Theorem ScoreExpr_bad_children (children : list tok) (mutations : env)
    (h : heap) :
  (List.length children < 2)%nat \/ (4 < List.length children)%nat
  \/ (exists operation minus score,
         children = [operation; minus; score] /\ minus <> TStr "-") ->
  ScoreExpr.__call__ children mutations h
  = (Raise (ValueError ""), h ++ [PyDict []]).
Proof.
  intros [H | [H | (operation & minus & score & -> & H)]].
  - destruct children as [| a [| b children]]; cbn in H; try lia; reflexivity.
  - destruct children as [| a [| b [| c [| d [| e children]]]]]; cbn in H;
      try lia; reflexivity.
  - unfold ScoreExpr.__call__.
    destruct minus as [s | f]; [| reflexivity].
    destruct s as [| a s]; [reflexivity |].
    destruct s as [| b s]; [| destruct a as [[|] [|] [|] [|] [|] [|] [|] [|]];
                              reflexivity].
    destruct a as [[|] [|] [|] [|] [|] [|] [|] [|]]; try reflexivity.
    now contradiction H.
Qed.

Lemma ScoreExpr_bad_children_witness :
  ScoreExpr.__call__ [TCall BoolTrue; TStr "+"; TStr "10"] [] []
  = (Raise (ValueError ""), [PyDict []]).
Proof.
  apply (ScoreExpr_bad_children [TCall BoolTrue; TStr "+"; TStr "10"] [] []).
  right. right. exists (TCall BoolTrue), (TStr "+"), (TStr "10").
  split; [reflexivity | discriminate].
Defined.

(** ** [update_flags] and the sum of two scores *)

Lemma dict_get_set (d : list (string * addr)) (k k0 : string) (v : addr) :
  dict_get (dict_set d k v) k0
  = if String.eqb k k0 then Some v else dict_get d k0.
Proof.
  induction d as [| [k' v'] d IH]; cbn [dict_set dict_get]; [reflexivity |].
  destruct (String.eqb_spec k' k) as [-> | Hk]; cbn [dict_get].
  - now destruct (String.eqb k k0).
  - rewrite IH. destruct (String.eqb_spec k' k0) as [-> | Hk0]; [| reflexivity].
    destruct (String.eqb_spec k k0) as [-> | _]; [congruence | reflexivity].
Qed.

Lemma dict_get_In (d : list (string * addr)) (k : string) :
  In k (map (@Datatypes.fst string addr) d) -> exists v, dict_get d k = Some v.
Proof.
  induction d as [| [k' v'] d IH]; cbn [map dict_get In Datatypes.fst];
    [intros [] |].
  intros [-> | H].
  - rewrite String.eqb_refl. eauto.
  - destruct (String.eqb k' k); eauto.
Qed.

Lemma dict_get_not_In (d : list (string * addr)) (k : string) :
  existsb (String.eqb k) (map (@Datatypes.fst string addr) d) = false ->
  dict_get d k = None.
Proof.
  induction d as [| [k' v'] d IH]; cbn [map dict_get existsb Datatypes.fst];
    [reflexivity |].
  intros H. apply orb_false_iff in H as [H1 H2].
  rewrite String.eqb_sym, H1. now apply IH.
Qed.

Lemma length_set_nth (h : heap) (a : addr) (o : pyobj) :
  List.length (set_nth h a o) = List.length h.
Proof.
  revert a. induction h as [| x h IH]; intros [| a]; cbn; trivial.
  now rewrite IH.
Qed.

Lemma nth_error_set_nth_same (h : heap) (a : addr) (o x : pyobj) :
  nth_error h a = Some x -> nth_error (set_nth h a o) a = Some o.
Proof.
  revert a. induction h as [| y h IH]; intros [| a]; cbn; try discriminate.
  - reflexivity.
  - apply IH.
Qed.

Lemma nth_error_set_nth_other (h : heap) (a b : addr) (o : pyobj) :
  a <> b -> nth_error (set_nth h a o) b = nth_error h b.
Proof.
  revert a b. induction h as [| y h IH]; intros [| a] [| b] H; cbn; trivial.
  - congruence.
  - apply IH. congruence.
Qed.

(** The loop of [update_flags] over keys of [snd] that are left. *)
Lemma update_flags_loop (fst snd : addr) (d2 : list (string * addr)) :
  fst <> snd ->
  forall (ks : list string) (d1 : list (string * addr)) (h : heap),
    NoDup ks ->
    (forall k, In k ks -> exists v, dict_get d2 k = Some v) ->
    nth_error h fst = Some (PyDict d1) ->
    nth_error h snd = Some (PyDict d2) ->
    (forall k l, In k ks -> dict_get d1 k = Some l ->
                 exists xs, nth_error h l = Some (PyList xs)) ->
    exists h' d1',
      for_each ks
        (fun k =>
           d1 <- load_dict fst ;;
           match dict_get d1 k with
           | Some l =>
               d2 <- load_dict snd ;;
               match dict_get d2 k with
               | Some v =>
                   xs <- load_list l ;;
                   store l (PyList (xs ++ [IRef v]))
               | None => raise TypeError
               end
           | None =>
               d2 <- load_dict snd ;;
               match dict_get d2 k with
               | Some v => store fst (PyDict (dict_set d1 k v))
               | None => raise TypeError
               end
           end)%heap h
      = (Return tt, h')
      /\ nth_error h' fst = Some (PyDict d1')
      /\ nth_error h' snd = Some (PyDict d2)
      /\ List.length h' = List.length h
      /\ (forall k,
             dict_get d1' k
             = match dict_get d1 k with
               | Some l => Some l
               | None => if existsb (String.eqb k) ks then dict_get d2 k else None
               end)
      /\ (forall a, a <> fst ->
                    (forall k, In k ks -> dict_get d1 k <> Some a) ->
                    nth_error h' a = nth_error h a).
Proof.
  intros Hne ks. induction ks as [| k ks IH]; intros d1 h Hnd Hd2 Hf Hs Hl.
  - exists h, d1. cbn [for_each existsb]. repeat split; trivial.
    intros k. now destruct (dict_get d1 k).
  - inversion Hnd as [| ? ? Hk Hnd']; subst.
    destruct (Hd2 k (or_introl eq_refl)) as [v Hv].
    cbn [for_each]. unfold bind at 1. unfold bind at 1. unfold load_dict at 1.
    rewrite Hf.
    destruct (dict_get d1 k) as [l |] eqn:Ek.
    + destruct (Hl k l (or_introl eq_refl) Ek) as [xs Hxs].
      assert (Hlf : l <> fst) by (intros ->; congruence).
      assert (Hls : l <> snd) by (intros ->; congruence).
      unfold bind at 1. unfold load_dict at 1. rewrite Hs, Hv.
      unfold bind at 1. unfold load_list at 1. rewrite Hxs.
      unfold store at 1.
      destruct (IH d1 (set_nth h l (PyList (xs ++ [IRef v]))) Hnd')
        as (h' & d1' & Hrun & Hf' & Hs' & Hlen & Hget & Hframe).
      * intros k' Hk'. apply Hd2. now right.
      * now rewrite nth_error_set_nth_other.
      * now rewrite nth_error_set_nth_other.
      * intros k' l' Hk' Hg. destruct (Nat.eq_dec l l') as [<- | Hll].
        -- rewrite (nth_error_set_nth_same _ _ _ _ Hxs). eauto.
        -- rewrite nth_error_set_nth_other by exact Hll.
           apply (Hl k' l'); [now right | exact Hg].
      * exists h', d1'. split; [exact Hrun |].
        split; [exact Hf' | split; [exact Hs' |]].
        split; [now rewrite Hlen, length_set_nth |]. split.
        -- intros k0. rewrite Hget. cbn [existsb].
           destruct (dict_get d1 k0) eqn:E0; [reflexivity |].
           destruct (String.eqb_spec k0 k) as [-> | _]; [congruence |].
           reflexivity.
        -- intros a Ha Hcol. rewrite Hframe; trivial.
           ++ apply nth_error_set_nth_other. intros ->.
              apply (Hcol k); [now left | exact Ek].
           ++ intros k' Hk'. apply Hcol. now right.
    + unfold bind at 1. unfold load_dict at 1. rewrite Hs, Hv.
      unfold store at 1.
      assert (Hother : forall k', In k' ks ->
                                  dict_get (dict_set d1 k v) k' = dict_get d1 k').
      { intros k' Hk'. rewrite dict_get_set.
        destruct (String.eqb_spec k k') as [-> | _]; [contradiction | reflexivity]. }
      destruct (IH (dict_set d1 k v) (set_nth h fst (PyDict (dict_set d1 k v)))
                  Hnd')
        as (h' & d1' & Hrun & Hf' & Hs' & Hlen & Hget & Hframe).
      * intros k' Hk'. apply Hd2. now right.
      * apply (nth_error_set_nth_same _ _ _ _ Hf).
      * now rewrite nth_error_set_nth_other.
      * intros k' l' Hk' Hg. rewrite (Hother k' Hk') in Hg.
        destruct (Hl k' l' (or_intror Hk') Hg) as [xs Hxs].
        exists xs. rewrite nth_error_set_nth_other; [exact Hxs |].
        intros <-. congruence.
      * exists h', d1'. split; [exact Hrun |].
        split; [exact Hf' | split; [exact Hs' |]].
        split; [now rewrite Hlen, length_set_nth |]. split.
        -- intros k0. rewrite Hget, dict_get_set. cbn [existsb].
           destruct (String.eqb_spec k k0) as [<- | Hk0].
           ++ now rewrite Ek, String.eqb_refl, Hv.
           ++ destruct (dict_get d1 k0); [reflexivity |].
              destruct (String.eqb_spec k0 k) as [-> | _];
                [congruence | reflexivity].
        -- intros a Ha Hcol. rewrite Hframe; trivial.
           ++ apply nth_error_set_nth_other. congruence.
           ++ intros k' Hk'. rewrite (Hother k' Hk'). apply Hcol. now right.
Qed.

Lemma update_flags_run (fst snd : addr) (h : heap)
    (d1 d2 : list (string * addr)) :
  fst <> snd ->
  nth_error h fst = Some (PyDict d1) ->
  nth_error h snd = Some (PyDict d2) ->
  NoDup (map (@Datatypes.fst string addr) d2) ->
  (forall k l, In k (map (@Datatypes.fst string addr) d2) ->
               dict_get d1 k = Some l ->
               exists xs, nth_error h l = Some (PyList xs)) ->
  exists h' d1',
    update_flags fst snd h = (Return fst, h')
    /\ nth_error h' fst = Some (PyDict d1')
    /\ nth_error h' snd = Some (PyDict d2)
    /\ List.length h' = List.length h
    /\ (forall k,
           dict_get d1' k
           = match dict_get d1 k with
             | Some l => Some l
             | None => dict_get d2 k
             end)
    /\ (forall a, a <> fst ->
                  (forall k, In k (map (@Datatypes.fst string addr) d2) ->
                             dict_get d1 k <> Some a) ->
                  nth_error h' a = nth_error h a).
Proof.
  intros Hne Hf Hs Hnd Hl.
  destruct (update_flags_loop fst snd d2 Hne
              (map (@Datatypes.fst string addr) d2) d1 h Hnd
              (dict_get_In d2) Hf Hs Hl)
    as (h' & d1' & Hrun & Hf' & Hs' & Hlen & Hget & Hframe).
  exists h', d1'. split.
  - unfold update_flags. unfold bind at 1. unfold load_dict at 1. rewrite Hs.
    unfold bind at 1. now rewrite Hrun.
  - split; [exact Hf' | split; [exact Hs' | split; [exact Hlen |]]].
    split; [| exact Hframe].
    intros k. rewrite Hget. destruct (dict_get d1 k); [reflexivity |].
    destruct (existsb _ _) eqn:E; [reflexivity |].
    symmetry. now apply dict_get_not_In.
Qed.

(** X19.  [update_flags(fst, snd)] on two different dictionaries, where
    the values that [fst] binds to keys of [snd] are lists: it returns the
    object [fst] itself; afterwards [fst] binds every key that it had to the
    same object as before and every other key of [snd] to the very object
    that [snd] binds it to (not to a copy); [snd] is as it was; no object is
    created; and apart from the dictionary [fst] and the lists of the keys
    that both hold, every object is as it was. *)
Theorem update_flags_spec (fst snd : addr) (h : heap)
    (d1 d2 : list (string * addr)) :
  fst <> snd ->
  nth_error h fst = Some (PyDict d1) ->
  nth_error h snd = Some (PyDict d2) ->
  NoDup (map (@Datatypes.fst string addr) d2) ->
  (forall k l, In k (map (@Datatypes.fst string addr) d2) ->
               dict_get d1 k = Some l ->
               exists xs, nth_error h l = Some (PyList xs)) ->
  exists h' d1',
    update_flags fst snd h = (Return fst, h')
    /\ nth_error h' fst = Some (PyDict d1')
    /\ nth_error h' snd = Some (PyDict d2)
    /\ List.length h' = List.length h
    /\ (forall k,
           dict_get d1' k
           = match dict_get d1 k with
             | Some l => Some l
             | None => dict_get d2 k
             end)
    /\ (forall a, a <> fst ->
                  (forall k, In k (map (@Datatypes.fst string addr) d2) ->
                             dict_get d1 k <> Some a) ->
                  nth_error h' a = nth_error h a).
Proof. apply update_flags_run. Qed.

Lemma update_flags_spec_witness :
  exists h' d1',
    update_flags 1%nat 3%nat
      [PyList []; PyDict [("f"%string, 0%nat)];
       PyList []; PyDict [("g"%string, 2%nat)]]
    = (Return 1%nat, h')
    /\ nth_error h' 1%nat = Some (PyDict d1')
    /\ nth_error h' 3%nat = Some (PyDict [("g"%string, 2%nat)])
    /\ List.length h' = 4%nat
    /\ dict_get d1' "f" = Some 0%nat
    /\ dict_get d1' "g" = Some 2%nat.
Proof.
  destruct (update_flags_spec 1%nat 3%nat
              [PyList []; PyDict [("f"%string, 0%nat)];
               PyList []; PyDict [("g"%string, 2%nat)]]
              [("f"%string, 0%nat)] [("g"%string, 2%nat)])
    as (h' & d1' & Hrun & Hf & Hs & Hlen & Hget & _).
  - discriminate.
  - reflexivity.
  - reflexivity.
  - repeat constructor. intros [].
  - intros k l [<- | []]. discriminate.
  - exists h', d1'.
    split; [exact Hrun | split; [exact Hf | split; [exact Hs |]]].
    split; [exact Hlen | split].
    + now rewrite (Hget "f"%string).
    + now rewrite (Hget "g"%string).
Defined.

(** X20.  [a + b] and [a - b] on scores whose flags are two different
    dictionaries and whose residues are consistent: the value is the sum
    (difference) of the two values as numbers, an [int] also when both are
    [bool]; the residues are those of [a] followed by those of [b] that are
    new; the flags of the result are the dictionary of [a], which now binds
    the keys of [b] that it did not have. *)
Theorem Score_add_sub_spec (a b : Score.t) (h : heap)
    (d1 d2 : list (string * addr)) :
  Score.flags a <> Score.flags b ->
  nth_error h (Score.flags a) = Some (PyDict d1) ->
  nth_error h (Score.flags b) = Some (PyDict d2) ->
  NoDup (map (@Datatypes.fst string addr) d2) ->
  (forall k l, In k (map (@Datatypes.fst string addr) d2) ->
               dict_get d1 k = Some l ->
               exists xs, nth_error h l = Some (PyList xs)) ->
  consistent (Score.residues a) (Score.residues b) ->
  exists h' d1',
    Score.__add__ a b h
    = (Return (Score.mk
                 (VInt (Value.num (Score.score a) + Value.num (Score.score b)))
                 (Score.residues a
                  ++ List.filter (fun x => negb (key_in (Score.residues a) x))
                       (Score.residues b))
                 (Score.flags a)), h')
    /\ Score.__sub__ a b h
       = (Return (Score.mk
                    (VInt (Value.num (Score.score a) - Value.num (Score.score b)))
                    (Score.residues a
                     ++ List.filter (fun x => negb (key_in (Score.residues a) x))
                          (Score.residues b))
                    (Score.flags a)), h')
    /\ nth_error h' (Score.flags a) = Some (PyDict d1')
    /\ nth_error h' (Score.flags b) = Some (PyDict d2)
    /\ forall k,
        dict_get d1' k
        = match dict_get d1 k with
          | Some l => Some l
          | None => dict_get d2 k
          end.
Proof.
  intros Hne Hf Hs Hnd Hl Hc.
  destruct (update_flags_run _ _ _ _ _ Hne Hf Hs Hnd Hl)
    as (h' & d1' & Hrun & Hf' & Hs' & _ & Hget & _).
  exists h', d1'. split; [| split; [| split; [exact Hf' | split; [exact Hs' |]]]].
  - unfold Score.__add__. unfold bind at 1. rewrite Hrun.
    unfold bind at 1. unfold lift at 1. now rewrite (union_ok _ _ Hc).
  - unfold Score.__sub__. unfold bind at 1. rewrite Hrun.
    unfold bind at 1. unfold lift at 1. now rewrite (union_ok _ _ Hc).
  - exact Hget.
Qed.

Lemma Score_add_sub_spec_witness :
  exists h' d1',
    Score.__add__ (Score.mk (VBool true) [] 0%nat) (Score.mk (VBool true) [] 2%nat)
      [PyDict []; PyList []; PyDict [("f"%string, 1%nat)]]
    = (Return (Score.mk (VInt 2) [] 0%nat), h')
    /\ nth_error h' 0%nat = Some (PyDict d1')
    /\ dict_get d1' "f" = Some 1%nat.
Proof.
  destruct (Score_add_sub_spec
              (Score.mk (VBool true) [] 0%nat) (Score.mk (VBool true) [] 2%nat)
              [PyDict []; PyList []; PyDict [("f"%string, 1%nat)]]
              [] [("f"%string, 1%nat)])
    as (h' & d1' & Hadd & _ & Hf & _ & Hget).
  - discriminate.
  - reflexivity.
  - reflexivity.
  - repeat constructor. intros [].
  - intros k l _. discriminate.
  - apply consistent_nil_l.
  - exists h', d1'. split; [exact Hadd | split; [exact Hf |]].
    now rewrite (Hget "f"%string).
Defined.
